(** * LibGGPK3 (Go port): bundle codec, index hashing and path dictionary

    A shallow embedding of package [bundle] (bundle.go and records.go):
    [OpenBundleFile], [Bundle.ReadFull], [Bundle.ReadAt], the two path
    hashes, [Index.NameHash], [Index.ParsePaths] and [Index.GetFileByPath],
    followed by the properties the specification states about them.

    Conventions.
    - Go [int32] / [int64] / [uint64] values are integers in [Z]; every
      arithmetic operation that can leave the type's range is wrapped
      explicitly ([wrap32], [wrap64], [u64]).
    - [[]byte] and [string] are both [list byte]; the conversions
      [[]byte(s)] and [string(b)] copy the bytes and are the identity here.
    - A Go function returning [(T, error)] returns a [result T]; a call
      that may stop with a run-time panic (slice bounds, index out of
      range, nil dereference) returns an [exec]. *)

From Stdlib Require Import ZArith Lia.
From Stdlib Require Import Strings.Byte.
From stdpp Require Import base option list gmap strings.

Local Open Scope Z_scope.

(** ** Machine integers *)

Definition wrap32 (z : Z) : Z := (z + 2 ^ 31) mod 2 ^ 32 - 2 ^ 31.
Definition wrap64 (z : Z) : Z := (z + 2 ^ 63) mod 2 ^ 64 - 2 ^ 63.
Definition u64 (z : Z) : Z := z mod 2 ^ 64.

Definition in_int32 (z : Z) : Prop := - 2 ^ 31 <= z < 2 ^ 31.
Definition in_u64 (z : Z) : Prop := 0 <= z < 2 ^ 64.

(** ** Bytes and strings *)

Definition byteZ (b : byte) : Z := Z.of_N (Byte.to_N b).

(** The byte with a given value; values outside 0..255 are reduced modulo
    256, which is what storing into a Go [byte] does. *)
Definition byte_of_Z (z : Z) : byte :=
  match Byte.of_N (Z.to_N (z mod 256)) with
  | Some b => b
  | None => x00
  end.

#[global] Instance byte_eq_dec : EqDecision byte := Byte.byte_eq_dec.

(** A Go string literal. *)
Definition go (s : string) : list byte := String.list_byte_of_string s.

(** [s[len(s)-1] == '/'] guarded by [len(s) > 0], and [s[:len(s)-1]]:
    the trailing-slash trim that both [NameHash] and [fnv1a64Hash]
    perform inline. *)
Definition endsWithSlash (s : list byte) : bool :=
  match s !! (length s - 1)%nat with
  | Some b => bool_decide (0 < length s)%nat && bool_decide (b = x2f)
  | None => false
  end.

Definition trimSlash (s : list byte) : list byte :=
  if endsWithSlash s then take (length s - 1)%nat s else s.

(** ** Results *)

Inductive error : Type :=
  | ErrOpenFile
  | ErrReadHeader
  | ErrInvalidChunkCount (n : Z)
  | ErrUnreasonableChunkCount (n : Z)
  | ErrReadChunkSizes
  | ErrBundleClosed
  | ErrInvalidReadSize (size : Z)
  | ErrReadOutOfBounds (offset size uncompressed : Z)
  | ErrSliceEndOutOfBounds (stop len : Z)
  | ErrNegativeUncompressedSize (n : Z)
  | ErrNoChunks
  | ErrChunkCountMismatch (count len : Z)
  | ErrNegativeChunkSize (size i : Z)
  | ErrNegativeTargetSize (size i : Z)
  | ErrZeroTargetNonzeroChunk (size i : Z)
  | ErrZeroChunkNonzeroTarget (size i : Z)
  | ErrSeekChunk (i offset : Z)
  | ErrReadChunk (i size : Z)
  | ErrOutputTooSmall (i : Z)
  | ErrNoneSizeMismatch (expected got i : Z)
  | ErrOodleDecompress (i : Z)
  | ErrOodleLength (got i expected : Z)
  | ErrDirectoriesNotLoaded
  | ErrUnknownHashAlgorithm (magic : Z)
  | ErrDirectoryDataMissing
  | ErrImplicitParsePaths (cause : error)
  | ErrPathsNotParsed
  | ErrHashForPath (cause : error)
  | ErrFileNotFound (hash : Z)
  | ErrHashForCandidate (cause : error)
  | ErrEOF
  | ErrStringNotTerminated
  | ErrSegmentTooLong.

Inductive result (A : Type) : Type :=
  | Ok (a : A)
  | Err (e : error).
Arguments Ok {A} a.
Arguments Err {A} e.

Inductive exec (A : Type) : Type :=
  | Done (a : A)
  | Panic.
Arguments Done {A} a.
Arguments Panic {A}.

Definition is_err {A} (r : result A) : Prop :=
  match r with Ok _ => False | Err _ => True end.

(** ** Path hashes *)

Definition fnvOffset : Z := 0xCBF29CE484222325.
Definition fnvPrime : Z := 0x100000001B3.

(** One iteration of the loop in [fnv1a64Hash]. *)
Definition fnvLoopBody (hash : Z) (b : byte) : Z :=
  let char := byteZ b in
  let char :=
    if (0x41 <=? char) && (char <=? 0x5A)
    then (char + (0x61 - 0x41)) mod 256
    else char in
  u64 (Z.lxor hash char * fnvPrime).

Definition fnv1a64Hash (utf8Name : list byte) : Z :=
  let dataToHash := trimSlash utf8Name in
  let hash := fold_left fnvLoopBody dataToHash fnvOffset in
  let hash := u64 (Z.lxor hash 0x2B * fnvPrime) in
  let hash := u64 (Z.lxor hash 0x2B * fnvPrime) in
  hash.

(** Go's [hash/fnv] 64-bit FNV-1 ([fnv.New64]): multiply, then xor. *)
Definition fnv_New64_Sum64 (data : list byte) : Z :=
  fold_left (fun h b => Z.lxor (u64 (h * fnvPrime)) (byteZ b)) data fnvOffset.

(** [murmurHash64A] as the source has it: the seed is not used. *)
Definition murmurHash64A (data : list byte) (seed : Z) : Z :=
  fnv_New64_Sum64 data.

(** ASCII lowering of one byte. *)
Definition asciiLower (b : byte) : byte :=
  if (0x41 <=? byteZ b) && (byteZ b <=? 0x5A)
  then byte_of_Z (byteZ b + 0x20)
  else b.

Definition isASCII (b : byte) : bool := byteZ b <? 0x80.

(** ** Little-endian decoding ([encoding/binary], [binary.LittleEndian]) *)

Definition leUint (bs : list byte) : Z :=
  fold_right (fun b acc => byteZ b + 256 * acc) 0 bs.

(** An [int32] / [int64] / [uint64] field stored at byte offset [o]. *)
Definition getInt32 (bs : list byte) (o : nat) : Z :=
  wrap32 (leUint (take 4 (drop o bs))).

Definition getInt64 (bs : list byte) (o : nat) : Z :=
  wrap64 (leUint (take 8 (drop o bs))).

(** [n] consecutive [int32] values, as [binary.Read] fills a slice. *)
Fixpoint getInt32s (n : nat) (bs : list byte) : list Z :=
  match n with
  | O => []
  | S n' => getInt32 bs 0 :: getInt32s n' (drop 4 bs)
  end.

(** The encoder the package's tests use to build files
    ([binary.Write] with [binary.LittleEndian]). *)
Fixpoint leBytes (width : nat) (z : Z) : list byte :=
  match width with
  | O => []
  | S w => byte_of_Z z :: leBytes w (z / 256)
  end.

Definition putInt32 (z : Z) : list byte := leBytes 4 z.
Definition putInt64 (z : Z) : list byte := leBytes 8 z.

(** ** Records (records.go) *)

Record BundleHeader : Type := mkBundleHeader {
  UncompressedSize : Z;
  CompressedSize : Z;
  HeadSize : Z;
  Compressor : Z;
  Unknown1 : Z;
  UncompressedSizeLong : Z;
  CompressedSizeLong : Z;
  ChunkCount : Z;
  ChunkSize : Z;
  Unknown3 : Z;
  Unknown4 : Z;
  Unknown5 : Z;
  Unknown6 : Z
}.

Definition BundleHeaderSize : Z := 60.

Definition OodleCompressorNone : Z := 3.

(** Pointers to file records are indices into the index's store of
    allocated records; an index outside the store stands for [nil]. *)
Definition ptr : Type := nat.

Module BundleRec.
Record t : Type := mk {
  Path : list byte;
  UncompressedSize : Z;
  BundleIndex : Z;
  Files : list ptr
}.
End BundleRec.

Module FileRec.
Record t : Type := mk {
  PathHash : Z;
  BundleRecord : nat;
  Offset : Z;
  Size : Z;
  Path : list byte
}.
Definition setPath (r : t) (p : list byte) : t :=
  mk (PathHash r) (BundleRecord r) (Offset r) (Size r) p.
End FileRec.

Module DirRec.
Record t : Type := mk {
  PathHash : Z;
  Offset : Z;
  Size : Z;
  RecursiveSize : Z
}.
End DirRec.

(** [binary.Write] of a header followed by the chunk-size table. *)
Definition putHeader (h : BundleHeader) : list byte :=
  putInt32 (UncompressedSize h) ++ putInt32 (CompressedSize h) ++
  putInt32 (HeadSize h) ++ putInt32 (Compressor h) ++ putInt32 (Unknown1 h) ++
  putInt64 (UncompressedSizeLong h) ++ putInt64 (CompressedSizeLong h) ++
  putInt32 (ChunkCount h) ++ putInt32 (ChunkSize h) ++
  putInt32 (Unknown3 h) ++ putInt32 (Unknown4 h) ++
  putInt32 (Unknown5 h) ++ putInt32 (Unknown6 h).

(** [binary.Read] of the 60 header bytes into the struct. *)
Definition getHeader (bs : list byte) : BundleHeader :=
  {| UncompressedSize := getInt32 bs 0;
     CompressedSize := getInt32 bs 4;
     HeadSize := getInt32 bs 8;
     Compressor := getInt32 bs 12;
     Unknown1 := getInt32 bs 16;
     UncompressedSizeLong := getInt64 bs 20;
     CompressedSizeLong := getInt64 bs 28;
     ChunkCount := getInt32 bs 36;
     ChunkSize := getInt32 bs 40;
     Unknown3 := getInt32 bs 44;
     Unknown4 := getInt32 bs 48;
     Unknown5 := getInt32 bs 52;
     Unknown6 := getInt32 bs 56 |}.

(** ** Bundle *)

(** [File] is [None] for a nil [*os.File], otherwise the content of the
    open file; reads are by absolute offset, so no cursor is kept.
    [cacheTable] is never read or written by the code and is left out. *)
Record Bundle : Type := mkBundle {
  File : option (list byte);
  Header : BundleHeader;
  CompressedChunkSizes : list Z;
  Record_ : option BundleRec.t;
  leaveOpen : bool;
  cachedContent : option (list byte)
}.

Definition setCachedContent (b : Bundle) (c : list byte) : Bundle :=
  mkBundle (File b) (Header b) (CompressedChunkSizes b) (Record_ b)
           (leaveOpen b) (Some c).

(** A cached content, when present, has the length the header states;
    [ReadFull] only ever stores such a cache. *)
Definition cacheConsistent (b : Bundle) : Prop :=
  forall c, cachedContent b = Some c ->
            Z.of_nat (length c) = UncompressedSize (Header b).

(** A slice expression [s[low:high]] on a slice whose capacity equals its
    length: panics unless [0 <= low <= high <= len(s)]. *)
Definition goSlice (s : list byte) (low high : Z) : exec (list byte) :=
  if (0 <=? low) && (low <=? high) && (high <=? Z.of_nat (length s))
  then Done (take (Z.to_nat (high - low)) (drop (Z.to_nat low) s))
  else Panic.

(** [copy(dst[off:off+n], src)] into a buffer: the first [min n len(src)]
    bytes of [src] replace the bytes of [buf] from [off] on. *)
Definition copyInto (buf : list byte) (off n : Z) (src : list byte) : list byte :=
  let written := take (Z.to_nat n) src in
  take (Z.to_nat off) buf ++ written ++
  drop (Z.to_nat off + length written)%nat buf.

(** [f.Seek(off, io.SeekStart)] followed by [io.ReadFull(f, buf)] with
    [len(buf) = n]: the seek fails on a negative offset, the read when
    fewer than [n] bytes remain. Device errors are not modelled. *)
Inductive fileRead : Type :=
  | SeekFailed
  | ReadFailed
  | ReadOk (data : list byte).

Definition seekRead (f : list byte) (off n : Z) : fileRead :=
  if off <? 0 then SeekFailed
  else if Z.of_nat (length (drop (Z.to_nat off) f)) <? n then ReadFailed
  else ReadOk (take (Z.to_nat n) (drop (Z.to_nat off) f)).

Definition syncRecord (record : option BundleRec.t) (h : BundleHeader)
  : option BundleRec.t :=
  match record with
  | Some r =>
      Some (BundleRec.mk (BundleRec.Path r) (UncompressedSize h)
              (BundleRec.BundleIndex r) (BundleRec.Files r))
  | None => None
  end.

(** [OpenBundleFile]. The first argument is what [os.Open(filePath)]
    yields: [None] when the file cannot be opened, else its content.
    The second component of the result is the caller's record after the
    call (its [UncompressedSize] is synchronised as soon as the header is
    parsed, also on the later error paths). *)
Definition OpenBundleFile (opened : option (list byte))
    (record : option BundleRec.t) (leaveOpen : bool)
  : result Bundle * option BundleRec.t :=
  match opened with
  | None => (Err ErrOpenFile, record)
  | Some f =>
      if (length f <? Z.to_nat BundleHeaderSize)%nat
      then (Err ErrReadHeader, record)
      else
        let headerBytes := take (Z.to_nat BundleHeaderSize) f in
        let header := getHeader headerBytes in
        let record := syncRecord record header in
        if ChunkCount header <? 0
        then (Err (ErrInvalidChunkCount (ChunkCount header)), record)
        else if 1000000 <? ChunkCount header
        then (Err (ErrUnreasonableChunkCount (ChunkCount header)), record)
        else
          let n := Z.to_nat (ChunkCount header) in
          let rest := drop (Z.to_nat BundleHeaderSize) f in
          if (0 <? ChunkCount header) && (length rest <? 4 * n)%nat
          then (Err ErrReadChunkSizes, record)
          else
            (Ok (mkBundle (Some f) header (getInt32s n rest) record
                   leaveOpen None), record)
  end.

Definition GetLastChunkUncompressedSize (h : BundleHeader) : Z :=
  if ChunkCount h =? 0 then 0
  else wrap32 (UncompressedSize h
               - wrap32 (ChunkSize h * wrap32 (ChunkCount h - 1))).

(** ** Index *)

(** [FileRecords] is the store of the [*IndexFileRecord] objects that
    [FilesByPathHash] and the bundle records' [Files] point into. The
    fields used only by the tree builder, the bundle factory and the
    unfinished writer path are left out. *)
Record Index : Type := mkIndex {
  Bundles : list BundleRec.t;
  FileRecords : list FileRec.t;
  FilesByPathHash : gmap Z ptr;
  Directories : list DirRec.t;
  DirectoryBundleData : option (list byte);
  pathsParsed : bool
}.

Definition setPathsParsed (idx : Index) : Index :=
  mkIndex (Bundles idx) (FileRecords idx) (FilesByPathHash idx)
          (Directories idx) (DirectoryBundleData idx) true.

Definition setFileRecords (idx : Index) (recs : list FileRec.t) : Index :=
  mkIndex (Bundles idx) recs (FilesByPathHash idx)
          (Directories idx) (DirectoryBundleData idx) (pathsParsed idx).

Definition murmurMagic : Z := 0xF42A94E69CFF42FE.
Definition fnvMagic : Z := 0x07E47507B4A92E53.

(** The first directory record selects the hash algorithm. *)
Definition usesMurmur (idx : Index) : Prop :=
  match Directories idx with
  | d0 :: _ => DirRec.PathHash d0 = murmurMagic
  | [] => False
  end.

Definition usesFnv (idx : Index) : Prop :=
  match Directories idx with
  | d0 :: _ => DirRec.PathHash d0 = fnvMagic
  | [] => False
  end.

Definition recognized (idx : Index) : Prop := usesMurmur idx \/ usesFnv idx.

(** [readNullTerminatedString]: [buf] is the buffer filled so far; on
    success the segment and the unread rest of the reader are returned. *)
Fixpoint readNullTerminatedString (r : list byte) (buf : list byte)
  : result (list byte * list byte) :=
  match r with
  | [] =>
      if (0 <? length buf)%nat then Err ErrStringNotTerminated else Err ErrEOF
  | b :: r' =>
      if bool_decide (b = x00) then Ok (buf, r')
      else
        let buf := buf ++ [b] in
        if (2048 <? length buf)%nat then Err ErrSegmentTooLong
        else readNullTerminatedString r' buf
  end.

(** How a loop body leaves: on to the next iteration, or out of the
    enclosing function with an error. *)
Inductive flow (S : Type) : Type :=
  | Continue (s : S)
  | Return (s : S) (e : error).
Arguments Continue {S} s.
Arguments Return {S} s e.

(** State of the chunk loop of [ReadFull]. *)
Record chunkState : Type := mkChunkState {
  currentChunkDataFileOffset : Z;
  outputBufferOffset : Z;
  decompressedData : list byte
}.

(** State that [ParsePaths] carries across the commands of a block. *)
Record pathState : Type := mkPathState {
  tempSegments : list (list byte);
  isBase : bool;
  failed : Z;
  records : list FileRec.t
}.

(** ** Reference definitions

    The two hashes as the specification describes them, for comparison
    with the code's [fnv1a64Hash] and [murmurHash64A]. *)

(** Strip one trailing ['/'] if present. *)
Definition stripOneTrailingSlash (s : list byte) : list byte :=
  match reverse s with
  | b :: r => if bool_decide (b = x2f) then reverse r else s
  | [] => s
  end.

(** Standard FNV-1a-64: xor the byte in, then multiply by the prime. *)
Definition fnv1a64_standard (data : list byte) : Z :=
  fold_left (fun h b => u64 (Z.lxor h (byteZ b) * 0x100000001B3))
            data 0xCBF29CE484222325.

(** One more xor-and-multiply with the byte ['+']. *)
Definition xorMulPlus (h : Z) : Z := u64 (Z.lxor h 0x2B * 0x100000001B3).

(** The custom FNV-1a-64 in the specification's words: strip, lowercase
    ASCII A-Z, standard FNV-1a-64, two trailing rounds with ['+']. *)
Definition customFnv1a64_spec (s : list byte) : Z :=
  xorMulPlus (xorMulPlus
    (fnv1a64_standard (map asciiLower (stripOneTrailingSlash s)))).

Definition murmurM : Z := 0xc6a4a7935bd1e995.
Definition murmurR : Z := 47.

Definition murmurMixBlock (h k : Z) : Z :=
  let k := u64 (k * murmurM) in
  let k := Z.lxor k (Z.shiftr k murmurR) in
  let k := u64 (k * murmurM) in
  let h := Z.lxor h k in
  u64 (h * murmurM).

Fixpoint murmurBlocks (h : Z) (data : list byte) : Z * list byte :=
  match data with
  | b0 :: b1 :: b2 :: b3 :: b4 :: b5 :: b6 :: b7 :: rest =>
      murmurBlocks (murmurMixBlock h (leUint [b0; b1; b2; b3; b4; b5; b6; b7]))
                   rest
  | tail => (h, tail)
  end.

Definition murmurTail (h : Z) (tail : list byte) : Z :=
  match tail with
  | [] => h
  | _ => u64 (Z.lxor h (leUint tail) * murmurM)
  end.

(** The canonical MurmurHash64A in the specification's words: 64-bit
    MurmurHash2 with m = 0xc6a4a7935bd1e995 and r = 47, the tail bytes
    mixed in, and the final xor-shift mix. It is the reference the
    code's [murmurHash64A] is compared with. *)
Definition MurmurHash64A_canonical (data : list byte) (seed : Z) : Z :=
  let h := Z.lxor seed (u64 (Z.of_nat (length data) * murmurM)) in
  let '(h, tail) := murmurBlocks h data in
  let h := murmurTail h tail in
  let h := Z.lxor h (Z.shiftr h murmurR) in
  let h := u64 (h * murmurM) in
  Z.lxor h (Z.shiftr h murmurR).

(** ** The package's functions *)

(** The two library routines the package calls without containing them. *)
Class External : Type := {
  (** [strings.Map(unicode.ToLower, s)], the path [strings.ToLower]
      takes for a string with a non-ASCII byte. *)
  unicode_ToLower : list byte -> list byte;
  (** [oodle.Decompress(compressed, size)]; [None] when it fails. *)
  oodle_Decompress : list byte -> Z -> option (list byte)
}.

Section Package.

Context `{External}.

(** [strings.ToLower]: ASCII-only strings are lowered byte by byte. *)
Definition strings_ToLower (s : list byte) : list byte :=
  if forallb isASCII s then map asciiLower s else unicode_ToLower s.

(** *** Bundle.ReadFull *)

(** [uncompressedChunkTargetSize] for chunk [i]: the chunk size, or for
    the last chunk what [GetLastChunkUncompressedSize] returns. *)
Definition uncompressedChunkTargetSize (h : BundleHeader) (i : Z) : Z :=
  if i =? wrap32 (ChunkCount h - 1)
  then GetLastChunkUncompressedSize h
  else ChunkSize h.

(** The body of the chunk loop for chunk [i]. The reuse of
    [compressedChunkBuffer] across iterations is not modelled: after
    [io.ReadFull] the buffer holds exactly the bytes read. *)
Definition readChunk (h : BundleHeader) (sizes : list Z) (f : list byte)
    (i : Z) (st : chunkState) : exec (result chunkState) :=
  match sizes !! Z.to_nat i with
  | None => Panic
  | Some compressedChunkSize =>
    if compressedChunkSize <? 0
    then Done (Err (ErrNegativeChunkSize compressedChunkSize i))
    else
    let target := uncompressedChunkTargetSize h i in
    if target <? 0 then Done (Err (ErrNegativeTargetSize target i))
    else if (target =? 0) && negb (compressedChunkSize =? 0)
    then Done (Err (ErrZeroTargetNonzeroChunk compressedChunkSize i))
    else if (target =? 0) && (compressedChunkSize =? 0)
    then Done (Ok (mkChunkState
                 (wrap64 (currentChunkDataFileOffset st + compressedChunkSize))
                 (outputBufferOffset st) (decompressedData st)))
    else if (compressedChunkSize =? 0) && negb (target =? 0)
    then Done (Err (ErrZeroChunkNonzeroTarget target i))
    else
    match seekRead f (currentChunkDataFileOffset st) compressedChunkSize with
    | SeekFailed => Done (Err (ErrSeekChunk i (currentChunkDataFileOffset st)))
    | ReadFailed => Done (Err (ErrReadChunk i compressedChunkSize))
    | ReadOk compressedChunkBuffer =>
      let stop := wrap32 (outputBufferOffset st + target) in
      if wrap32 (Z.of_nat (length (decompressedData st))) <? stop
      then Done (Err (ErrOutputTooSmall i))
      else
      match goSlice (decompressedData st) (outputBufferOffset st) stop with
      | Panic => Panic
      | Done _ =>
        let advance (src : list byte) :=
          Done (Ok (mkChunkState
            (wrap64 (currentChunkDataFileOffset st + compressedChunkSize))
            (wrap32 (outputBufferOffset st + target))
            (copyInto (decompressedData st) (outputBufferOffset st)
                      (stop - outputBufferOffset st) src))) in
        if Compressor h =? OodleCompressorNone then
          if negb (compressedChunkSize =? target)
          then Done (Err (ErrNoneSizeMismatch target compressedChunkSize i))
          else advance compressedChunkBuffer
        else
          match oodle_Decompress compressedChunkBuffer target with
          | None => Done (Err (ErrOodleDecompress i))
          | Some decompressedChunk =>
            if negb (Z.of_nat (length decompressedChunk) =? target)
            then Done (Err (ErrOodleLength
                              (Z.of_nat (length decompressedChunk)) i target))
            else advance decompressedChunk
          end
      end
    end
  end.

(** [for i := int32(0); i < ChunkCount; i++]: [todo] iterations remain. *)
Fixpoint chunkLoop (h : BundleHeader) (sizes : list Z) (f : list byte)
    (todo : nat) (i : Z) (st : chunkState) : exec (result (list byte)) :=
  match todo with
  | O => Done (Ok (decompressedData st))
  | S todo' =>
      match readChunk h sizes f i st with
      | Panic => Panic
      | Done (Err e) => Done (Err e)
      | Done (Ok st') => chunkLoop h sizes f todo' (i + 1) st'
      end
  end.

(** [ReadFull] returns its result together with the bundle afterwards
    (the cache is filled on the first successful read). *)
Definition ReadFull (b : Bundle) : exec (result (list byte) * Bundle) :=
  match File b with
  | None => Done (Err ErrBundleClosed, b)
  | Some f =>
    let h := Header b in
    if UncompressedSize h =? 0 then Done (Ok [], b)
    else if UncompressedSize h <? 0
    then Done (Err (ErrNegativeUncompressedSize (UncompressedSize h)), b)
    else
    match cachedContent b with
    | Some c => Done (Ok c, b)
    | None =>
      let decompressedData := replicate (Z.to_nat (UncompressedSize h)) x00 in
      if (ChunkCount h =? 0) && (0 <? UncompressedSize h)
      then Done (Err ErrNoChunks, b)
      else if (0 <? ChunkCount h)
              && negb (Z.of_nat (length (CompressedChunkSizes b)) =? ChunkCount h)
      then Done (Err (ErrChunkCountMismatch (ChunkCount h)
                        (Z.of_nat (length (CompressedChunkSizes b)))), b)
      else
      let firstChunkDataOffset :=
        wrap32 (BundleHeaderSize + wrap32 (ChunkCount h * 4)) in
      match chunkLoop h (CompressedChunkSizes b) f
              (Z.to_nat (ChunkCount h)) 0
              (mkChunkState firstChunkDataOffset 0 decompressedData) with
      | Panic => Panic
      | Done (Err e) => Done (Err e, b)
      | Done (Ok data) => Done (Ok data, setCachedContent b data)
      end
    end
  end.

(** *** Bundle.ReadAt *)

Definition ReadAt (b : Bundle) (offsetInBundle sizeInBundle : Z)
  : exec (result (list byte) * Bundle) :=
  match File b with
  | None => Done (Err ErrBundleClosed, b)
  | Some _ =>
    if sizeInBundle =? 0 then Done (Ok [], b)
    else if sizeInBundle <? 0
    then Done (Err (ErrInvalidReadSize sizeInBundle), b)
    else if (offsetInBundle <? 0)
            || (UncompressedSize (Header b)
                <? wrap32 (offsetInBundle + sizeInBundle))
    then Done (Err (ErrReadOutOfBounds offsetInBundle sizeInBundle
                      (UncompressedSize (Header b))), b)
    else
    match ReadFull b with
    | Panic => Panic
    | Done (Err e, b') => Done (Err e, b')
    | Done (Ok fullData, b') =>
      let stop := wrap32 (offsetInBundle + sizeInBundle) in
      if Z.of_nat (length fullData) <? stop
      then Done (Err (ErrSliceEndOutOfBounds stop
                        (Z.of_nat (length fullData))), b')
      else
        match goSlice fullData offsetInBundle stop with
        | Panic => Panic
        | Done data => Done (Ok data, b')
        end
    end
  end.

(** *** Index.NameHash *)

Definition NameHash (idx : Index) (path : list byte) : result Z :=
  match Directories idx with
  | [] => Err ErrDirectoriesNotLoaded
  | d0 :: _ =>
    let path := trimSlash path in
    let utf8Path := path in
    if DirRec.PathHash d0 =? murmurMagic then
      let lowerPath := strings_ToLower path in
      Ok (murmurHash64A lowerPath 0x1337B33F)
    else if DirRec.PathHash d0 =? fnvMagic then
      Ok (fnv1a64Hash utf8Path)
    else Err (ErrUnknownHashAlgorithm (DirRec.PathHash d0))
  end.

(** *** Index.ParsePaths *)

Definition setSegments (st : pathState) (segs : list (list byte)) : pathState :=
  mkPathState segs (isBase st) (failed st) (records st).

(** The candidate-path code that the loop has in two places: hash the
    path, set [Path] on the record the hash resolves to, or count a
    failure. Writing through a nil record pointer panics. *)
Definition resolveCandidate (idx : Index) (fullPathBytes : list byte)
    (st : pathState) : exec (flow pathState) :=
  match NameHash idx fullPathBytes with
  | Err hashErr => Done (Return st (ErrHashForCandidate hashErr))
  | Ok hash =>
    match FilesByPathHash idx !! hash with
    | Some p =>
      match records st !! p with
      | None => Panic
      | Some fileRec =>
        Done (Continue (mkPathState (tempSegments st) (isBase st) (failed st)
                (<[p := FileRec.setPath fileRec fullPathBytes]> (records st))))
      end
    | None =>
      Done (Continue (mkPathState (tempSegments st) (isBase st)
                        (failed st + 1) (records st)))
    end
  end.

(** [for blockReader.Len() > 0 { ... }] over the unread bytes [r] of the
    block. Every iteration that does not leave the loop consumes at
    least four bytes, so [length r] iterations always suffice
    ([blockLoop_fuel] below). *)
Fixpoint blockLoop (fuel : nat) (idx : Index) (r : list byte)
    (st : pathState) : exec (flow pathState) :=
  match fuel with
  | O => Done (Continue st)
  | S fuel' =>
    if (length r =? 0)%nat then Done (Continue st)
    else if (length r <? 4)%nat then Done (Continue st)
    else
    let pathPartIndex := getInt32 r 0 in
    let r := drop 4 r in
    if pathPartIndex =? 0 then
      let isBase' := negb (isBase st) in
      let segs := if isBase' then [] else tempSegments st in
      blockLoop fuel' idx r (mkPathState segs isBase' (failed st) (records st))
    else
    let pathPartIndex := wrap32 (pathPartIndex - 1) in
    match readNullTerminatedString r [] with
    | Err _ => Done (Continue st)
    | Ok (segment, r) =>
      if pathPartIndex <? wrap32 (Z.of_nat (length (tempSegments st))) then
        match (if pathPartIndex <? 0 then None
               else tempSegments st !! Z.to_nat pathPartIndex) with
        | None => Panic
        | Some old =>
          let newSegment := old ++ segment in
          let st :=
            setSegments st
              (<[Z.to_nat pathPartIndex := newSegment]> (tempSegments st)) in
          if negb (isBase st) then
            match resolveCandidate idx newSegment st with
            | Panic => Panic
            | Done (Return st e) => Done (Return st e)
            | Done (Continue st) => blockLoop fuel' idx r st
            end
          else blockLoop fuel' idx r st
        end
      else if isBase st then
        blockLoop fuel' idx r (setSegments st (tempSegments st ++ [segment]))
      else
        match resolveCandidate idx segment st with
        | Panic => Panic
        | Done (Return st e) => Done (Return st e)
        | Done (Continue st) => blockLoop fuel' idx r st
        end
    end
  end.

(** [for _, d := range idx.Directories { ... }]. *)
Fixpoint dirLoop (idx : Index) (dirData : list byte) (dirs : list DirRec.t)
    (count : Z) (recs : list FileRec.t) : exec (flow pathState) :=
  match dirs with
  | [] => Done (Continue (mkPathState [] false count recs))
  | d :: dirs' =>
    let stop := wrap32 (DirRec.Offset d + DirRec.Size d) in
    if (DirRec.Offset d <? 0) || (Z.of_nat (length dirData) <? stop)
    then dirLoop idx dirData dirs' count recs
    else
      match goSlice dirData (DirRec.Offset d) stop with
      | Panic => Panic
      | Done block =>
        match blockLoop (length block) idx block
                (mkPathState [] false count recs) with
        | Panic => Panic
        | Done (Return st e) => Done (Return st e)
        | Done (Continue st) =>
            dirLoop idx dirData dirs' (failed st) (records st)
        end
      end
  end.

(** [ParsePaths] returns [(failedCount, err)] and the index afterwards. *)
Definition ParsePaths (idx : Index) : exec (Z * option error * Index) :=
  if pathsParsed idx then Done (0, None, idx)
  else
    match DirectoryBundleData idx with
    | None => Done (0, Some ErrDirectoryDataMissing, setPathsParsed idx)
    | Some dirData =>
      if (length (Directories idx) =? 0)%nat
      then Done (0, Some ErrDirectoryDataMissing, setPathsParsed idx)
      else
        match dirLoop idx dirData (Directories idx) 0 (FileRecords idx) with
        | Panic => Panic
        | Done (Return st e) =>
            Done (failed st, Some e, setFileRecords idx (records st))
        | Done (Continue st) =>
            Done (failed st, None,
                  setPathsParsed (setFileRecords idx (records st)))
        end
    end.

(** *** Index.GetFileByPath *)

(** [for _, rec := range idx.FilesByPathHash]: [order] lists the map's
    entries in the order this run of the loop visits them. *)
Fixpoint scanByPath (recs : list FileRec.t) (order : list (Z * ptr))
    (path : list byte) : exec (option ptr) :=
  match order with
  | [] => Done None
  | (_, p) :: order' =>
    match recs !! p with
    | None => Panic
    | Some rec =>
      if bool_decide (FileRec.Path rec = path) then Done (Some p)
      else scanByPath recs order' path
    end
  end.

(** The part of [GetFileByPath] after the implicit [ParsePaths]. *)
Definition lookupByPath (order : list (Z * ptr)) (idx : Index)
    (path : list byte) : exec (result ptr * Index) :=
  match NameHash idx path with
  | Err e => Done (Err (ErrHashForPath e), idx)
  | Ok hash =>
    match FilesByPathHash idx !! hash with
    | None =>
      match scanByPath (FileRecords idx) order path with
      | Panic => Panic
      | Done (Some p) => Done (Ok p, idx)
      | Done None => Done (Err (ErrFileNotFound hash), idx)
      end
    | Some p =>
      match FileRecords idx !! p with
      | None => Panic
      | Some fileRec =>
        if bool_decide (FileRec.Path fileRec = []) && negb (bool_decide (path = []))
        then Done (Ok p, setFileRecords idx
                     (<[p := FileRec.setPath fileRec path]> (FileRecords idx)))
        else Done (Ok p, idx)
      end
    end
  end.

Definition GetFileByPath (order : list (Z * ptr)) (idx : Index)
    (path : list byte) : exec (result ptr * Index) :=
  if negb (pathsParsed idx) then
    match ParsePaths idx with
    | Panic => Panic
    | Done (_, Some err, idx') => Done (Err (ErrImplicitParsePaths err), idx')
    | Done (_, None, idx') =>
      if negb (pathsParsed idx') then Done (Err ErrPathsNotParsed, idx')
      else lookupByPath order idx' path
    end
  else lookupByPath order idx path.

End Package.

(** Header fields that the 60 bytes can hold. *)
Definition headerInRange (h : BundleHeader) : Prop :=
  in_int32 (UncompressedSize h) /\ in_int32 (CompressedSize h) /\
  in_int32 (HeadSize h) /\ in_int32 (Compressor h) /\
  in_int32 (Unknown1 h) /\
  - 2 ^ 63 <= UncompressedSizeLong h < 2 ^ 63 /\
  - 2 ^ 63 <= CompressedSizeLong h < 2 ^ 63 /\
  in_int32 (ChunkCount h) /\ in_int32 (ChunkSize h) /\
  in_int32 (Unknown3 h) /\ in_int32 (Unknown4 h) /\
  in_int32 (Unknown5 h) /\ in_int32 (Unknown6 h).

(** ** Bundles with compressor NONE

    The layout [TestBundle_ReadFull_OodleNone] writes: the header, the
    table of per-chunk sizes, then the chunks themselves. *)

Definition chunkLengths (chunks : list (list byte)) : list Z :=
  map (fun c => Z.of_nat (length c)) chunks.

Definition totalLength (chunks : list (list byte)) : Z :=
  Z.of_nat (length (concat chunks)).

Definition noneHeader (chunkSize : Z) (chunks : list (list byte))
  : BundleHeader :=
  {| UncompressedSize := totalLength chunks;
     CompressedSize := totalLength chunks;
     HeadSize := 48 + 4 * Z.of_nat (length chunks);
     Compressor := OodleCompressorNone;
     Unknown1 := 1;
     UncompressedSizeLong := totalLength chunks;
     CompressedSizeLong := totalLength chunks;
     ChunkCount := Z.of_nat (length chunks);
     ChunkSize := chunkSize;
     Unknown3 := 0; Unknown4 := 0; Unknown5 := 0; Unknown6 := 0 |}.

Definition putInt32s (zs : list Z) : list byte := flat_map putInt32 zs.

Definition noneBundleFile (chunkSize : Z) (chunks : list (list byte))
  : list byte :=
  putHeader (noneHeader chunkSize chunks)
  ++ putInt32s (chunkLengths chunks) ++ concat chunks.

(** A chunk sequence a bundle can hold: every chunk but the last has
    length [chunkSize], and the sizes fit the header's fields and the
    chunk-count limit. *)
Definition laidOut (chunkSize : Z) (chunks : list (list byte)) : Prop :=
  in_int32 chunkSize /\
  Z.of_nat (length chunks) <= 1000000 /\
  totalLength chunks < 2 ^ 31 /\
  forall (i : nat) (c : list byte),
    chunks !! i = Some c -> (S i < length chunks)%nat ->
    Z.of_nat (length c) = chunkSize.

(** ** Further functions of the package *)

(** [Bundle.Close]: the file is released and the field set to nil unless
    the bundle was opened with [leaveOpen]. The error that the operating
    system may report for the close is not modelled. *)
Definition Close (b : Bundle) : Bundle :=
  match File b with
  | Some _ =>
      if negb (leaveOpen b)
      then mkBundle None (Header b) (CompressedChunkSizes b) (Record_ b)
                    (leaveOpen b) (cachedContent b)
      else b
  | None => b
  end.

(** *** OpenIndex *)

(** The errors of [OpenIndex], one per [fmt.Errorf] of the function. *)
Inductive indexError : Type :=
  | ErrOpenMainBundle (cause : error)
  | ErrReadIndexContent (cause : error)
  | ErrReadBundleCount
  | ErrInvalidBundleCount (n : Z)
  | ErrReadPathLength (i : Z)
  | ErrInvalidPathLength (len i : Z)
  | ErrReadBundlePath (i : Z)
  | ErrReadBundleSize (i : Z)
  | ErrReadFileCount
  | ErrInvalidFileCount (n : Z)
  | ErrReadPathHash (i : Z)
  | ErrReadBundleIndex (i : Z)
  | ErrInvalidBundleIndex (v i : Z)
  | ErrReadFileOffset (i : Z)
  | ErrReadFileSize (i : Z)
  | ErrReadDirectoryCount
  | ErrInvalidDirectoryCount (n : Z)
  | ErrReadDirectoryRecord (i : Z).

Inductive parsed (A : Type) : Type :=
  | Parsed (a : A)
  | Rejected (e : indexError).
Arguments Parsed {A} a.
Arguments Rejected {A} e.

(** [binary.Read(reader, binary.LittleEndian, &v)] for an [int32] and a
    [uint64] on a [bytes.Reader] with the unread bytes [r]: the value
    and the bytes left, or [None] when too few bytes remain. *)
Definition readInt32 (r : list byte) : option (Z * list byte) :=
  if (length r <? 4)%nat then None else Some (getInt32 r 0, drop 4 r).

Definition readUint64 (r : list byte) : option (Z * list byte) :=
  if (length r <? 8)%nat then None else Some (leUint (take 8 r), drop 8 r).

(** [strings.HasPrefix]. *)
Definition hasPrefix (s prefix : list byte) : bool :=
  bool_decide (take (length prefix) s = prefix).

(** The loop over the bundle records. [bundles] holds the records
    created so far (the source fills a slice allocated beforehand, from
    index 0 up), [custom] the indices of those whose path starts with
    ["LibGGPK3/"]. *)
Fixpoint readBundleRecords (todo : nat) (i : Z) (r : list byte)
    (bundles : list BundleRec.t) (custom : list nat)
  : parsed (list byte * list BundleRec.t * list nat) :=
  match todo with
  | O => Parsed (r, bundles, custom)
  | S todo' =>
    match readInt32 r with
    | None => Rejected (ErrReadPathLength i)
    | Some (pathLength, r) =>
      if (pathLength <? 0) || (1024 <? pathLength)
      then Rejected (ErrInvalidPathLength pathLength i)
      else if (length r <? Z.to_nat pathLength)%nat
      then Rejected (ErrReadBundlePath i)
      else
        let path := take (Z.to_nat pathLength) r in
        let r := drop (Z.to_nat pathLength) r in
        match readInt32 r with
        | None => Rejected (ErrReadBundleSize i)
        | Some (uncompressedSizeVal, r) =>
          let record := BundleRec.mk path uncompressedSizeVal i [] in
          let custom :=
            if hasPrefix path (go "LibGGPK3/")
            then custom ++ [length bundles] else custom in
          readBundleRecords todo' (i + 1) r (bundles ++ [record]) custom
        end
    end
  end.

Definition addFile (p : ptr) (b : BundleRec.t) : BundleRec.t :=
  BundleRec.mk (BundleRec.Path b) (BundleRec.UncompressedSize b)
               (BundleRec.BundleIndex b) (BundleRec.Files b ++ [p]).

(** The loop over the file records: each one is a new object in the
    store, entered in the map under its hash (replacing an earlier
    entry with the same hash) and appended to its bundle's [Files]. *)
Fixpoint readFileRecords (todo : nat) (i bundleCount : Z) (r : list byte)
    (bundles : list BundleRec.t) (store : list FileRec.t) (m : gmap Z ptr)
  : parsed (list byte * list BundleRec.t * list FileRec.t * gmap Z ptr) :=
  match todo with
  | O => Parsed (r, bundles, store, m)
  | S todo' =>
    match readUint64 r with
    | None => Rejected (ErrReadPathHash i)
    | Some (pathHash, r) =>
      match readInt32 r with
      | None => Rejected (ErrReadBundleIndex i)
      | Some (bundleIdxVal, r) =>
        if (bundleIdxVal <? 0) || (bundleCount <=? bundleIdxVal)
        then Rejected (ErrInvalidBundleIndex bundleIdxVal i)
        else
          match readInt32 r with
          | None => Rejected (ErrReadFileOffset i)
          | Some (offsetVal, r) =>
            match readInt32 r with
            | None => Rejected (ErrReadFileSize i)
            | Some (sizeVal, r) =>
              let p := length store in
              let fileRec :=
                FileRec.mk pathHash (Z.to_nat bundleIdxVal) offsetVal sizeVal
                           [] in
              readFileRecords todo' (i + 1) bundleCount r
                (alter (addFile p) (Z.to_nat bundleIdxVal) bundles)
                (store ++ [fileRec]) (<[pathHash := p]> m)
            end
          end
      end
    end
  end.

(** The loop over the directory records, 20 bytes each. *)
Fixpoint readDirectoryRecords (todo : nat) (i : Z) (r : list byte)
    (dirs : list DirRec.t) : parsed (list byte * list DirRec.t) :=
  match todo with
  | O => Parsed (r, dirs)
  | S todo' =>
    if (length r <? 20)%nat then Rejected (ErrReadDirectoryRecord i)
    else
      let d := DirRec.mk (leUint (take 8 r)) (getInt32 r 8) (getInt32 r 12)
                         (getInt32 r 16) in
      readDirectoryRecords todo' (i + 1) (drop 20 r) (dirs ++ [d])
  end.

(** The part of [OpenIndex] that parses the content of the main index
    bundle. The result is the index and its [customBundles]. The final
    position checks of the source cannot fail and what is left of the
    reader becomes [DirectoryBundleData]. Running out of memory on the
    three [make] calls is not modelled. *)
Definition parseIndex (indexData : list byte) : parsed (Index * list nat) :=
  match readInt32 indexData with
  | None => Rejected ErrReadBundleCount
  | Some (bundleCount, r) =>
    if bundleCount <? 0 then Rejected (ErrInvalidBundleCount bundleCount)
    else
    match readBundleRecords (Z.to_nat bundleCount) 0 r [] [] with
    | Rejected e => Rejected e
    | Parsed (r, bundles, custom) =>
      match readInt32 r with
      | None => Rejected ErrReadFileCount
      | Some (fileCount, r) =>
        if fileCount <? 0 then Rejected (ErrInvalidFileCount fileCount)
        else
        match readFileRecords (Z.to_nat fileCount) 0 bundleCount r bundles
                [] ∅ with
        | Rejected e => Rejected e
        | Parsed (r, bundles, store, m) =>
          match readInt32 r with
          | None => Rejected ErrReadDirectoryCount
          | Some (directoryCount, r) =>
            if directoryCount <? 0
            then Rejected (ErrInvalidDirectoryCount directoryCount)
            else
            match readDirectoryRecords (Z.to_nat directoryCount) 0 r [] with
            | Rejected e => Rejected e
            | Parsed (r, dirs) =>
                Parsed (mkIndex bundles store m dirs (Some r) false, custom)
            end
          end
        end
      end
    end
  end.

Section PackageIndex.

Context `{External}.

(** [OpenIndex]: open the main index bundle, read it in full, parse it.
    The bundle factory is only stored by the source and is left out. *)
Definition OpenIndex (opened : option (list byte))
  : exec (parsed (Index * list nat)) :=
  match OpenBundleFile opened None false with
  | (Err e, _) => Done (Rejected (ErrOpenMainBundle e))
  | (Ok mainIndexBundle, _) =>
    match ReadFull mainIndexBundle with
    | Panic => Panic
    | Done (Err e, _) => Done (Rejected (ErrReadIndexContent e))
    | Done (Ok indexData, _) => Done (parseIndex indexData)
    end
  end.

End PackageIndex.

(** The shape [OpenIndex] gives an index: map entries point to records
    with that hash, every record has an empty path, a map entry for its
    hash and a place in the [Files] of the bundle it names, and every
    bundle record carries its own position and lists only records that
    name it. *)
Definition indexConsistent (idx : Index) : Prop :=
  (forall k p, FilesByPathHash idx !! k = Some p ->
     exists rec, FileRecords idx !! p = Some rec /\ FileRec.PathHash rec = k)
  /\
  (forall p rec, FileRecords idx !! p = Some rec ->
     FileRec.Path rec = [] /\
     is_Some (FilesByPathHash idx !! FileRec.PathHash rec) /\
     exists b, Bundles idx !! FileRec.BundleRecord rec = Some b /\
               p ∈ BundleRec.Files b)
  /\
  (forall i b, Bundles idx !! i = Some b ->
     BundleRec.BundleIndex b = Z.of_nat i /\
     forall p, p ∈ BundleRec.Files b ->
       exists rec, FileRecords idx !! p = Some rec /\
                   FileRec.BundleRecord rec = i).

(** What [ParsePaths] and [GetFileByPath] never write in a file
    record: everything but its [Path]. *)
Definition recordKey (r : FileRec.t) : Z * nat * Z * Z :=
  (FileRec.PathHash r, FileRec.BundleRecord r, FileRec.Offset r,
   FileRec.Size r).

(** *** Writing an index

    The content of a main index bundle as [createMockIndexBundleContent]
    of the package's tests writes it: the bundle table, the file table,
    the directory table, then the dictionary bytes. *)

Definition putUint64 (z : Z) : list byte := leBytes 8 z.

Definition putBundleRecord (b : list byte * Z) : list byte :=
  putInt32 (Z.of_nat (length b.1)) ++ b.1 ++ putInt32 b.2.

(** A file entry is (path hash, bundle index, offset, size). *)
Definition putFileRecord (f : Z * Z * Z * Z) : list byte :=
  putUint64 f.1.1.1 ++ putInt32 f.1.1.2 ++ putInt32 f.1.2 ++ putInt32 f.2.

Definition putDirRecord (d : DirRec.t) : list byte :=
  putUint64 (DirRec.PathHash d) ++ putInt32 (DirRec.Offset d)
  ++ putInt32 (DirRec.Size d) ++ putInt32 (DirRec.RecursiveSize d).

Definition putIndexContent (bs : list (list byte * Z))
    (fs : list (Z * Z * Z * Z)) (ds : list DirRec.t) (data : list byte)
  : list byte :=
  putInt32 (Z.of_nat (length bs)) ++ flat_map putBundleRecord bs
  ++ putInt32 (Z.of_nat (length fs)) ++ flat_map putFileRecord fs
  ++ putInt32 (Z.of_nat (length ds)) ++ flat_map putDirRecord ds
  ++ data.

(** Tables whose entries fit the format: paths of at most 1024 bytes,
    integers within their types, bundle indices within the bundle
    table, fewer than 2^31 entries per table. *)
Definition tablesInRange (bs : list (list byte * Z))
    (fs : list (Z * Z * Z * Z)) (ds : list DirRec.t) : Prop :=
  Z.of_nat (length bs) < 2 ^ 31 /\
  Z.of_nat (length fs) < 2 ^ 31 /\
  Z.of_nat (length ds) < 2 ^ 31 /\
  Forall (fun b => Z.of_nat (length b.1) <= 1024 /\ in_int32 b.2) bs /\
  Forall (fun f => in_u64 f.1.1.1 /\ 0 <= f.1.1.2 < Z.of_nat (length bs) /\
                   in_int32 f.1.2 /\ in_int32 f.2) fs /\
  Forall (fun d => in_u64 (DirRec.PathHash d) /\ in_int32 (DirRec.Offset d)
                   /\ in_int32 (DirRec.Size d)
                   /\ in_int32 (DirRec.RecursiveSize d)) ds.

Definition bundleEntry (b : BundleRec.t) : list byte * Z :=
  (BundleRec.Path b, BundleRec.UncompressedSize b).

Definition fileEntry (r : FileRec.t) : Z * Z * Z * Z :=
  (FileRec.PathHash r, Z.of_nat (FileRec.BundleRecord r), FileRec.Offset r,
   FileRec.Size r).

(** *** Index.ReadFileData and the bundle factory *)

Inductive dataError : Type :=
  | ErrFileRecordNil
  | ErrRecordOrBundleNil
  | ErrFactoryNotSet
  | ErrFactory (cause : error)
  | ErrGetDataBundle (cause : dataError)
  | ErrBundleRead (cause : error).

Inductive fetched (A : Type) : Type :=
  | Data (a : A)
  | NoData (e : dataError).
Arguments Data {A} a.
Arguments NoData {A} e.

Definition setBundles (idx : Index) (bundles : list BundleRec.t) : Index :=
  mkIndex bundles (FileRecords idx) (FilesByPathHash idx)
          (Directories idx) (DirectoryBundleData idx) (pathsParsed idx).

Section DataBundles.

Context `{External}.

(** [BundleFileFactory.GetBundle] of the factory the index holds ([None]
    for a nil factory). An implementation receives the bundle record by
    pointer and may change it: it returns the record afterwards. *)
Variable bundleFactory : option (BundleRec.t -> result Bundle * BundleRec.t).

(** [GetBundleForFileRecord]. The file record is passed as the record
    pointed to ([None] for nil); its [BundleRecord] is nil when it names
    no element of [Bundles]. *)
Definition GetBundleForFileRecord (idx : Index) (fileRec : option FileRec.t)
  : fetched Bundle * Index :=
  match fileRec with
  | None => (NoData ErrRecordOrBundleNil, idx)
  | Some rec =>
    match Bundles idx !! FileRec.BundleRecord rec with
    | None => (NoData ErrRecordOrBundleNil, idx)
    | Some record =>
      match bundleFactory with
      | None => (NoData ErrFactoryNotSet, idx)
      | Some GetBundle =>
        let '(r, record) := GetBundle record in
        let idx := setBundles idx
                     (<[FileRec.BundleRecord rec := record]> (Bundles idx)) in
        match r with
        | Ok b => (Data b, idx)
        | Err e => (NoData (ErrFactory e), idx)
        end
      end
    end
  end.

(** [ReadFileData]. The deferred [Close] acts on the data bundle only,
    which is dropped when the function returns. *)
Definition ReadFileData (idx : Index) (fileRec : option FileRec.t)
  : exec (fetched (list byte) * Index) :=
  match fileRec with
  | None => Done (NoData ErrFileRecordNil, idx)
  | Some rec =>
    match GetBundleForFileRecord idx fileRec with
    | (NoData e, idx) => Done (NoData (ErrGetDataBundle e), idx)
    | (Data dataBundle, idx) =>
      match ReadAt dataBundle (FileRec.Offset rec) (FileRec.Size rec) with
      | Panic => Panic
      | Done (Err e, _) => Done (NoData (ErrBundleRead e), idx)
      | Done (Ok data, _) => Done (Data data, idx)
      end
    end
  end.

End DataBundles.

(** [DriveBundleFactory.GetBundle]. [disk] is [os.Open] on the file
    system and [join] is [filepath.Join]; the record's unexported
    [bundleFilePath] is not modelled. *)
Definition DriveBundleFactory_GetBundle
    (disk : list byte -> option (list byte))
    (join : list byte -> list byte -> list byte)
    (basePath : list byte) (record : BundleRec.t)
  : result Bundle * BundleRec.t :=
  let bundleFileName := BundleRec.Path record ++ go ".bundle.bin" in
  let fullPath := join basePath bundleFileName in
  match OpenBundleFile (disk fullPath) (Some record) false with
  | (r, Some record) => (r, record)
  | (r, None) => (r, record)
  end.

(** *** The file tree (records.go) and Index.BuildTree *)

(** [*FileNode] and [*DirectoryNode] behind the [TreeNode] interface. A
    directory owns the nodes in its [ChildrenVal]; the [ParentVal] back
    pointers are left out: the parent of a node is the directory that
    holds it. [RecordVal] points into the index's file records. *)
#[warnings="-register-all"]
Inductive TreeNode : Type :=
  | FileNode (NameVal : list byte) (RecordVal : ptr)
  | DirectoryNode (NameVal PathVal : list byte) (ChildrenVal : list TreeNode).

Definition GetName (n : TreeNode) : list byte :=
  match n with
  | FileNode name _ => name
  | DirectoryNode name _ _ => name
  end.

Definition IsDirectory (n : TreeNode) : bool :=
  match n with
  | FileNode _ _ => false
  | DirectoryNode _ _ _ => true
  end.

Definition ChildrenVal (n : TreeNode) : list TreeNode :=
  match n with
  | FileNode _ _ => []
  | DirectoryNode _ _ children => children
  end.

Definition PathVal (n : TreeNode) : list byte :=
  match n with
  | FileNode _ _ => []
  | DirectoryNode _ path _ => path
  end.

(** [GetPath]. [parent] is the node's [ParentVal] ([None] for nil), a
    directory node, whose own [GetPath] is its [PathVal]. *)
Definition GetPath (recs : list FileRec.t) (parent : option TreeNode)
    (n : TreeNode) : list byte :=
  match n with
  | DirectoryNode _ path _ => path
  | FileNode name record =>
      let fallback :=
        match parent with
        | None => name
        | Some parentNode =>
            if bool_decide (PathVal parentNode = []) then name
            else PathVal parentNode ++ go "/" ++ name
        end in
      match recs !! record with
      | Some rec =>
          if bool_decide (FileRec.Path rec = []) then fallback
          else FileRec.Path rec
      | None => fallback
      end
  end.

Definition AddChild (children : list TreeNode) (child : TreeNode)
  : list TreeNode :=
  children ++ [child].

(** [FindChildDirectory]: the first child that is a directory of that
    name, given by its position in [ChildrenVal]. *)
Fixpoint FindChildDirectory (children : list TreeNode) (name : list byte)
  : option nat :=
  match children with
  | [] => None
  | child :: rest =>
      if IsDirectory child && bool_decide (GetName child = name)
      then Some 0%nat
      else S <$> FindChildDirectory rest name
  end.

(** [strings.Split(s, "/")]. *)
Fixpoint strings_Split (s : list byte) : list (list byte) :=
  match s with
  | [] => [[]]
  | c :: s' =>
      if bool_decide (c = x2f) then [] :: strings_Split s'
      else match strings_Split s' with
           | w :: ws => (c :: w) :: ws
           | [] => [[c]]
           end
  end.

(** A change made through a pointer to a directory node. *)
Definition onChildren (f : list TreeNode -> list TreeNode) (n : TreeNode)
  : TreeNode :=
  match n with
  | DirectoryNode name path children => DirectoryNode name path (f children)
  | FileNode _ _ => n
  end.

(** The inner loop of [BuildTree] over [pathComponents[:len-1]] from
    component [i] on, followed by [currentNode.AddChild(fileNode)];
    [children] are the children of [currentNode]. *)
Fixpoint placeFile (components : list (list byte)) (i : nat)
    (currentPath : list byte) (fileNode : TreeNode)
    (children : list TreeNode) : list TreeNode :=
  match components with
  | [] => AddChild children fileNode
  | componentName :: rest =>
      let currentPath :=
        (if (0 <? i)%nat then currentPath ++ go "/" else currentPath)
        ++ componentName in
      match FindChildDirectory children componentName with
      | Some k =>
          alter (onChildren (placeFile rest (S i) currentPath fileNode))
                k children
      | None =>
          AddChild children
            (DirectoryNode componentName currentPath
               (placeFile rest (S i) currentPath fileNode []))
      end
  end.

Inductive treeError : Type :=
  | ErrTreeNeedsPaths
  | ErrTreeFileWithoutPath (hash : Z).

Inductive built (A : Type) : Type :=
  | Built (a : A)
  | NotBuilt (e : treeError).
Arguments Built {A} a.
Arguments NotBuilt {A} e.

(** The first loop of [BuildTree], over the map in the order [order]. *)
Fixpoint collectFileRecords (recs : list FileRec.t) (ignoreNullPath : bool)
    (order : list (Z * ptr)) (allFileRecords : list ptr)
  : exec (built (list ptr)) :=
  match order with
  | [] => Done (Built allFileRecords)
  | (_, fr) :: order' =>
    match recs !! fr with
    | None => Panic
    | Some rec =>
      if bool_decide (FileRec.Path rec = []) && negb ignoreNullPath
      then Done (NotBuilt (ErrTreeFileWithoutPath (FileRec.PathHash rec)))
      else
        collectFileRecords recs ignoreNullPath order'
          (if negb (bool_decide (FileRec.Path rec = []))
           then allFileRecords ++ [fr] else allFileRecords)
    end
  end.

(** The second loop of [BuildTree]; [rootChildren] are the children of
    [root]. [strings.Split] returns at least one component, so that
    [pathComponents[len(pathComponents)-1]] exists. *)
Fixpoint addFileNodes (recs : list FileRec.t) (allFileRecords : list ptr)
    (rootChildren : list TreeNode) : exec (list TreeNode) :=
  match allFileRecords with
  | [] => Done rootChildren
  | fileRecord :: rest =>
    match recs !! fileRecord with
    | None => Panic
    | Some rec =>
      if bool_decide (FileRec.Path rec = [])
      then addFileNodes recs rest rootChildren
      else
        let pathComponents := strings_Split (FileRec.Path rec) in
        let fileName := List.last pathComponents [] in
        let fileNode := FileNode fileName fileRecord in
        addFileNodes recs rest
          (placeFile (removelast pathComponents) 0 [] fileNode rootChildren)
    end
  end.

(** [BuildTree]. The copy of the root that the source stores in
    [idx.RootNode] is not modelled; the root is returned. *)
Definition BuildTree (order : list (Z * ptr)) (idx : Index)
    (ignoreNullPath : bool) : exec (built TreeNode) :=
  if negb (pathsParsed idx) && negb ignoreNullPath
  then Done (NotBuilt ErrTreeNeedsPaths)
  else
    match collectFileRecords (FileRecords idx) ignoreNullPath order [] with
    | Panic => Panic
    | Done (NotBuilt e) => Done (NotBuilt e)
    | Done (Built allFileRecords) =>
      match addFileNodes (FileRecords idx) allFileRecords [] with
      | Panic => Panic
      | Done children => Done (Built (DirectoryNode [] [] children))
      end
    end.

(** [strings.Join(elems, "/")], and the directory that is reached from a
    node by [FindChildDirectory] along a list of names: the reading of a
    tree by path that the properties below are stated with. *)
Fixpoint strings_Join (elems : list (list byte)) : list byte :=
  match elems with
  | [] => []
  | e :: rest =>
      match rest with
      | [] => e
      | _ :: _ => e ++ go "/" ++ strings_Join rest
      end
  end.

Fixpoint walk (names : list (list byte)) (dir : TreeNode)
  : option TreeNode :=
  match names with
  | [] => Some dir
  | name :: rest =>
      match FindChildDirectory (ChildrenVal dir) name with
      | Some k =>
          match ChildrenVal dir !! k with
          | Some child => walk rest child
          | None => None
          end
      | None => None
      end
  end.

(** The records of the file nodes of a tree. *)
Fixpoint recordsOf (n : TreeNode) : list ptr :=
  match n with
  | FileNode _ record => [record]
  | DirectoryNode _ _ children => flat_map recordsOf children
  end.

(** A record with a path, as the first loop of [BuildTree] selects it. *)
Definition hasPath (recs : list FileRec.t) (p : ptr) : bool :=
  match recs !! p with
  | Some rec => negb (bool_decide (FileRec.Path rec = []))
  | None => false
  end.

(** Every directory that can be reached from [dir], which itself lies at
    [pre], carries the joined names of the way to it as its path. *)
Definition labelled (pre : list (list byte)) (dir : TreeNode) : Prop :=
  forall (cs : list (list byte)) (d : TreeNode),
    cs <> [] -> walk cs dir = Some d ->
    PathVal d = strings_Join (pre ++ cs).

(** No directory has two child directories of one name. *)
Definition dirNames (children : list TreeNode) : list (list byte) :=
  GetName <$> filter (fun c => IsDirectory c = true) children.

#[warnings="-register-all"]
Inductive uniqueDirs : TreeNode -> Prop :=
  | unique_file (name : list byte) (record : ptr) :
      uniqueDirs (FileNode name record)
  | unique_dir (name path : list byte) (children : list TreeNode) :
      NoDup (dirNames children) ->
      Forall uniqueDirs children ->
      uniqueDirs (DirectoryNode name path children).

(** *** OpenBundledGGPK (package bundledggpk) *)

Inductive ggpkError : Type :=
  | ErrIndexNil
  | ErrPathInBundleEmpty
  | ErrParseBundlePaths (cause : error)
  | ErrGGPKNotFound
  | ErrReadGGPKData (cause : dataError)
  | ErrGGPKNoContent
  | ErrParseGGPK.

Inductive unpacked (A : Type) : Type :=
  | Unpacked (a : A)
  | NotUnpacked (e : ggpkError).
Arguments Unpacked {A} a.
Arguments NotUnpacked {A} e.

Section BundledGGPK.

Context `{External}.

(** [ggpk.OpenFromReader] of the package [ggpk], applied to a reader over
    the bytes and to their number; [None] when it returns an error. *)
Variable GGPKFile : Type.
Variable OpenFromReader : list byte -> Z -> option GGPKFile.

Variable bundleFactory : option (BundleRec.t -> result Bundle * BundleRec.t).

(** [OpenBundledGGPK]; [order] is the order in which its loop visits the
    map. The index is returned as the call leaves it ([None] for nil). *)
Definition OpenBundledGGPK (order : list (Z * ptr)) (idx : option Index)
    (pathInBundle : list byte) : exec (unpacked GGPKFile * option Index) :=
  match idx with
  | None => Done (NotUnpacked ErrIndexNil, None)
  | Some idx =>
    if bool_decide (pathInBundle = [])
    then Done (NotUnpacked ErrPathInBundleEmpty, Some idx)
    else
    match (if negb (pathsParsed idx) then ParsePaths idx
           else Done (0, None, idx)) with
    | Panic => Panic
    | Done (_, Some err, idx) =>
        Done (NotUnpacked (ErrParseBundlePaths err), Some idx)
    | Done (_, None, idx) =>
      match scanByPath (FileRecords idx) order pathInBundle with
      | Panic => Panic
      | Done None => Done (NotUnpacked ErrGGPKNotFound, Some idx)
      | Done (Some ggpkFileRecord) =>
        match ReadFileData bundleFactory idx
                (FileRecords idx !! ggpkFileRecord) with
        | Panic => Panic
        | Done (NoData e, idx) =>
            Done (NotUnpacked (ErrReadGGPKData e), Some idx)
        | Done (Data ggpkFileBytes, idx) =>
          if (length ggpkFileBytes =? 0)%nat
          then Done (NotUnpacked ErrGGPKNoContent, Some idx)
          else
            let fileSize := Z.of_nat (length ggpkFileBytes) in
            match OpenFromReader ggpkFileBytes fileSize with
            | None => Done (NotUnpacked ErrParseGGPK, Some idx)
            | Some parsedGGPK => Done (Unpacked parsedGGPK, Some idx)
            end
        end
      end
    end
  end.

End BundledGGPK.

(** *** Invariants that the properties are stated with *)

Section Invariants.

Context `{External}.

(** Every non-empty [Path] in the store hashes to a key under which the
    map holds that very record. Records without a path (the state after
    [OpenIndex]) satisfy it trivially. *)
Definition pathsResolve (idx : Index) (recs : list FileRec.t) : Prop :=
  forall (p : ptr) (rec : FileRec.t),
    recs !! p = Some rec -> FileRec.Path rec <> [] ->
    exists h, NameHash idx (FileRec.Path rec) = Ok h /\
              FilesByPathHash idx !! h = Some p.

Definition flowResolves (idx : Index) (r : exec (flow pathState)) : Prop :=
  match r with
  | Done (Continue st') | Done (Return st' _) => pathsResolve idx (records st')
  | Panic => True
  end.

End Invariants.

(** The invariant of the file-record loop. *)
Definition filesInv (bundles : list BundleRec.t) (store : list FileRec.t)
    (m : gmap Z ptr) : Prop :=
  indexConsistent (mkIndex bundles store m [] None false).

(** ** Example data *)

(** Stand-ins for the external routines: identity for the non-ASCII
    lowering, and an Oodle library that is not available. *)
#[global] Instance stubs : External :=
  {| unicode_ToLower := fun s => s;
     oodle_Decompress := fun _ _ => None |}.

(** The two-chunk bundle of [TestBundle_ReadFull_OodleNone]: 100 bytes
    ['A'], then 50 bytes ['B'], chunk size 100. *)
Definition scenarioChunks : list (list byte) :=
  [replicate 100 x41; replicate 50 x42].

Definition scenarioFile : list byte := noneBundleFile 100 scenarioChunks.

Definition scenarioBundle : Bundle :=
  mkBundle (Some scenarioFile) (noneHeader 100 scenarioChunks) [100; 50]
           None false None.

Definition setHeadSize (h : BundleHeader) (v : Z) : BundleHeader :=
  mkBundleHeader (UncompressedSize h) (CompressedSize h) v (Compressor h)
    (Unknown1 h) (UncompressedSizeLong h) (CompressedSizeLong h)
    (ChunkCount h) (ChunkSize h) (Unknown3 h) (Unknown4 h) (Unknown5 h)
    (Unknown6 h).

Definition setUncompressedSize (h : BundleHeader) (v : Z) : BundleHeader :=
  mkBundleHeader v (CompressedSize h) (HeadSize h) (Compressor h)
    (Unknown1 h) (UncompressedSizeLong h) (CompressedSizeLong h)
    (ChunkCount h) (ChunkSize h) (Unknown3 h) (Unknown4 h) (Unknown5 h)
    (Unknown6 h).

Definition setChunkCount (h : BundleHeader) (v : Z) : BundleHeader :=
  mkBundleHeader (UncompressedSize h) (CompressedSize h) (HeadSize h)
    (Compressor h) (Unknown1 h) (UncompressedSizeLong h)
    (CompressedSizeLong h) v (ChunkSize h) (Unknown3 h) (Unknown4 h)
    (Unknown5 h) (Unknown6 h).

(** The same file with [head_size] changed to 47. *)
Definition badHeadSizeFile : list byte :=
  putHeader (setHeadSize (noneHeader 100 scenarioChunks) 47)
  ++ putInt32s [100; 50] ++ concat scenarioChunks.

(** ... with [uncompressed_size] changed to -1. *)
Definition negativeSizeFile : list byte :=
  putHeader (setUncompressedSize (noneHeader 100 scenarioChunks) (-1))
  ++ putInt32s [100; 50] ++ concat scenarioChunks.

(** ... and with [chunk_count] changed to -1 and to 1000001. *)
Definition negativeCountFile : list byte :=
  putHeader (setChunkCount (noneHeader 100 scenarioChunks) (-1))
  ++ putInt32s [100; 50] ++ concat scenarioChunks.

Definition hugeCountFile : list byte :=
  putHeader (setChunkCount (noneHeader 100 scenarioChunks) 1000001)
  ++ putInt32s [100; 50] ++ concat scenarioChunks.

(** A bundle of one empty chunk whose stored chunk size was changed
    from 0 to 5. *)
Definition emptyChunkTampered : Bundle :=
  mkBundle (Some (putHeader (noneHeader 100 [[]]) ++ putInt32 5
                  ++ go "hello"))
           (noneHeader 100 [[]]) [5] None false None.

(** An index that selects the FNV hash, as the package's test builds it,
    and one that selects the Murmur hash. *)
Definition idxFnv : Index :=
  mkIndex [] [] ∅ [DirRec.mk fnvMagic 0 0 0] None false.

Definition idxMurmur : Index :=
  mkIndex [] [] ∅ [DirRec.mk murmurMagic 0 0 0] None false.

(** A path dictionary with one base segment ["dir/"], the leaf
    ["file.txt"] under it, and a leaf ["nope"] without a prefix; and an
    index whose only file record carries the FNV hash of
    ["dir/file.txt"]. *)
Definition sampleDictionary : list byte :=
  putInt32 0 ++ putInt32 1 ++ go "dir/" ++ [x00]
  ++ putInt32 0 ++ putInt32 1 ++ go "file.txt" ++ [x00]
  ++ putInt32 2 ++ go "nope" ++ [x00].

Definition sampleHash : Z := 5219888318296694383.

Definition indexWith (magic : Z) (dictionary : list byte) : Index :=
  mkIndex [BundleRec.mk (go "Bundle0") 1000 0 [0%nat]]
          [FileRec.mk sampleHash 0 0 50 []]
          {[ sampleHash := 0%nat ]}
          [DirRec.mk magic 0 (Z.of_nat (length dictionary)) 0]
          (Some dictionary) false.

Definition sampleIndex : Index := indexWith fnvMagic sampleDictionary.



(** An index after [ParsePaths], with a second record whose path does
    not hash to the key it is stored under. *)
Definition parsedIndex : Index :=
  mkIndex [BundleRec.mk (go "Bundle0") 1000 0 [0%nat; 1%nat]]
          [FileRec.mk sampleHash 0 0 50 (go "dir/file.txt");
           FileRec.mk 42 0 50 10 (go "Other.txt")]
          {[ sampleHash := 0%nat; 42 := 1%nat ]}
          [DirRec.mk fnvMagic 0 (Z.of_nat (length sampleDictionary)) 0]
          (Some sampleDictionary) true.

(** Every pointer stored in [FilesByPathHash] points to a record (none
    is nil), as in every index that [OpenIndex] builds. *)
Definition wfIndex (idx : Index) : Prop :=
  map_Forall (fun _ p => is_Some (FileRecords idx !! p)) (FilesByPathHash idx).

(** The index content of [TestOpenIndex_Structure]: two bundles, three
    files in each, one directory record and ten dictionary bytes, in a
    one-chunk bundle with compressor NONE whose [head_size] is 48. *)
Definition mockIndexContent : list byte :=
  putIndexContent
    [(go "Bundle0", 1000); (go "Bundle1", 2000)]
    [(0x1000000000000000, 0, 0, 50); (0x1000000000000001, 0, 100, 50);
     (0x1000000000000002, 0, 200, 50); (0x1000000000000003, 1, 0, 50);
     (0x1000000000000004, 1, 100, 50); (0x1000000000000005, 1, 200, 50)]
    [DirRec.mk 0x2000000000000000 0 10 20]
    (replicate 10 x00).

Definition mockIndexFile : list byte :=
  putHeader (setHeadSize (noneHeader 262144 [mockIndexContent]) 48)
  ++ putInt32s [Z.of_nat (length mockIndexContent)] ++ mockIndexContent.

(** A disk that holds the two-chunk bundle as [/data/Bundle0.bundle.bin],
    and an index whose only file record names bytes 90 to 110 of it. *)
Definition dataDisk (p : list byte) : option (list byte) :=
  if bool_decide (p = go "/data/Bundle0.bundle.bin")
  then Some scenarioFile else None.

Definition dataJoin (a b : list byte) : list byte := a ++ go "/" ++ b.

Definition dataRecord : FileRec.t :=
  FileRec.mk 0x1000000000000000 0 90 20 [].

Definition dataIndex : Index :=
  mkIndex [BundleRec.mk (go "Bundle0") 1000 0 [0%nat]] [dataRecord]
          {[ 0x1000000000000000 := 0%nat ]} [] (Some []) false.

(** Indexes on which [NameHash] fails: one whose only directory record
    carries the discriminator 7 and an empty window, one without
    directory records, and the parsed index above under the
    discriminator 7. *)
Definition unknownEmptyIndex : Index :=
  mkIndex [BundleRec.mk (go "Bundle0") 1000 0 [0%nat]]
          [FileRec.mk sampleHash 0 0 50 []]
          {[ sampleHash := 0%nat ]}
          [DirRec.mk 7 0 0 0]
          (Some sampleDictionary) false.

Definition noDirectoriesIndex : Index :=
  mkIndex [BundleRec.mk (go "Bundle0") 1000 0 [0%nat]]
          [FileRec.mk sampleHash 0 0 50 []]
          {[ sampleHash := 0%nat ]}
          []
          (Some sampleDictionary) false.

Definition unknownParsedIndex : Index :=
  mkIndex (Bundles parsedIndex) (FileRecords parsedIndex)
          (FilesByPathHash parsedIndex)
          [DirRec.mk 7 0 (Z.of_nat (length sampleDictionary)) 0]
          (DirectoryBundleData parsedIndex) true.


(** * Properties *)

(** ** Machine integers and bytes *)

Lemma wrap32_id z : in_int32 z -> wrap32 z = z.
Proof.
  unfold in_int32, wrap32. intros Hz.
  rewrite Z.mod_small by lia. lia.
Qed.

Lemma wrap32_range z : in_int32 (wrap32 z).
Proof.
  unfold in_int32, wrap32.
  pose proof (Z.mod_pos_bound (z + 2 ^ 31) (2 ^ 32) ltac:(lia)). lia.
Qed.

Lemma wrap64_id z : - 2 ^ 63 <= z < 2 ^ 63 -> wrap64 z = z.
Proof.
  unfold wrap64. intros Hz.
  rewrite Z.mod_small by lia. lia.
Qed.

Lemma byteZ_range b : 0 <= byteZ b < 256.
Proof.
  unfold byteZ. pose proof (Byte.to_N_bounded b). lia.
Qed.

Lemma byte_of_Z_byteZ b : byte_of_Z (byteZ b) = b.
Proof.
  unfold byte_of_Z. rewrite Z.mod_small by apply byteZ_range.
  unfold byteZ. rewrite N2Z.id. now rewrite Byte.of_to_N.
Qed.

Lemma byteZ_byte_of_Z z : 0 <= z < 256 -> byteZ (byte_of_Z z) = z.
Proof.
  intros Hz. unfold byte_of_Z. rewrite Z.mod_small by lia.
  destruct (Byte.of_N (Z.to_N z)) as [b|] eqn:E.
  - apply Byte.to_of_N in E. unfold byteZ. rewrite E. lia.
  - apply Byte.of_N_None_iff in E. lia.
Qed.

(** ** Trailing-slash trimming *)

Lemma endsWithSlash_snoc (p : list byte) (b : byte) :
  endsWithSlash (p ++ [b]) = bool_decide (b = x2f).
Proof.
  unfold endsWithSlash. rewrite length_app. simpl.
  replace (length p + 1 - 1)%nat with (length p) by lia.
  rewrite lookup_app_r by lia. rewrite Nat.sub_diag. simpl.
  rewrite bool_decide_eq_true_2 by lia. reflexivity.
Qed.

Lemma endsWithSlash_nil : endsWithSlash [] = false.
Proof. reflexivity. Qed.

Lemma trimSlash_snoc_slash (p : list byte) : trimSlash (p ++ [x2f]) = p.
Proof.
  unfold trimSlash. rewrite endsWithSlash_snoc.
  rewrite bool_decide_eq_true_2 by reflexivity.
  rewrite length_app. simpl.
  replace (length p + 1 - 1)%nat with (length p) by lia.
  now rewrite take_app_length.
Qed.

Lemma trimSlash_id (p : list byte) : endsWithSlash p = false -> trimSlash p = p.
Proof. unfold trimSlash. now intros ->. Qed.

Lemma trimSlash_spec (s : list byte) : trimSlash s = stripOneTrailingSlash s.
Proof.
  destruct s as [|b0 s0] using rev_ind.
  - reflexivity.
  - unfold trimSlash, stripOneTrailingSlash.
    rewrite endsWithSlash_snoc, reverse_snoc.
    destruct (bool_decide (b0 = x2f)); [|reflexivity].
    rewrite reverse_involutive, length_app. simpl.
    replace (length s0 + 1 - 1)%nat with (length s0) by lia.
    now rewrite take_app_length.
Qed.

(** ** The custom FNV-1a-64 *)

Lemma asciiLower_byteZ (b : byte) :
  byteZ (asciiLower b) =
  if (0x41 <=? byteZ b) && (byteZ b <=? 0x5A)
  then (byteZ b + (0x61 - 0x41)) mod 256
  else byteZ b.
Proof.
  unfold asciiLower.
  destruct ((0x41 <=? byteZ b) && (byteZ b <=? 0x5A)) eqn:E; [|reflexivity].
  apply andb_true_iff in E as [H1 H2].
  apply Z.leb_le in H1, H2.
  rewrite byteZ_byte_of_Z by lia.
  rewrite Z.mod_small by lia. lia.
Qed.

Lemma fnvLoopBody_lower (h : Z) (b : byte) :
  fnvLoopBody h b = u64 (Z.lxor h (byteZ (asciiLower b)) * 0x100000001B3).
Proof. unfold fnvLoopBody. now rewrite asciiLower_byteZ. Qed.

Lemma fnv_loop_lower (data : list byte) (h : Z) :
  fold_left fnvLoopBody data h =
  fold_left (fun h b => u64 (Z.lxor h (byteZ b) * 0x100000001B3))
            (map asciiLower data) h.
Proof.
  revert h. induction data as [|b data IH]; intros h; simpl.
  - reflexivity.
  - rewrite IH. now rewrite fnvLoopBody_lower.
Qed.

(** C4. For every byte string, [fnv1a64Hash] equals the reference
    definition: strip at most one trailing slash, lowercase ASCII A-Z
    only, fold with standard FNV-1a-64 from the offset basis
    0xCBF29CE484222325 with prime 0x100000001B3, then xor-and-multiply
    twice more with the byte 0x2B. *)
Theorem fnv1a64Hash_refines_spec (utf8Name : list byte) :
  fnv1a64Hash utf8Name = customFnv1a64_spec utf8Name.
Proof.
  unfold fnv1a64Hash, customFnv1a64_spec, fnv1a64_standard, xorMulPlus.
  rewrite trimSlash_spec, fnv_loop_lower. reflexivity.
Qed.

(** ** Index.NameHash *)

Section NameHashProperties.

Context `{External}.

Lemma NameHash_murmur (idx : Index) (path : list byte) :
  usesMurmur idx ->
  NameHash idx path =
  Ok (fnv_New64_Sum64 (strings_ToLower (trimSlash path))).
Proof.
  unfold usesMurmur, NameHash. destruct (Directories idx) as [|d0 ds]; [easy|].
  intros ->. reflexivity.
Qed.

Lemma NameHash_fnv (idx : Index) (path : list byte) :
  usesFnv idx ->
  NameHash idx path = Ok (fnv1a64Hash (trimSlash path)).
Proof.
  unfold usesFnv, NameHash. destruct (Directories idx) as [|d0 ds]; [easy|].
  intros ->. reflexivity.
Qed.

Lemma NameHash_unrecognized (idx : Index) (path : list byte) :
  ~ recognized idx -> is_err (NameHash idx path).
Proof.
  unfold recognized, usesMurmur, usesFnv, NameHash.
  destruct (Directories idx) as [|d0 ds]; [easy|].
  intros Hn.
  destruct (Z.eqb_spec (DirRec.PathHash d0) murmurMagic); [tauto|].
  destruct (Z.eqb_spec (DirRec.PathHash d0) fnvMagic); [tauto|].
  exact I.
Qed.


(** C6, amended. Under a recognized discriminator, [NameHash p] and
    [NameHash (p + "/")] succeed with the same hash for every path [p]
    that does not itself end in a slash; under the FNV discriminator,
    where the hash function trims a second time, also for a path that
    ends in exactly one slash. *)
Theorem NameHash_trailing_slash (idx : Index) (p : list byte) :
  recognized idx ->
  endsWithSlash p = false \/
    (usesFnv idx /\ endsWithSlash (trimSlash p) = false) ->
  exists h, NameHash idx p = Ok h /\ NameHash idx (p ++ [x2f]) = Ok h.
Proof.
  intros Hrec [Hp|[Hf Hp]].
  - destruct Hrec as [Hm|Hf].
    + rewrite !NameHash_murmur by assumption.
      rewrite trimSlash_snoc_slash, trimSlash_id by assumption. eauto.
    + rewrite !NameHash_fnv by assumption.
      rewrite trimSlash_snoc_slash, trimSlash_id by assumption. eauto.
  - rewrite !NameHash_fnv by assumption.
    rewrite trimSlash_snoc_slash.
    exists (fnv1a64Hash p). split; [|reflexivity].
    f_equal. unfold fnv1a64Hash.
    now rewrite (trimSlash_id (trimSlash p)).
Qed.

End NameHashProperties.

Lemma NameHash_trailing_slash_witness :
  exists h, NameHash idxFnv (go "ROOT/SomethingElse/") = Ok h
            /\ NameHash idxFnv (go "ROOT/SomethingElse/" ++ [x2f]) = Ok h.
Proof.
  apply (NameHash_trailing_slash idxFnv (go "ROOT/SomethingElse/")).
  - right. reflexivity.
  - right. split; reflexivity.
Defined.

(** C6 as stated fails for a path that already ends in slashes: under
    the FNV discriminator ["a//"] hashes as ["a"] but ["a///"] as
    ["a/"]; under the Murmur discriminator ["a/"] hashes as ["a"] but
    ["a//"] as ["a/"]. *)
Lemma NameHash_trailing_slash_counterexample :
  (recognized idxFnv /\ go "a//" <> [] /\
   NameHash idxFnv (go "a//") = Ok 16586443074728968554 /\
   NameHash idxFnv (go "a//" ++ go "/") = Ok 8301811428947882471 /\
   NameHash idxFnv (go "a//") <> NameHash idxFnv (go "a//" ++ go "/")) /\
  (recognized idxMurmur /\ go "a/" <> [] /\
   NameHash idxMurmur (go "a/") = Ok 12638153115695167422 /\
   NameHash idxMurmur (go "a/" ++ go "/") = Ok 590647783936702453 /\
   NameHash idxMurmur (go "a/") <> NameHash idxMurmur (go "a/" ++ go "/")).
Proof.
  split.
  - split; [now right|]. repeat split; try discriminate; reflexivity.
  - split; [now left|]. repeat split; try discriminate; reflexivity.
Qed.

(** C1 at a Murmur-selecting index: [NameHash] returns the 64-bit FNV-1
    of the lowercased path, whatever the seed, and that is not the
    canonical MurmurHash64A with seed 0x1337B33F. *)
Lemma NameHash_murmur_is_fnv_placeholder :
  usesMurmur idxMurmur /\
  NameHash idxMurmur (go "Art/Models/Model.geo")
    = Ok (fnv_New64_Sum64 (go "art/models/model.geo")) /\
  NameHash idxMurmur (go "Art/Models/Model.geo") = Ok 5567969133719088482 /\
  MurmurHash64A_canonical (go "art/models/model.geo") 0x1337B33F
    = 7334791106943949221 /\
  NameHash idxMurmur (go "Art/Models/Model.geo")
    <> Ok (MurmurHash64A_canonical (go "art/models/model.geo") 0x1337B33F).
Proof.
  repeat split; try reflexivity.
  vm_compute. discriminate.
Qed.

(** ** Little-endian encoding and decoding *)

Lemma byteZ_byte_of_Z_mod (z : Z) : byteZ (byte_of_Z z) = z mod 256.
Proof.
  pose proof (Z.mod_pos_bound z 256 ltac:(lia)) as Hb.
  unfold byte_of_Z.
  destruct (Byte.of_N (Z.to_N (z mod 256))) as [b|] eqn:E.
  - apply Byte.to_of_N in E. unfold byteZ. rewrite E. lia.
  - apply Byte.of_N_None_iff in E. lia.
Qed.

Lemma leUint_leBytes (width : nat) (z : Z) :
  leUint (leBytes width z) = z mod 256 ^ Z.of_nat width.
Proof.
  revert z. induction width as [|w IH]; intros z.
  - simpl. now rewrite Z.mod_1_r.
  - cbn [leBytes leUint fold_right]. fold (leUint (leBytes w (z / 256))).
    rewrite IH, byteZ_byte_of_Z_mod.
    rewrite Nat2Z.inj_succ, Z.pow_succ_r by lia.
    rewrite Z.rem_mul_r by lia. reflexivity.
Qed.

Lemma length_leBytes (width : nat) (z : Z) : length (leBytes width z) = width.
Proof. revert z. induction width; intros; simpl; auto. Qed.

Lemma wrap32_mod (z : Z) : in_int32 z -> wrap32 (z mod 2 ^ 32) = z.
Proof.
  unfold in_int32, wrap32. intros Hz.
  rewrite Zplus_mod_idemp_l. rewrite Z.mod_small by lia. lia.
Qed.

Lemma wrap64_mod (z : Z) : - 2 ^ 63 <= z < 2 ^ 63 -> wrap64 (z mod 2 ^ 64) = z.
Proof.
  unfold wrap64. intros Hz.
  rewrite Zplus_mod_idemp_l. rewrite Z.mod_small by lia. lia.
Qed.

Lemma getInt32_putInt32 (z : Z) (rest : list byte) :
  in_int32 z -> getInt32 (putInt32 z ++ rest) 0 = z.
Proof.
  intros Hz. unfold getInt32, putInt32. rewrite drop_0.
  rewrite take_app_length' by reflexivity.
  rewrite leUint_leBytes. now apply wrap32_mod.
Qed.

Lemma getInt64_putInt64 (z : Z) (rest : list byte) :
  - 2 ^ 63 <= z < 2 ^ 63 -> getInt64 (putInt64 z ++ rest) 0 = z.
Proof.
  intros Hz. unfold getInt64, putInt64. rewrite drop_0.
  rewrite take_app_length' by reflexivity.
  rewrite leUint_leBytes. now apply wrap64_mod.
Qed.

Lemma getInt32_skip (a rest : list byte) (o : nat) :
  getInt32 (a ++ rest) (length a + o) = getInt32 rest o.
Proof. unfold getInt32. now rewrite drop_app_add. Qed.

Lemma getInt64_skip (a rest : list byte) (o : nat) :
  getInt64 (a ++ rest) (length a + o) = getInt64 rest o.
Proof. unfold getInt64. now rewrite drop_app_add. Qed.

Lemma getInt32s_putInt32s (zs : list Z) (rest : list byte) :
  Forall in_int32 zs ->
  getInt32s (length zs) (putInt32s zs ++ rest) = zs.
Proof.
  induction 1 as [|z zs Hz _ IH]; [reflexivity|].
  cbn [length getInt32s putInt32s flat_map]. rewrite <- app_assoc.
  rewrite getInt32_putInt32 by assumption. f_equal.
  rewrite drop_app_length' by reflexivity. exact IH.
Qed.

Lemma length_putInt32s (zs : list Z) :
  length (putInt32s zs) = (4 * length zs)%nat.
Proof.
  induction zs as [|z zs IH]; [reflexivity|].
  cbn [putInt32s flat_map]. fold (putInt32s zs).
  rewrite length_app, IH. unfold putInt32. rewrite length_leBytes.
  simpl. lia.
Qed.

Lemma length_putHeader (h : BundleHeader) : length (putHeader h) = 60%nat.
Proof. reflexivity. Qed.

Ltac decode_field :=
  repeat first
    [ rewrite (getInt32_skip (putInt32 _))
    | rewrite (getInt32_skip (putInt64 _))
    | rewrite (getInt64_skip (putInt32 _))
    | rewrite (getInt64_skip (putInt64 _)) ];
  first [ apply getInt32_putInt32 | apply getInt64_putInt64 ]; assumption.

Lemma getHeader_putHeader (h : BundleHeader) (rest : list byte) :
  headerInRange h -> getHeader (putHeader h ++ rest) = h.
Proof.
  intros (H1 & H2 & H3 & H4 & H5 & H6 & H7 & H8 & H9 & H10 & H11 & H12 & H13).
  destruct h. unfold getHeader, putHeader. cbn [UncompressedSize
    CompressedSize HeadSize Compressor Unknown1 UncompressedSizeLong
    CompressedSizeLong ChunkCount ChunkSize Unknown3 Unknown4 Unknown5
    Unknown6] in *.
  rewrite <- !app_assoc.
  f_equal; decode_field.
Qed.

(** ** Bundle.ReadFull *)

Lemma goSlice_ok (s : list byte) (low high : Z) :
  0 <= low <= high -> high <= Z.of_nat (length s) ->
  goSlice s low high
  = Done (take (Z.to_nat (high - low)) (drop (Z.to_nat low) s)).
Proof.
  intros [H1 H2] H3. unfold goSlice.
  destruct (Z.leb_spec 0 low); [|lia].
  destruct (Z.leb_spec low high); [|lia].
  destruct (Z.leb_spec high (Z.of_nat (length s))); [|lia].
  reflexivity.
Qed.

Lemma goSlice_panic (s : list byte) (low high : Z) :
  high < low -> goSlice s low high = Panic.
Proof.
  intros Hlt. unfold goSlice.
  destruct (Z.leb_spec low high); [lia|].
  now rewrite andb_false_r.
Qed.

Section ReadFullProperties.

Context `{External}.

(** The chunk loop body under compressor NONE, for a chunk whose target
    size [l] fits the output buffer: a stored size different from [l]
    is an error. *)
Lemma readChunk_none_mismatch h sizes f i st s l :
  Compressor h = OodleCompressorNone ->
  sizes !! Z.to_nat i = Some s ->
  uncompressedChunkTargetSize h i = l ->
  0 <= l -> 0 <= outputBufferOffset st ->
  outputBufferOffset st + l <= Z.of_nat (length (decompressedData st)) ->
  Z.of_nat (length (decompressedData st)) < 2 ^ 31 ->
  s <> l ->
  exists e, readChunk h sizes f i st = Done (Err e).
Proof.
  intros Hc Hs Ht Hl Ho Hfit Hlen Hne.
  unfold readChunk. rewrite Hs, Ht.
  destruct (Z.ltb_spec s 0); [eauto|].
  destruct (Z.ltb_spec l 0); [lia|].
  destruct (Z.eqb_spec l 0) as [->|Hl0]; simpl.
  - destruct (Z.eqb_spec s 0); [lia|]. simpl. eauto.
  - destruct (Z.eqb_spec s 0); simpl; [eauto|].
    destruct (seekRead f (currentChunkDataFileOffset st) s); [eauto|eauto|].
    rewrite !wrap32_id by (unfold in_int32; lia).
    destruct (Z.ltb_spec (Z.of_nat (length (decompressedData st)))
                (outputBufferOffset st + l)); [lia|].
    rewrite goSlice_ok by lia.
    rewrite Hc. simpl.
    destruct (Z.eqb_spec s l); [lia|]. simpl. eauto.
Qed.

(** ... and a stored size equal to [l] reads [l] bytes from the file and
    copies them to the output. *)
Lemma readChunk_none_match h sizes f i st l :
  Compressor h = OodleCompressorNone ->
  sizes !! Z.to_nat i = Some l ->
  uncompressedChunkTargetSize h i = l ->
  0 <= l -> 0 <= outputBufferOffset st ->
  outputBufferOffset st + l <= Z.of_nat (length (decompressedData st)) ->
  Z.of_nat (length (decompressedData st)) < 2 ^ 31 ->
  readChunk h sizes f i st =
  if l =? 0 then
    Done (Ok (mkChunkState (wrap64 (currentChunkDataFileOffset st + l))
                (outputBufferOffset st) (decompressedData st)))
  else
    match seekRead f (currentChunkDataFileOffset st) l with
    | SeekFailed => Done (Err (ErrSeekChunk i (currentChunkDataFileOffset st)))
    | ReadFailed => Done (Err (ErrReadChunk i l))
    | ReadOk c =>
        Done (Ok (mkChunkState (wrap64 (currentChunkDataFileOffset st + l))
                    (outputBufferOffset st + l)
                    (copyInto (decompressedData st) (outputBufferOffset st)
                              l c)))
    end.
Proof.
  intros Hc Hs Ht Hl Ho Hfit Hlen.
  unfold readChunk. rewrite Hs, Ht.
  destruct (Z.ltb_spec l 0); [lia|].
  destruct (Z.eqb_spec l 0) as [->|Hl0]; simpl; [reflexivity|].
  destruct (seekRead f (currentChunkDataFileOffset st) l); [reflexivity..|].
  rewrite !wrap32_id by (unfold in_int32; lia).
  destruct (Z.ltb_spec (Z.of_nat (length (decompressedData st)))
              (outputBufferOffset st + l)); [lia|].
  rewrite goSlice_ok by lia.
  rewrite Hc. simpl. rewrite Z.eqb_refl. simpl.
  do 4 f_equal. lia.
Qed.

End ReadFullProperties.

(** *** Laid-out chunk sequences *)

Lemma concat_length_uniform (cs : Z) (chunks : list (list byte)) :
  Forall (fun c => Z.of_nat (length c) = cs) chunks ->
  Z.of_nat (length (concat chunks)) = cs * Z.of_nat (length chunks).
Proof.
  induction 1 as [|c chunks Hc _ IH]; simpl; [lia|].
  rewrite length_app. lia.
Qed.

Lemma laidOut_prefix (cs : Z) (done rest : list (list byte)) (c : list byte) :
  laidOut cs (done ++ c :: rest) ->
  Forall (fun c => Z.of_nat (length c) = cs) done.
Proof.
  intros (_ & _ & _ & Hall). apply Forall_lookup. intros i x Hx.
  pose proof (lookup_lt_Some _ _ _ Hx) as Hlt.
  apply (Hall i x).
  - now rewrite lookup_app_l.
  - rewrite length_app. simpl. lia.
Qed.

Lemma laidOut_not_last (cs : Z) (done rest : list (list byte))
    (c c' : list byte) :
  laidOut cs (done ++ c :: c' :: rest) -> Z.of_nat (length c) = cs.
Proof.
  intros (_ & _ & _ & Hall). apply (Hall (length done) c).
  - rewrite lookup_app_r by lia. now rewrite Nat.sub_diag.
  - rewrite length_app. simpl. lia.
Qed.

Lemma totalLength_app (a b : list (list byte)) :
  totalLength (a ++ b) = totalLength a + totalLength b.
Proof.
  unfold totalLength. rewrite concat_app, length_app. lia.
Qed.

Lemma totalLength_cons (c : list byte) (b : list (list byte)) :
  totalLength (c :: b) = Z.of_nat (length c) + totalLength b.
Proof. unfold totalLength. simpl. rewrite length_app. lia. Qed.

Lemma totalLength_nonneg (a : list (list byte)) : 0 <= totalLength a.
Proof. unfold totalLength. lia. Qed.

(** The target size the loop computes for chunk number [length done] is
    the length of that chunk. *)
Lemma target_laidOut (cs : Z) (done rest : list (list byte)) (c : list byte) :
  laidOut cs (done ++ c :: rest) ->
  uncompressedChunkTargetSize (noneHeader cs (done ++ c :: rest))
    (Z.of_nat (length done)) = Z.of_nat (length c).
Proof.
  intros Hl.
  pose proof (laidOut_prefix _ _ _ _ Hl) as Hdone.
  pose proof (concat_length_uniform _ _ Hdone) as Hsum.
  destruct Hl as (Hcs & Hn & Htot & Hall).
  rewrite length_app in Hn. simpl in Hn.
  rewrite totalLength_app, totalLength_cons in Htot.
  pose proof (totalLength_nonneg rest). 
  unfold uncompressedChunkTargetSize, GetLastChunkUncompressedSize. simpl.
  rewrite length_app. simpl.
  rewrite (wrap32_id (Z.of_nat (length done + S (length rest)) - 1))
    by (unfold in_int32; lia).
  destruct rest as [|c' rest]; cbn [length] in *.
  - destruct (Z.eqb_spec (Z.of_nat (length done))
                (Z.of_nat (length done + 1) - 1)); [|lia].
    destruct (Z.eqb_spec (Z.of_nat (length done + 1)) 0); [lia|].
    replace (Z.of_nat (length done + 1) - 1) with (Z.of_nat (length done))
      by lia.
    rewrite <- Hsum. rewrite totalLength_app, totalLength_cons.
    unfold totalLength in *. simpl concat in *. cbn [length] in *.
    rewrite (wrap32_id (Z.of_nat (length (concat done))))
      by (unfold in_int32; lia).
    rewrite wrap32_id by (unfold in_int32; lia). lia.
  - destruct (Z.eqb_spec (Z.of_nat (length done))
                (Z.of_nat (length done + S (S (length rest))) - 1)).
    + lia.
    + symmetry. apply (Hall (length done) c).
      * rewrite lookup_app_r by lia. now rewrite Nat.sub_diag.
      * rewrite length_app. simpl. lia.
Qed.

Lemma chunkLengths_lookup (done rest : list (list byte)) (c : list byte) :
  chunkLengths (done ++ c :: rest) !! Z.to_nat (Z.of_nat (length done))
  = Some (Z.of_nat (length c)).
Proof.
  rewrite Nat2Z.id. unfold chunkLengths. rewrite list_lookup_fmap.
  rewrite lookup_app_r by lia. now rewrite Nat.sub_diag.
Qed.

Lemma seekRead_at (pre c post : list byte) :
  seekRead (pre ++ c ++ post) (Z.of_nat (length pre)) (Z.of_nat (length c))
  = ReadOk c.
Proof.
  unfold seekRead.
  destruct (Z.ltb_spec (Z.of_nat (length pre)) 0); [lia|].
  rewrite !Nat2Z.id, drop_app_length.
  destruct (Z.ltb_spec (Z.of_nat (length (c ++ post))) (Z.of_nat (length c)))
    as [Hlt|_].
  - rewrite length_app in Hlt. lia.
  - now rewrite take_app_length.
Qed.

Lemma copyInto_at (a c : list byte) (k : nat) :
  copyInto (a ++ replicate (length c + k) x00) (Z.of_nat (length a))
           (Z.of_nat (length c)) c
  = a ++ c ++ replicate k x00.
Proof.
  unfold copyInto. rewrite !Nat2Z.id.
  rewrite firstn_all, take_app_length.
  rewrite drop_app_ge by lia.
  replace (length a + length c - length a)%nat with (length c) by lia.
  rewrite replicate_add, drop_app_length'; [reflexivity|].
  now rewrite length_replicate.
Qed.

Section NoneBundles.

Context `{External}.

(** The loop invariant for a laid-out bundle: after the chunks [done],
    the output holds their concatenation followed by zeroes, and the
    remaining iterations complete it. *)
Lemma chunkLoop_none (cs : Z) (chunks : list (list byte))
    (pre post : list byte) :
  laidOut cs chunks ->
  Z.of_nat (length pre) = 60 + 4 * Z.of_nat (length chunks) ->
  forall (rest done : list (list byte)) (st : chunkState),
    chunks = done ++ rest ->
    currentChunkDataFileOffset st = Z.of_nat (length pre) + totalLength done ->
    outputBufferOffset st = totalLength done ->
    decompressedData st
      = concat done ++ replicate (length (concat rest)) x00 ->
    chunkLoop (noneHeader cs chunks) (chunkLengths chunks)
      (pre ++ concat chunks ++ post)
      (length rest) (Z.of_nat (length done)) st
    = Done (Ok (concat chunks)).
Proof.
  intros Hl Hpre rest.
  induction rest as [|c rest IH]; intros done st Heq Hfo Hoo Hdata.
  - simpl. rewrite Hdata, Heq. simpl. now rewrite !app_nil_r.
  - assert (Hbound : totalLength done + Z.of_nat (length c)
                     + totalLength rest < 2 ^ 31).
    { destruct Hl as (_ & _ & Htot & _). rewrite Heq in Htot.
      rewrite totalLength_app, totalLength_cons in Htot. lia. }
    assert (Hcount : Z.of_nat (length chunks) <= 1000000)
      by (destruct Hl as (_ & Hn & _); exact Hn).
    pose proof (totalLength_nonneg done) as Hd0.
    pose proof (totalLength_nonneg rest) as Hr0.
    cbn [chunkLoop length].
    rewrite (readChunk_none_match _ _ _ _ _ (Z.of_nat (length c))).
    + assert (Hstep : forall st',
        currentChunkDataFileOffset st'
          = Z.of_nat (length pre) + totalLength (done ++ [c]) ->
        outputBufferOffset st' = totalLength (done ++ [c]) ->
        decompressedData st'
          = concat (done ++ [c]) ++ replicate (length (concat rest)) x00 ->
        chunkLoop (noneHeader cs chunks) (chunkLengths chunks)
          (pre ++ concat chunks ++ post) (length rest)
          (Z.of_nat (length done) + 1) st' = Done (Ok (concat chunks))).
      { intros st' H1 H2 H3.
        replace (Z.of_nat (length done) + 1)
          with (Z.of_nat (length (done ++ [c])))
          by (rewrite length_app; simpl; lia).
        apply IH; [|assumption..].
        rewrite Heq, <- app_assoc. reflexivity. }
      assert (Htl : totalLength (done ++ [c])
                    = totalLength done + Z.of_nat (length c)).
      { rewrite totalLength_app, totalLength_cons. unfold totalLength.
        simpl. lia. }
      destruct (Z.eqb_spec (Z.of_nat (length c)) 0) as [Hz|Hnz].
      * assert (c = []) by (destruct c; [reflexivity|simpl in Hz; lia]).
        subst c. apply Hstep; cbn [currentChunkDataFileOffset
          outputBufferOffset decompressedData].
        -- rewrite wrap64_id by lia. lia.
        -- lia.
        -- rewrite Hdata. simpl. rewrite concat_app. simpl.
           now rewrite !app_nil_r.
      * assert (Hread :
          seekRead (pre ++ concat chunks ++ post)
            (Z.of_nat (length pre) + totalLength done) (Z.of_nat (length c))
          = ReadOk c).
        { replace (pre ++ concat chunks ++ post)
            with ((pre ++ concat done) ++ c ++ (concat rest ++ post)).
          2:{ rewrite Heq, concat_app. simpl. now rewrite <- !app_assoc. }
          replace (Z.of_nat (length pre) + totalLength done)
            with (Z.of_nat (length (pre ++ concat done))).
          2:{ rewrite length_app. unfold totalLength. lia. }
          apply seekRead_at. }
        rewrite Hfo, Hread.
        apply Hstep; cbn [currentChunkDataFileOffset
          outputBufferOffset decompressedData].
        -- rewrite wrap64_id by lia. lia.
        -- lia.
        -- rewrite Hdata, Hoo. unfold totalLength. simpl concat.
           rewrite length_app, copyInto_at.
           rewrite concat_app. simpl. now rewrite app_nil_r, <- app_assoc.
    + reflexivity.
    + rewrite Heq. apply chunkLengths_lookup.
    + rewrite Heq. apply target_laidOut. now rewrite <- Heq.
    + lia.
    + lia.
    + rewrite Hoo, Hdata, length_app, length_replicate. simpl concat.
      rewrite length_app. unfold totalLength. lia.
    + rewrite Hdata, length_app, length_replicate. simpl concat.
      rewrite length_app. unfold totalLength in *. lia.
Qed.

End NoneBundles.

Lemma length_copyInto (buf src : list byte) (off n : Z) :
  0 <= off -> 0 <= n -> off + n <= Z.of_nat (length buf) ->
  length (copyInto buf off n src) = length buf.
Proof.
  intros Ho Hn Hfit. unfold copyInto.
  rewrite !length_app, !length_take, length_drop. lia.
Qed.

Section NoneBundleReads.

Context `{External}.

(** With a size table that differs from the chunk lengths somewhere at
    or after chunk [length done], the loop ends in an error. *)
Lemma chunkLoop_none_mismatch (cs : Z) (chunks : list (list byte))
    (f : list byte) (sizes : list Z) :
  laidOut cs chunks ->
  length sizes = length chunks ->
  forall (rest done : list (list byte)) (st : chunkState),
    chunks = done ++ rest ->
    drop (length done) sizes <> chunkLengths rest ->
    outputBufferOffset st = totalLength done ->
    Z.of_nat (length (decompressedData st)) = totalLength chunks ->
    exists e,
      chunkLoop (noneHeader cs chunks) sizes f
        (length rest) (Z.of_nat (length done)) st = Done (Err e).
Proof.
  intros Hl Hlen rest.
  induction rest as [|c rest IH]; intros done st Heq Hne Hoo Hdata.
  - exfalso. apply Hne. rewrite drop_ge; [reflexivity|].
    rewrite Hlen, Heq, length_app. simpl. lia.
  - assert (Htot : totalLength chunks < 2 ^ 31)
      by (destruct Hl as (_ & _ & Htot & _); exact Htot).
    assert (Hsplit : totalLength chunks
              = totalLength done + Z.of_nat (length c) + totalLength rest).
    { rewrite Heq, totalLength_app, totalLength_cons. lia. }
    pose proof (totalLength_nonneg done) as Hd0.
    pose proof (totalLength_nonneg rest) as Hr0.
    assert (Hlt : (length done < length sizes)%nat).
    { rewrite Hlen, Heq, length_app. simpl. lia. }
    destruct (lookup_lt_is_Some_2 sizes (length done) Hlt) as [s Hs].
    assert (Hs' : sizes !! Z.to_nat (Z.of_nat (length done)) = Some s)
      by now rewrite Nat2Z.id.
    assert (Htarget : uncompressedChunkTargetSize (noneHeader cs chunks)
                        (Z.of_nat (length done)) = Z.of_nat (length c)).
    { rewrite Heq. apply target_laidOut. now rewrite <- Heq. }
    cbn [chunkLoop length].
    destruct (Z.eq_dec s (Z.of_nat (length c))) as [->|Hsne].
    + rewrite (readChunk_none_match _ _ _ _ _ (Z.of_nat (length c)));
        [|reflexivity|assumption|assumption|lia|lia|lia|lia].
      assert (Hnext : forall st',
        outputBufferOffset st' = totalLength (done ++ [c]) ->
        Z.of_nat (length (decompressedData st')) = totalLength chunks ->
        exists e,
          chunkLoop (noneHeader cs chunks) sizes f (length rest)
            (Z.of_nat (length done) + 1) st' = Done (Err e)).
      { intros st' H1 H2.
        replace (Z.of_nat (length done) + 1)
          with (Z.of_nat (length (done ++ [c])))
          by (rewrite length_app; simpl; lia).
        apply IH; [| |assumption..].
        - rewrite Heq, <- app_assoc. reflexivity.
        - rewrite length_app. simpl. intros Hd. apply Hne.
          rewrite (drop_S _ _ _ Hs). cbn [chunkLengths map]. f_equal.
          now rewrite Nat.add_1_r in Hd. }
      assert (Htl : totalLength (done ++ [c])
                    = totalLength done + Z.of_nat (length c)).
      { rewrite totalLength_app, totalLength_cons. unfold totalLength.
        simpl. lia. }
      destruct (Z.eqb_spec (Z.of_nat (length c)) 0).
      * apply Hnext; cbn [outputBufferOffset decompressedData]; lia.
      * destruct (seekRead f (currentChunkDataFileOffset st)
                    (Z.of_nat (length c))); [eauto|eauto|].
        apply Hnext; cbn [outputBufferOffset decompressedData]; [lia|].
        rewrite length_copyInto by lia. assumption.
    + destruct (readChunk_none_mismatch (noneHeader cs chunks) sizes f
                  (Z.of_nat (length done)) st s (Z.of_nat (length c)))
        as [e He]; [reflexivity|assumption|assumption|lia|lia|lia|lia|assumption|].
      rewrite He. eauto.
Qed.

(** [ReadFull] on a bundle whose header and size table describe the
    chunks and whose file holds them after the header and the table. *)
Lemma ReadFull_none_laidOut (cs : Z) (chunks : list (list byte))
    (pre post : list byte) (rec : option BundleRec.t) (lo : bool) :
  laidOut cs chunks ->
  Z.of_nat (length pre) = 60 + 4 * Z.of_nat (length chunks) ->
  let b := mkBundle (Some (pre ++ concat chunks ++ post))
             (noneHeader cs chunks) (chunkLengths chunks) rec lo None in
  ReadFull b
  = Done (Ok (concat chunks),
          if totalLength chunks =? 0 then b
          else setCachedContent b (concat chunks)).
Proof.
  intros Hl Hpre b.
  pose proof Hl as (Hcs & Hn & Htot & Hall).
  pose proof (totalLength_nonneg chunks) as H0.
  unfold ReadFull. cbn [File Header b UncompressedSize noneHeader ChunkCount
    cachedContent CompressedChunkSizes].
  destruct (Z.eqb_spec (totalLength chunks) 0) as [Hz|Hnz].
  - unfold totalLength in Hz.
    destruct (concat chunks); [reflexivity|simpl in Hz; lia].
  - destruct (Z.ltb_spec (totalLength chunks) 0); [lia|].
    destruct (Z.eqb_spec (Z.of_nat (length chunks)) 0) as [Hc0|Hc0].
    { exfalso. apply Hnz. destruct chunks; [reflexivity|simpl in Hc0; lia]. }
    cbn [andb].
    assert (Hlen : Z.of_nat (length (chunkLengths chunks))
                   = Z.of_nat (length chunks))
      by (unfold chunkLengths; now rewrite length_map).
    rewrite Hlen, Z.eqb_refl, andb_false_r.
    rewrite Nat2Z.id.
    rewrite (chunkLoop_none cs chunks pre post Hl Hpre chunks []);
      [reflexivity|reflexivity|..].
    + cbn [currentChunkDataFileOffset]. unfold BundleHeaderSize.
      rewrite (wrap32_id (Z.of_nat (length chunks) * 4))
        by (unfold in_int32; lia).
      rewrite wrap32_id by (unfold in_int32; lia).
      unfold totalLength. simpl. lia.
    + reflexivity.
    + cbn [decompressedData]. unfold totalLength. now rewrite Nat2Z.id.
Qed.

Lemma ReadFull_none_mismatch (cs : Z) (chunks : list (list byte))
    (sizes : list Z) (f : list byte) (rec : option BundleRec.t) (lo : bool) :
  laidOut cs chunks ->
  totalLength chunks <> 0 ->
  length sizes = length chunks ->
  sizes <> chunkLengths chunks ->
  let b := mkBundle (Some f) (noneHeader cs chunks) sizes rec lo None in
  exists e, ReadFull b = Done (Err e, b).
Proof.
  intros Hl Hnz Hlen Hne b.
  pose proof Hl as (Hcs & Hn & Htot & Hall).
  pose proof (totalLength_nonneg chunks) as H0.
  unfold ReadFull. cbn [File Header b UncompressedSize noneHeader ChunkCount
    cachedContent CompressedChunkSizes].
  destruct (Z.eqb_spec (totalLength chunks) 0); [lia|].
  destruct (Z.ltb_spec (totalLength chunks) 0); [lia|].
  destruct (Z.eqb_spec (Z.of_nat (length chunks)) 0) as [Hc0|Hc0].
  { exfalso. apply Hnz. destruct chunks; [reflexivity|simpl in Hc0; lia]. }
  cbn [andb]. rewrite Hlen, Z.eqb_refl, andb_false_r, Nat2Z.id.
  destruct (chunkLoop_none_mismatch cs chunks f sizes Hl Hlen chunks []
              (mkChunkState
                 (wrap32 (BundleHeaderSize
                          + wrap32 (Z.of_nat (length chunks) * 4)))
                 0 (replicate (Z.to_nat (totalLength chunks)) x00)))
    as [e He]; [reflexivity|assumption|reflexivity| |].
  - cbn [decompressedData]. rewrite length_replicate. lia.
  - change (Z.of_nat (@length (list byte) [])) with 0 in He.
    rewrite He. eauto.
Qed.

End NoneBundleReads.

(** ** OpenBundleFile *)

Lemma laidOut_headerInRange (cs : Z) (chunks : list (list byte)) :
  laidOut cs chunks -> headerInRange (noneHeader cs chunks).
Proof.
  intros (Hcs & Hn & Htot & _).
  pose proof (totalLength_nonneg chunks).
  unfold headerInRange, noneHeader, in_int32, OodleCompressorNone in *.
  cbn. lia.
Qed.

Lemma laidOut_lengths_in_range (cs : Z) (chunks : list (list byte)) :
  laidOut cs chunks -> Forall in_int32 (chunkLengths chunks).
Proof.
  intros (_ & _ & Htot & _).
  unfold chunkLengths. apply Forall_fmap, Forall_forall.
  intros c Hc. simpl. unfold in_int32.
  apply list_elem_of_split in Hc as (l1 & l2 & ->).
  rewrite totalLength_app, totalLength_cons in Htot.
  pose proof (totalLength_nonneg l1). pose proof (totalLength_nonneg l2).
  lia.
Qed.

(** Opening the file written for a laid-out chunk sequence yields the
    header and the size table that were written. *)
Lemma OpenBundleFile_noneBundleFile (cs : Z) (chunks : list (list byte))
    (rec : option BundleRec.t) (lo : bool) :
  laidOut cs chunks ->
  OpenBundleFile (Some (noneBundleFile cs chunks)) rec lo
  = (Ok (mkBundle (Some (noneBundleFile cs chunks)) (noneHeader cs chunks)
           (chunkLengths chunks) (syncRecord rec (noneHeader cs chunks))
           lo None),
     syncRecord rec (noneHeader cs chunks)).
Proof.
  intros Hl.
  pose proof Hl as (Hcs & Hn & Htot & _).
  unfold OpenBundleFile, noneBundleFile.
  change (Z.to_nat BundleHeaderSize) with 60%nat.
  destruct (Nat.ltb_spec
              (length (putHeader (noneHeader cs chunks)
                       ++ putInt32s (chunkLengths chunks) ++ concat chunks))
              60) as [Hshort|_].
  { rewrite length_app, length_putHeader in Hshort. lia. }
  rewrite take_app_length' by reflexivity.
  rewrite drop_app_length' by reflexivity.
  assert (Hh : getHeader (putHeader (noneHeader cs chunks))
               = noneHeader cs chunks).
  { rewrite <- (app_nil_r (putHeader _)).
    now apply getHeader_putHeader, laidOut_headerInRange. }
  cbv zeta. rewrite !Hh.
  cbn [ChunkCount noneHeader].
  destruct (Z.ltb_spec (Z.of_nat (length chunks)) 0); [lia|].
  destruct (Z.ltb_spec 1000000 (Z.of_nat (length chunks))); [lia|].
  rewrite Nat2Z.id.
  destruct (Nat.ltb_spec
              (length (putInt32s (chunkLengths chunks) ++ concat chunks))
              (4 * length chunks)) as [Hshort|_].
  { rewrite length_app, length_putInt32s in Hshort.
    unfold chunkLengths in Hshort. rewrite length_map in Hshort. lia. }
  rewrite andb_false_r.
  replace (length chunks) with (length (chunkLengths chunks)) at 1
    by (unfold chunkLengths; now rewrite length_map).
  rewrite getInt32s_putInt32s by now apply (laidOut_lengths_in_range cs).
  reflexivity.
Qed.

Section RoundTrip.

Context `{External}.

(** C3, amended in its second half. For a laid-out chunk sequence,
    opening the file written with compressor NONE and calling [ReadFull]
    returns exactly the concatenation of the chunks. If instead the
    stored size table differs from the chunk lengths at some chunk, and
    the header's uncompressed size is not zero, [ReadFull] returns an
    error and leaves the bundle as it was. *)
Theorem ReadFull_none_roundtrip (cs : Z) (chunks : list (list byte)) :
  laidOut cs chunks ->
  (exists b b',
     OpenBundleFile (Some (noneBundleFile cs chunks)) None false
       = (Ok b, None) /\
     ReadFull b = Done (Ok (concat chunks), b')) /\
  (forall (sizes : list Z) (f : list byte),
     totalLength chunks <> 0 ->
     length sizes = length chunks ->
     sizes <> chunkLengths chunks ->
     exists e,
       ReadFull (mkBundle (Some f) (noneHeader cs chunks) sizes None false
                   None)
       = Done (Err e,
               mkBundle (Some f) (noneHeader cs chunks) sizes None false
                 None)).
Proof.
  intros Hl. split.
  - rewrite OpenBundleFile_noneBundleFile by assumption.
    do 2 eexists. split; [reflexivity|].
    unfold noneBundleFile.
    rewrite (app_assoc (putHeader _)).
    rewrite <- (app_nil_r (concat chunks)) at 1.
    cbn [syncRecord].
    apply (ReadFull_none_laidOut cs chunks _ [] None false Hl).
    rewrite length_app, length_putHeader, length_putInt32s.
    unfold chunkLengths. rewrite length_map. lia.
  - intros sizes f Hnz Hlen Hne.
    now apply (ReadFull_none_mismatch cs chunks sizes f None false).
Qed.

End RoundTrip.

Lemma scenario_laidOut : laidOut 100 scenarioChunks.
Proof.
  unfold laidOut, in_int32. repeat split; try (vm_compute; congruence).
  intros [|[|i]] c Hc Hlt; simpl in *; try lia.
  now inversion Hc.
Qed.

Lemma ReadFull_none_roundtrip_witness :
  exists b b',
    OpenBundleFile (Some scenarioFile) None false = (Ok b, None) /\
    ReadFull b = Done (Ok (replicate 100 x41 ++ replicate 50 x42), b').
Proof.
  destruct (ReadFull_none_roundtrip 100 scenarioChunks scenario_laidOut)
    as [(b & b' & Hopen & Hread) _].
  exists b, b'. split; [exact Hopen|exact Hread].
Defined.

(** C3 as stated fails when the header's uncompressed size is zero: the
    stored size of the only chunk (5) differs from its target (0), yet
    [ReadFull] returns the empty content without an error. *)
Lemma ReadFull_none_mismatch_counterexample :
  Compressor (Header emptyChunkTampered) = OodleCompressorNone /\
  CompressedChunkSizes emptyChunkTampered = [5] /\
  uncompressedChunkTargetSize (Header emptyChunkTampered) 0 = 0 /\
  OpenBundleFile (File emptyChunkTampered) None false
    = (Ok emptyChunkTampered, None) /\
  ReadFull emptyChunkTampered = Done (Ok [], emptyChunkTampered).
Proof. repeat split; reflexivity. Qed.

(** C2, amended. [OpenBundleFile] rejects a chunk count below zero or
    above 1,000,000 from the header alone, whatever follows the header
    in the file. It does not look at [head_size] or at the sign of
    [uncompressed_size]: with a chunk count in range and the size table
    present the open succeeds with the header as read. A negative
    [uncompressed_size] is rejected later, by [ReadFull]. *)
Theorem OpenBundleFile_validation `{External} (f : list byte)
    (record : option BundleRec.t) (lo : bool) :
  (60 <= length f)%nat ->
  (ChunkCount (getHeader (take 60 f)) < 0 ->
   OpenBundleFile (Some f) record lo
   = (Err (ErrInvalidChunkCount (ChunkCount (getHeader (take 60 f)))),
      syncRecord record (getHeader (take 60 f)))) /\
  (1000000 < ChunkCount (getHeader (take 60 f)) ->
   OpenBundleFile (Some f) record lo
   = (Err (ErrUnreasonableChunkCount (ChunkCount (getHeader (take 60 f)))),
      syncRecord record (getHeader (take 60 f)))) /\
  (0 <= ChunkCount (getHeader (take 60 f)) <= 1000000 ->
   60 + 4 * ChunkCount (getHeader (take 60 f)) <= Z.of_nat (length f) ->
   exists b,
     OpenBundleFile (Some f) record lo
       = (Ok b, syncRecord record (getHeader (take 60 f))) /\
     Header b = getHeader (take 60 f) /\
     (UncompressedSize (Header b) < 0 ->
      ReadFull b
      = Done (Err (ErrNegativeUncompressedSize (UncompressedSize (Header b))),
              b))).
Proof.
  intros Hlen.
  unfold OpenBundleFile. change (Z.to_nat BundleHeaderSize) with 60%nat.
  destruct (Nat.ltb_spec (length f) 60) as [Hshort|_]; [lia|].
  cbv zeta. set (h := getHeader (take 60 f)).
  repeat split.
  - intros Hneg. destruct (Z.ltb_spec (ChunkCount h) 0); [reflexivity|lia].
  - intros Hbig. destruct (Z.ltb_spec (ChunkCount h) 0); [lia|].
    destruct (Z.ltb_spec 1000000 (ChunkCount h)); [reflexivity|lia].
  - intros [H0 H1] Hfit.
    destruct (Z.ltb_spec (ChunkCount h) 0); [lia|].
    destruct (Z.ltb_spec 1000000 (ChunkCount h)); [lia|].
    destruct (Nat.ltb_spec (length (drop 60 f)) (4 * Z.to_nat (ChunkCount h)))
      as [Hshort|_].
    { rewrite length_drop in Hshort. lia. }
    rewrite andb_false_r. eexists. split; [reflexivity|].
    split; [reflexivity|].
    cbn [Header]. intros Hneg. unfold ReadFull. cbn [File Header].
    destruct (Z.eqb_spec (UncompressedSize h) 0); [lia|].
    destruct (Z.ltb_spec (UncompressedSize h) 0); [reflexivity|lia].
Qed.

(** Closed goals about concrete data, decided by evaluation. *)
Ltac by_evaluation :=
  first
    [ apply Nat.leb_le; vm_compute; reflexivity
    | vm_compute; repeat split; first [reflexivity | discriminate] ].

Lemma OpenBundleFile_validation_witness :
  OpenBundleFile (Some negativeCountFile) None false
    = (Err (ErrInvalidChunkCount (-1)), None) /\
  OpenBundleFile (Some hugeCountFile) None false
    = (Err (ErrUnreasonableChunkCount 1000001), None) /\
  exists b,
    OpenBundleFile (Some negativeSizeFile) None false = (Ok b, None) /\
    ReadFull b = Done (Err (ErrNegativeUncompressedSize (-1)), b).
Proof.
  split; [|split].
  - apply (OpenBundleFile_validation negativeCountFile None false);
      by_evaluation.
  - apply (OpenBundleFile_validation hugeCountFile None false);
      by_evaluation.
  - destruct (OpenBundleFile_validation negativeSizeFile None false)
      as (_ & _ & Hok); [by_evaluation|].
    destruct Hok as (b & Hopen & Hh & Hread); [by_evaluation..|].
    exists b. split; [exact Hopen|].
    rewrite Hh in Hread. apply Hread. by_evaluation.
Defined.

(** C2 as stated fails: the two-chunk bundle with [head_size] set to 47
    opens, and so does the one with [uncompressed_size] set to -1. *)
Lemma OpenBundleFile_head_size_counterexample :
  (exists b,
     OpenBundleFile (Some badHeadSizeFile) None false = (Ok b, None) /\
     HeadSize (Header b) = 47 /\ ChunkCount (Header b) = 2 /\
     HeadSize (Header b) <> 48 + ChunkCount (Header b) * 4) /\
  (exists b,
     OpenBundleFile (Some negativeSizeFile) None false = (Ok b, None) /\
     UncompressedSize (Header b) = -1).
Proof.
  split; eexists; (split; [vm_compute; reflexivity|]);
    repeat split; vm_compute; congruence.
Qed.

(** ** Bundle.ReadAt *)

Lemma goSlice_Done_inv (s : list byte) (low high : Z) (r : list byte) :
  goSlice s low high = Done r ->
  0 <= low <= high /\ high <= Z.of_nat (length s) /\
  r = take (Z.to_nat (high - low)) (drop (Z.to_nat low) s).
Proof.
  unfold goSlice.
  destruct (Z.leb_spec 0 low); [|discriminate].
  destruct (Z.leb_spec low high); [|discriminate].
  destruct (Z.leb_spec high (Z.of_nat (length s))); [|discriminate].
  simpl. intros [= <-]. repeat split; lia.
Qed.

Section ReadAtProperties.

Context `{External}.

Lemma readChunk_preserves h sizes f i st st' :
  readChunk h sizes f i st = Done (Ok st') ->
  0 <= outputBufferOffset st <= Z.of_nat (length (decompressedData st)) ->
  length (decompressedData st') = length (decompressedData st) /\
  0 <= outputBufferOffset st' <= Z.of_nat (length (decompressedData st')).
Proof.
  intros Hr Hinv. unfold readChunk in Hr.
  repeat case_match; simplify_eq; cbn [outputBufferOffset decompressedData];
    try (split; [reflexivity|lia]);
    match goal with
    | Hs : goSlice _ _ _ = Done _ |- _ =>
        apply goSlice_Done_inv in Hs as (Hlow & Hhigh & _)
    end;
    (rewrite length_copyInto by lia; split; [reflexivity|lia]).
Qed.

Lemma chunkLoop_length h sizes f todo :
  forall i st d,
    chunkLoop h sizes f todo i st = Done (Ok d) ->
    0 <= outputBufferOffset st <= Z.of_nat (length (decompressedData st)) ->
    length d = length (decompressedData st).
Proof.
  induction todo as [|todo IH]; intros i st d Hloop Hinv.
  - simpl in Hloop. now inversion Hloop.
  - simpl in Hloop.
    destruct (readChunk h sizes f i st) as [[st'|e]|] eqn:Hstep;
      try discriminate.
    destruct (readChunk_preserves _ _ _ _ _ _ Hstep Hinv) as [Hlen Hinv'].
    rewrite <- Hlen. now apply (IH (i + 1) st').
Qed.

Lemma ReadFull_length (b b' : Bundle) (d : list byte) :
  cacheConsistent b ->
  ReadFull b = Done (Ok d, b') ->
  Z.of_nat (length d) = UncompressedSize (Header b) /\ cacheConsistent b'.
Proof.
  intros Hcache. unfold ReadFull.
  destruct (File b) as [f|]; [|discriminate].
  destruct (Z.eqb_spec (UncompressedSize (Header b)) 0) as [Hz|Hnz].
  { intros [= <- <-]. simpl. split; [lia|assumption]. }
  destruct (Z.ltb_spec (UncompressedSize (Header b)) 0); [discriminate|].
  destruct (cachedContent b) as [c|] eqn:Hc.
  { intros [= <- <-]. split; [now apply Hcache|].
    intros c' Hc'. apply Hcache. congruence. }
  destruct ((ChunkCount (Header b) =? 0) && (0 <? UncompressedSize (Header b)));
    [discriminate|].
  destruct ((0 <? ChunkCount (Header b))
            && negb (Z.of_nat (length (CompressedChunkSizes b))
                     =? ChunkCount (Header b))); [discriminate|].
  destruct (chunkLoop _ _ _ _ _ _) as [[data|e]|] eqn:Hloop; try discriminate.
  intros [= <- <-].
  apply chunkLoop_length in Hloop;
    cbn [outputBufferOffset decompressedData] in *; [|lia].
  rewrite length_replicate in Hloop.
  split; [lia|].
  intros c'. cbn. intros [= <-]. lia.
Qed.

(** Inside the bounds [ReadAt] is [ReadFull] followed by the slice. *)
Lemma ReadAt_in_bounds (b : Bundle) (offset size : Z) :
  File b <> None -> cacheConsistent b ->
  0 <= offset -> 0 < size ->
  offset + size <= UncompressedSize (Header b) ->
  UncompressedSize (Header b) < 2 ^ 31 ->
  ReadAt b offset size =
  match ReadFull b with
  | Panic => Panic
  | Done (Err e, b') => Done (Err e, b')
  | Done (Ok fullData, b') =>
      Done (Ok (take (Z.to_nat size) (drop (Z.to_nat offset) fullData)), b')
  end.
Proof.
  intros Hopen Hcache Ho Hs Hfit Hu. unfold ReadAt.
  destruct (File b) as [f|] eqn:Hf; [|congruence].
  destruct (Z.eqb_spec size 0); [lia|].
  destruct (Z.ltb_spec size 0); [lia|].
  rewrite wrap32_id by (unfold in_int32; lia).
  destruct (Z.ltb_spec offset 0); [lia|].
  destruct (Z.ltb_spec (UncompressedSize (Header b)) (offset + size)); [lia|].
  cbn [orb].
  destruct (ReadFull b) as [[[d|e] b']|] eqn:Hread; try reflexivity.
  destruct (ReadFull_length _ _ _ Hcache Hread) as [Hlen _].
  destruct (Z.ltb_spec (Z.of_nat (length d)) (offset + size)); [lia|].
  rewrite goSlice_ok by lia.
  replace (offset + size - offset) with size by lia. reflexivity.
Qed.

(** Outside the bounds, for a positive size whose sum with the offset
    still fits an [int32], [ReadAt] returns the bounds error. *)
Lemma ReadAt_out_of_bounds (b : Bundle) (offset size : Z) :
  File b <> None -> 0 < size -> in_int32 (offset + size) ->
  offset < 0 \/ UncompressedSize (Header b) < offset + size ->
  ReadAt b offset size
  = Done (Err (ErrReadOutOfBounds offset size (UncompressedSize (Header b))),
          b).
Proof.
  intros Hopen Hs Hsum Hout. unfold ReadAt.
  destruct (File b) as [f|] eqn:Hf; [|congruence].
  destruct (Z.eqb_spec size 0); [lia|].
  destruct (Z.ltb_spec size 0); [lia|].
  rewrite wrap32_id by assumption.
  destruct (Z.ltb_spec offset 0); [reflexivity|].
  destruct (Z.ltb_spec (UncompressedSize (Header b)) (offset + size));
    [reflexivity|lia].
Qed.

(** When the [int32] sum of offset and size wraps, the bounds test is
    passed with a negative end and, once [ReadFull] has succeeded, the
    slice expression panics. *)
Lemma ReadAt_wrapped_sum_panics (b b' : Bundle) (offset size : Z)
    (d : list byte) :
  0 <= offset < 2 ^ 31 -> 0 < size < 2 ^ 31 ->
  2 ^ 31 <= offset + size ->
  ReadFull b = Done (Ok d, b') ->
  ReadAt b offset size = Panic.
Proof.
  intros Ho Hs Hsum Hread.
  assert (Hwrap : wrap32 (offset + size) = offset + size - 2 ^ 32).
  { unfold wrap32.
    replace (offset + size + 2 ^ 31)
      with (offset + size - 2 ^ 31 + 1 * 2 ^ 32) by lia.
    rewrite Z.mod_add by lia. rewrite Z.mod_small by lia. lia. }
  assert (Hu : 0 <= UncompressedSize (Header b)).
  { unfold ReadFull in Hread. destruct (File b); [|discriminate].
    destruct (Z.eqb_spec (UncompressedSize (Header b)) 0); [lia|].
    destruct (Z.ltb_spec (UncompressedSize (Header b)) 0);
      [discriminate|lia]. }
  unfold ReadAt.
  destruct (File b) as [f|] eqn:Hf.
  2:{ unfold ReadFull in Hread. rewrite Hf in Hread. discriminate. }
  destruct (Z.eqb_spec size 0); [lia|].
  destruct (Z.ltb_spec size 0); [lia|].
  destruct (Z.ltb_spec offset 0); [lia|].
  rewrite Hwrap.
  destruct (Z.ltb_spec (UncompressedSize (Header b)) (offset + size - 2 ^ 32));
    [lia|].
  cbn [orb]. rewrite Hread.
  destruct (Z.ltb_spec (Z.of_nat (length d)) (offset + size - 2 ^ 32)); [lia|].
  rewrite goSlice_panic by lia. reflexivity.
Qed.

(** C10. On an open bundle [ReadAt] with size zero returns the empty
    slice without an error, for every offset: the zero-size case is
    decided before the bounds are looked at. *)
Theorem ReadAt_zero_size (b : Bundle) (offset : Z) :
  File b <> None -> ReadAt b offset 0 = Done (Ok [], b).
Proof.
  intros Hopen. unfold ReadAt.
  destruct (File b); [reflexivity|congruence].
Qed.

End ReadAtProperties.

Lemma ReadAt_zero_size_witness :
  ReadAt scenarioBundle (-5) 0 = Done (Ok [], scenarioBundle) /\
  ReadAt scenarioBundle 151 0 = Done (Ok [], scenarioBundle).
Proof.
  split.
  - apply (ReadAt_zero_size scenarioBundle (-5)). discriminate.
  - apply (ReadAt_zero_size scenarioBundle 151). discriminate.
Defined.

(** C5 at offset 2147483647 and size 1 on the two-chunk bundle (150
    bytes): the [int32] sum wraps to -2147483648, the bounds test lets
    it through, and slicing the content panics; no error is returned.
    The same bundle serves [ReadAt(90, 20)] across the chunk border. *)
Lemma ReadAt_offset_overflow_panics :
  OpenBundleFile (Some scenarioFile) None false = (Ok scenarioBundle, None) /\
  in_int32 2147483647 /\ in_int32 1 /\
  UncompressedSize (Header scenarioBundle) < 2147483647 + 1 /\
  wrap32 (2147483647 + 1) = -2147483648 /\
  ReadAt scenarioBundle 2147483647 1 = Panic /\
  (exists b',
     ReadAt scenarioBundle 90 20
     = Done (Ok (replicate 10 x41 ++ replicate 10 x42), b')).
Proof.
  repeat split; try by_evaluation.
  eexists. vm_compute. reflexivity.
Qed.

(** ** Index.ParsePaths *)

Lemma readNullTerminatedString_shorter (r buf seg rest : list byte) :
  readNullTerminatedString r buf = Ok (seg, rest) ->
  (length rest < length r)%nat.
Proof.
  revert buf. induction r as [|b r IH]; intros buf; simpl.
  - destruct (0 <? length buf)%nat; discriminate.
  - destruct (bool_decide (b = x00)).
    + intros [= _ <-]. lia.
    + destruct (2048 <? length (buf ++ [b]))%nat; [discriminate|].
      intros Hr. apply IH in Hr. lia.
Qed.

(** A segment that runs to the end of the block without a NUL byte is
    an error of [readNullTerminatedString]. *)
Lemma readNullTerminatedString_unterminated (r buf : list byte) :
  Forall (fun b => b <> x00) r ->
  is_err (readNullTerminatedString r buf).
Proof.
  intros Hr. revert buf. induction Hr as [|b r Hb _ IH]; intros buf; simpl.
  - now destruct (0 <? length buf)%nat.
  - rewrite bool_decide_eq_false_2 by assumption.
    destruct (2048 <? length (buf ++ [b]))%nat; [exact I|apply IH].
Qed.

Section ParsePathsProperties.

Context `{External}.

(** [length r] iterations are enough for the block loop: more fuel does
    not change its result. *)
Lemma blockLoop_fuel (idx : Index) (n : nat) :
  forall (r : list byte) (st : pathState) (fuel1 fuel2 : nat),
    (length r <= n)%nat -> (n <= fuel1)%nat -> (n <= fuel2)%nat ->
    blockLoop fuel1 idx r st = blockLoop fuel2 idx r st.
Proof.
  induction n as [|n IH]; intros r st fuel1 fuel2 Hr H1 H2.
  - assert (length r = 0)%nat as Hz by lia.
    destruct fuel1, fuel2; simpl; rewrite ?Hz; reflexivity.
  - destruct (Nat.ltb_spec (length r) 4) as [Hshort|Hlong].
    + destruct fuel1, fuel2; simpl;
        destruct (length r =? 0)%nat; try reflexivity;
        destruct (Nat.ltb_spec (length r) 4); try reflexivity; lia.
    + destruct fuel1 as [|fuel1]; [lia|]. destruct fuel2 as [|fuel2]; [lia|].
      assert (Hdrop : (length (drop 4 r) <= n)%nat)
        by (rewrite length_drop; lia).
      simpl.
      destruct (length r =? 0)%nat; [reflexivity|].
      destruct (Nat.ltb_spec (length r) 4); [reflexivity|].
      destruct (getInt32 r 0 =? 0).
      { apply IH; lia. }
      destruct (readNullTerminatedString (drop 4 r) []) as [[seg rest]|e]
        eqn:Hread; [|reflexivity].
      apply readNullTerminatedString_shorter in Hread.
      assert (Hrest : (length rest <= n)%nat) by lia.
      repeat case_match; try reflexivity; apply IH; lia.
Qed.




(** C7. After a [ParsePaths] call that returned without an error, a
    second call returns a failed count of 0 and no error and leaves the
    index, every file record's [Path] included, exactly as it was. *)
Theorem ParsePaths_idempotent (idx idx' : Index) (n : Z) :
  ParsePaths idx = Done (n, None, idx') ->
  ParsePaths idx' = Done (0, None, idx').
Proof.
  unfold ParsePaths at 1.
  destruct (pathsParsed idx) eqn:Hp.
  - intros [= _ <-]. unfold ParsePaths. now rewrite Hp.
  - destruct (DirectoryBundleData idx) as [dirData|]; [|discriminate].
    destruct (length (Directories idx) =? 0)%nat; [discriminate|].
    destruct (dirLoop _ _ _ _ _) as [[st|st e]|]; try discriminate.
    intros [= _ <-]. reflexivity.
Qed.

End ParsePathsProperties.

Lemma ParsePaths_idempotent_witness :
  exists idx',
    ParsePaths sampleIndex = Done (1, None, idx') /\
    (FileRec.Path <$> FileRecords idx') = [go "dir/file.txt"] /\
    ParsePaths idx' = Done (0, None, idx').
Proof.
  eexists. split; [vm_compute; reflexivity|]. split; [reflexivity|].
  apply (ParsePaths_idempotent sampleIndex _ 1). vm_compute. reflexivity.
Defined.

Section ParsePathsErrors.

Context `{External}.




End ParsePathsErrors.



(** ** Index.GetFileByPath *)

Lemma scanByPath_spec (recs : list FileRec.t) (order : list (Z * ptr))
    (path : list byte) :
  (forall k p, (k, p) ∈ order -> is_Some (recs !! p)) ->
  (exists k p rec,
     scanByPath recs order path = Done (Some p) /\ (k, p) ∈ order /\
     recs !! p = Some rec /\ FileRec.Path rec = path) \/
  (scanByPath recs order path = Done None /\
   forall k p rec, (k, p) ∈ order -> recs !! p = Some rec ->
                   FileRec.Path rec <> path).
Proof.
  induction order as [|[k p] order IH]; intros Hwf.
  - right. split; [reflexivity|]. intros k p rec Hin. inversion Hin.
  - simpl. destruct (Hwf k p) as [rec Hrec]; [left|].
    rewrite Hrec.
    destruct (bool_decide_reflect (FileRec.Path rec = path)) as [Heq|Hne].
    + left. exists k, p, rec. repeat split; [left|assumption..].
    + destruct IH as [(k' & p' & rec' & Hs & Hin & Hr & Hp)|[Hs Hall]].
      * intros k' p' Hin. apply (Hwf k' p'). now right.
      * left. exists k', p', rec'. repeat split; [assumption|now right|assumption..].
      * right. split; [assumption|].
        intros k' p' rec' Hin Hr.
        apply elem_of_cons in Hin as [[= -> ->]|Hin].
        -- congruence.
        -- eapply Hall; eassumption.
Qed.

Section GetFileByPathProperties.

Context `{External}.

(** C8, amended. On a parsed index without nil pointers, when
    [NameHash] fails for the query (no directory records, or a
    discriminator that is not recognized) [GetFileByPath] returns the
    hash error at once, without a lookup or a scan. When the hash can
    be computed it returns the record stored under [NameHash path] when
    there is one (filling in its empty [Path] with a non-empty query);
    otherwise it scans the map's records, in whatever order the map
    yields them, and returns one whose [Path] equals the query; and when
    no record has that path it returns the not-found error. *)
Theorem GetFileByPath_lookup (order : list (Z * ptr)) (idx : Index)
    (path : list byte) :
  pathsParsed idx = true ->
  wfIndex idx ->
  order ≡ₚ map_to_list (FilesByPathHash idx) ->
  (forall e, NameHash idx path = Err e ->
     GetFileByPath order idx path = Done (Err (ErrHashForPath e), idx)) /\
  (forall h, NameHash idx path = Ok h ->
     (forall p, FilesByPathHash idx !! h = Some p ->
        exists idx',
          GetFileByPath order idx path = Done (Ok p, idx') /\
          (idx' = idx \/
           exists rec,
             FileRecords idx !! p = Some rec /\ FileRec.Path rec = [] /\
             path <> [] /\
             idx' = setFileRecords idx
                      (<[p := FileRec.setPath rec path]> (FileRecords idx))))
     /\
     (FilesByPathHash idx !! h = None ->
        (exists k p rec,
           GetFileByPath order idx path = Done (Ok p, idx) /\
           FilesByPathHash idx !! k = Some p /\
           FileRecords idx !! p = Some rec /\ FileRec.Path rec = path) \/
        (GetFileByPath order idx path
           = Done (Err (ErrFileNotFound h), idx) /\
         forall k p rec,
           FilesByPathHash idx !! k = Some p ->
           FileRecords idx !! p = Some rec -> FileRec.Path rec <> path))).
Proof.
  intros Hparsed Hwf Hperm.
  unfold GetFileByPath, lookupByPath. rewrite Hparsed. cbn [negb].
  split.
  { intros e He. now rewrite He. }
  intros h Hhash. rewrite Hhash.
  split.
  - intros p Hp. rewrite Hp.
    destruct (Hwf h p Hp) as [rec Hrec]. rewrite Hrec.
    destruct (bool_decide_reflect (FileRec.Path rec = [])) as [He|He];
      destruct (bool_decide_reflect (path = [])) as [Hq|Hq]; cbn;
      eexists; (split; [reflexivity|]); eauto 10.
  - intros Hnone. rewrite Hnone.
    assert (Hin : forall k p,
              (k, p) ∈ order <-> FilesByPathHash idx !! k = Some p).
    { intros k p. rewrite Hperm. apply elem_of_map_to_list. }
    destruct (scanByPath_spec (FileRecords idx) order path)
      as [(k & p & rec & Hs & Hkp & Hrec & Hpath)|[Hs Hall]].
    + intros k p Hkp. apply Hin in Hkp. exact (Hwf k p Hkp).
    + left. exists k, p, rec. rewrite Hs. apply Hin in Hkp. auto.
    + right. rewrite Hs. split; [reflexivity|].
      intros k p rec Hkp. apply Hin in Hkp. eauto.
Qed.

End GetFileByPathProperties.

Lemma parsedIndex_wf : wfIndex parsedIndex.
Proof.
  unfold wfIndex. apply map_Forall_to_list, Forall_forall.
  intros [k p] Hin. vm_compute in Hin.
  apply elem_of_cons in Hin as [Heq|Hin].
  { inversion Heq; subst. eexists; reflexivity. }
  apply elem_of_cons in Hin as [Heq|Hin].
  { inversion Heq; subst. eexists; reflexivity. }
  inversion Hin.
Qed.

Lemma unknownParsedIndex_wf : wfIndex unknownParsedIndex.
Proof.
  unfold wfIndex, unknownParsedIndex. cbn [FilesByPathHash FileRecords].
  apply map_Forall_insert_2; [now eexists|].
  apply map_Forall_singleton. now eexists.
Qed.

Lemma GetFileByPath_lookup_witness :
  (exists idx',
     GetFileByPath (map_to_list (FilesByPathHash parsedIndex)) parsedIndex
       (go "Dir/File.txt/") = Done (Ok 0%nat, idx')) /\
  GetFileByPath (map_to_list (FilesByPathHash parsedIndex)) parsedIndex
    (go "Other.txt") = Done (Ok 1%nat, parsedIndex) /\
  GetFileByPath (map_to_list (FilesByPathHash parsedIndex)) parsedIndex
    (go "nope")
  = Done (Err (ErrFileNotFound 2449973707444368815), parsedIndex) /\
  GetFileByPath (map_to_list (FilesByPathHash unknownParsedIndex))
    unknownParsedIndex (go "Other.txt")
  = Done (Err (ErrHashForPath (ErrUnknownHashAlgorithm 7)),
          unknownParsedIndex).
Proof.
  split; [|split; [vm_compute; reflexivity|
                   split; [vm_compute; reflexivity|]]].
  - destruct (GetFileByPath_lookup
                (map_to_list (FilesByPathHash parsedIndex)) parsedIndex
                (go "Dir/File.txt/") eq_refl parsedIndex_wf (reflexivity _))
      as [_ Hok].
    destruct (Hok sampleHash) as [Hfound _]; [vm_compute; reflexivity|].
    destruct (Hfound 0%nat) as (idx' & Hget & _).
    + vm_compute. reflexivity.
    + exists idx'. exact Hget.
  - destruct (GetFileByPath_lookup
                (map_to_list (FilesByPathHash unknownParsedIndex))
                unknownParsedIndex (go "Other.txt") eq_refl
                unknownParsedIndex_wf (reflexivity _))
      as [Herr _].
    apply Herr. reflexivity.
Defined.

(** C8 as stated fails on a parsed index whose hash cannot be computed.
    An index whose only directory record carries the discriminator 7 and
    an empty window is parsed by [ParsePaths] without an error, and an
    index without directory records is marked as parsed with the
    missing-data error; on both, and on a parsed index that holds a
    record with the very path asked for, [GetFileByPath] returns the
    hash error: neither a record, nor the not-found error. The same
    query on the same records under the FNV discriminator is served by
    the scan. *)
Lemma GetFileByPath_hash_error_counterexample :
  (ParsePaths unknownEmptyIndex
     = Done (0, None, setPathsParsed unknownEmptyIndex) /\
   GetFileByPath (map_to_list (FilesByPathHash unknownEmptyIndex))
     (setPathsParsed unknownEmptyIndex) (go "dir/file.txt")
   = Done (Err (ErrHashForPath (ErrUnknownHashAlgorithm 7)),
           setPathsParsed unknownEmptyIndex)) /\
  (ParsePaths noDirectoriesIndex
     = Done (0, Some ErrDirectoryDataMissing,
             setPathsParsed noDirectoriesIndex) /\
   GetFileByPath (map_to_list (FilesByPathHash noDirectoriesIndex))
     (setPathsParsed noDirectoriesIndex) (go "dir/file.txt")
   = Done (Err (ErrHashForPath ErrDirectoriesNotLoaded),
           setPathsParsed noDirectoriesIndex)) /\
  (pathsParsed unknownParsedIndex = true /\
   FilesByPathHash unknownParsedIndex !! 42 = Some 1%nat /\
   FileRec.Path <$> FileRecords unknownParsedIndex !! 1%nat
     = Some (go "Other.txt") /\
   GetFileByPath (map_to_list (FilesByPathHash unknownParsedIndex))
     unknownParsedIndex (go "Other.txt")
   = Done (Err (ErrHashForPath (ErrUnknownHashAlgorithm 7)),
           unknownParsedIndex) /\
   GetFileByPath (map_to_list (FilesByPathHash parsedIndex)) parsedIndex
     (go "Other.txt") = Done (Ok 1%nat, parsedIndex)).
Proof. repeat split; vm_compute; reflexivity. Qed.

(** * Further properties *)

(** ** Bundle: close, cache, window reads *)

Section BundleUse.

Context `{External}.

(** X1. Once a bundle that was not opened with [leaveOpen] is closed,
    [ReadFull] and [ReadAt] fail with the bundle-closed error for every
    offset and size, size zero and an already cached content included,
    and the bundle stays as it is. *)
Theorem reads_after_Close (b : Bundle) :
  leaveOpen b = false ->
  ReadFull (Close b) = Done (Err ErrBundleClosed, Close b) /\
  forall offset size : Z,
    ReadAt (Close b) offset size = Done (Err ErrBundleClosed, Close b).
Proof.
  intros Hlo.
  assert (Hnil : File (Close b) = None).
  { unfold Close. destruct (File b) eqn:Hf; [|assumption].
    rewrite Hlo. reflexivity. }
  split.
  - unfold ReadFull. now rewrite Hnil.
  - intros offset size. unfold ReadAt. now rewrite Hnil.
Qed.

(** X2. [ReadFull] is memoized. A call that returns content for a
    header whose [uncompressed_size] is not zero leaves that content in
    the bundle's cache; and after any call that returned content the
    next call returns the same content and leaves the bundle unchanged
    without reading the file or the chunk-size table: it does so
    whatever bytes the file holds by then and whatever the table is. *)
Theorem ReadFull_memoized (b b' : Bundle) (d : list byte) :
  ReadFull b = Done (Ok d, b') ->
  (UncompressedSize (Header b) <> 0 -> cachedContent b' = Some d) /\
  ReadFull b' = Done (Ok d, b') /\
  forall (f' : list byte) (sizes' : list Z),
    let b'' := mkBundle (Some f') (Header b') sizes' (Record_ b')
                 (leaveOpen b') (cachedContent b') in
    ReadFull b'' = Done (Ok d, b'').
Proof.
  intros Hread.
  assert (Hshape :
    is_Some (File b') /\ Header b' = Header b /\
    ((UncompressedSize (Header b) = 0 /\ d = []) \/
     (0 < UncompressedSize (Header b) /\ cachedContent b' = Some d))).
  { revert Hread. unfold ReadFull.
    destruct (File b) as [f|] eqn:Hf; [|discriminate].
    destruct (Z.eqb_spec (UncompressedSize (Header b)) 0) as [Hz|Hnz].
    { intros [= <- <-]. rewrite Hf. split; [eauto|]. split; [reflexivity|].
      now left. }
    destruct (Z.ltb_spec (UncompressedSize (Header b)) 0) as [|Hpos];
      [discriminate|].
    destruct (cachedContent b) as [c|] eqn:Hc.
    { intros [= <- <-]. rewrite Hf. split; [eauto|]. split; [reflexivity|].
      right. split; [lia|exact Hc]. }
    destruct ((ChunkCount (Header b) =? 0)
              && (0 <? UncompressedSize (Header b))); [discriminate|].
    destruct ((0 <? ChunkCount (Header b))
              && negb (Z.of_nat (length (CompressedChunkSizes b))
                       =? ChunkCount (Header b))); [discriminate|].
    destruct (chunkLoop _ _ _ _ _ _) as [[data|e]|]; try discriminate.
    intros [= <- <-]. cbn [setCachedContent File Header cachedContent].
    rewrite Hf. split; [eauto|]. split; [reflexivity|].
    right. split; [lia|reflexivity]. }
  destruct Hshape as ([f Hf] & Hh & Hcase).
  assert (Hnext : forall b2 : Bundle,
            is_Some (File b2) -> Header b2 = Header b' ->
            cachedContent b2 = cachedContent b' ->
            ReadFull b2 = Done (Ok d, b2)).
  { intros b2 [f2 Hf2] Hh2 Hc2. unfold ReadFull.
    rewrite Hf2, Hh2, Hh, Hc2.
    destruct Hcase as [[Hz ->]|[Hpos Hc]].
    - rewrite Hz. reflexivity.
    - destruct (Z.eqb_spec (UncompressedSize (Header b)) 0); [lia|].
      destruct (Z.ltb_spec (UncompressedSize (Header b)) 0); [lia|].
      now rewrite Hc. }
  split; [|split].
  - intros Hnz. destruct Hcase as [[Hz _]|[_ Hc]]; [contradiction|exact Hc].
  - apply Hnext; eauto.
  - intros f' sizes' b''. apply Hnext; subst b''; cbn; eauto.
Qed.

(** X3. Whenever [ReadAt] returns data, the data has exactly [size]
    bytes: for size zero it is empty and the bundle is untouched;
    otherwise it is the window [offset, offset+size) of what [ReadFull]
    returns, which lies inside that content. *)
Theorem ReadAt_returns_window (b b' : Bundle) (offset size : Z)
    (d : list byte) :
  in_int32 offset -> in_int32 size ->
  ReadAt b offset size = Done (Ok d, b') ->
  Z.of_nat (length d) = size /\
  ((size = 0 /\ d = [] /\ b' = b) \/
   exists fullData,
     ReadFull b = Done (Ok fullData, b') /\
     0 <= offset /\ 0 < size /\
     offset + size <= Z.of_nat (length fullData) /\
     d = take (Z.to_nat size) (drop (Z.to_nat offset) fullData)).
Proof.
  unfold in_int32. intros Ho Hs. unfold ReadAt.
  destruct (File b) as [f|]; [|discriminate].
  destruct (Z.eqb_spec size 0) as [->|Hnz].
  { intros [= <- <-]. split; [reflexivity|]. left. auto. }
  destruct (Z.ltb_spec size 0) as [|Hpos]; [discriminate|].
  destruct (Z.ltb_spec offset 0) as [|Hoff]; [discriminate|].
  destruct (Z.ltb_spec (UncompressedSize (Header b))
              (wrap32 (offset + size))); [discriminate|].
  cbn [orb].
  destruct (ReadFull b) as [[[full|e] b1]|]; try discriminate.
  destruct (Z.ltb_spec (Z.of_nat (length full)) (wrap32 (offset + size)));
    [discriminate|].
  destruct (goSlice full offset (wrap32 (offset + size))) as [r|] eqn:Hslice;
    [|discriminate].
  intros [= <- <-].
  apply goSlice_Done_inv in Hslice as (Hlow & Hhigh & ->).
  assert (Hw : wrap32 (offset + size) = offset + size).
  { unfold wrap32 in *.
    destruct (Z.leb_spec (2 ^ 31) (offset + size)) as [Hbig|Hsmall].
    - exfalso.
      replace (offset + size + 2 ^ 31)
        with (offset + size - 2 ^ 31 + 1 * 2 ^ 32) in Hlow by lia.
      rewrite Z.mod_add in Hlow by lia.
      rewrite Z.mod_small in Hlow by lia. lia.
    - rewrite Z.mod_small by lia. lia. }
  rewrite Hw in *.
  replace (offset + size - offset) with size by lia.
  split.
  - rewrite length_take, length_drop. lia.
  - right. exists full. repeat split; try lia; reflexivity.
Qed.

(** X4. Whatever the file holds, if [OpenBundleFile] accepts it and
    [ReadFull] then returns content, that content has exactly the
    number of bytes the header's [uncompressed_size] states. *)
Theorem ReadFull_opened_length (f : list byte) (rec rec' : option BundleRec.t)
    (lo : bool) (b b' : Bundle) (d : list byte) :
  OpenBundleFile (Some f) rec lo = (Ok b, rec') ->
  ReadFull b = Done (Ok d, b') ->
  Z.of_nat (length d) = UncompressedSize (getHeader (take 60 f)).
Proof.
  intros Hopen Hread.
  assert (Hb : cachedContent b = None /\ Header b = getHeader (take 60 f)).
  { revert Hopen. unfold OpenBundleFile.
    change (Z.to_nat BundleHeaderSize) with 60%nat.
    repeat case_match; try discriminate. intros [= <- _]. auto. }
  destruct Hb as [Hc Hh].
  destruct (ReadFull_length b b' d) as [Hlen _]; [|assumption|].
  - intros c Hsome. congruence.
  - now rewrite <- Hh.
Qed.

End BundleUse.

Lemma reads_after_Close_witness :
  ReadFull (Close scenarioBundle) = Done (Err ErrBundleClosed, Close scenarioBundle)
  /\ ReadAt (Close scenarioBundle) 0 0
     = Done (Err ErrBundleClosed, Close scenarioBundle).
Proof.
  destruct (reads_after_Close scenarioBundle) as [Hfull Hat]; [reflexivity|].
  split; [exact Hfull|apply Hat].
Defined.

Lemma ReadFull_memoized_witness :
  cachedContent (setCachedContent scenarioBundle (concat scenarioChunks))
    = Some (concat scenarioChunks) /\
  ReadFull (mkBundle (Some []) (noneHeader 100 scenarioChunks) [] None false
              (Some (concat scenarioChunks)))
  = Done (Ok (concat scenarioChunks),
          mkBundle (Some []) (noneHeader 100 scenarioChunks) [] None false
            (Some (concat scenarioChunks))).
Proof.
  destruct (ReadFull_memoized scenarioBundle
              (setCachedContent scenarioBundle (concat scenarioChunks))
              (concat scenarioChunks)) as (Hcache & _ & Hany).
  - vm_compute. reflexivity.
  - split.
    + apply Hcache. vm_compute. discriminate.
    + exact (Hany [] []).
Defined.

Lemma ReadAt_returns_window_witness :
  Z.of_nat (length (replicate 10 x41 ++ replicate 10 x42)) = 20.
Proof.
  apply (ReadAt_returns_window scenarioBundle
           (setCachedContent scenarioBundle (concat scenarioChunks)) 90 20).
  - by_evaluation.
  - by_evaluation.
  - vm_compute. reflexivity.
Defined.

Lemma ReadFull_opened_length_witness :
  Z.of_nat (length (concat scenarioChunks))
  = UncompressedSize (getHeader (take 60 scenarioFile)).
Proof.
  apply (ReadFull_opened_length scenarioFile None None false scenarioBundle
           (setCachedContent scenarioBundle (concat scenarioChunks))).
  - vm_compute. reflexivity.
  - vm_compute. reflexivity.
Defined.

(** ** Bundle.ReadFull does not panic below 1 GiB *)

Section ReadFullSafety.

Context `{External}.

(** One iteration: when the output offset plus a non-negative target
    cannot leave the [int32] range, the body returns, and on success it
    has advanced the offset by the target inside the buffer. *)
Lemma readChunk_no_wrap h sizes f i st s :
  sizes !! Z.to_nat i = Some s ->
  0 <= outputBufferOffset st <= Z.of_nat (length (decompressedData st)) ->
  Z.of_nat (length (decompressedData st)) < 2 ^ 31 ->
  (0 <= uncompressedChunkTargetSize h i ->
   outputBufferOffset st + uncompressedChunkTargetSize h i < 2 ^ 31) ->
  readChunk h sizes f i st <> Panic /\
  forall st',
    readChunk h sizes f i st = Done (Ok st') ->
    0 <= uncompressedChunkTargetSize h i /\
    outputBufferOffset st'
      = outputBufferOffset st + uncompressedChunkTargetSize h i /\
    outputBufferOffset st' <= Z.of_nat (length (decompressedData st')) /\
    length (decompressedData st') = length (decompressedData st).
Proof.
  intros Hs Ho Hlen Hfit. unfold readChunk. rewrite Hs.
  set (t := uncompressedChunkTargetSize h i) in *.
  destruct (Z.ltb_spec s 0); [split; [discriminate|intros ? [=]]|].
  destruct (Z.ltb_spec t 0); [split; [discriminate|intros ? [=]]|].
  specialize (Hfit ltac:(lia)).
  destruct (Z.eqb_spec t 0) as [Ht0|Ht0];
    destruct (Z.eqb_spec s 0) as [Hs0|Hs0]; cbn [andb negb];
    try (split; [discriminate|intros st' [=]]).
  - subst st'. cbn [outputBufferOffset decompressedData]. repeat split; lia.
  - destruct (seekRead f (currentChunkDataFileOffset st) s) as [| |buf];
      try (split; [discriminate|intros ? [=]]).
    rewrite !wrap32_id by (unfold in_int32; lia).
    destruct (Z.ltb_spec (Z.of_nat (length (decompressedData st)))
                (outputBufferOffset st + t));
      [split; [discriminate|intros ? [=]]|].
    rewrite goSlice_ok by lia.
    assert (Hcopy : forall src,
      length (copyInto (decompressedData st) (outputBufferOffset st)
                (outputBufferOffset st + t - outputBufferOffset st) src)
      = length (decompressedData st))
      by (intros src; apply length_copyInto; lia).
    destruct (Compressor h =? OodleCompressorNone).
    + destruct (negb (s =? t)); [split; [discriminate|intros ? [=]]|].
      split; [discriminate|]. intros st' [= <-].
      cbn [outputBufferOffset decompressedData]. rewrite Hcopy.
      repeat split; lia.
    + destruct (oodle_Decompress buf t) as [dec|];
        [|split; [discriminate|intros ? [=]]].
      destruct (negb (Z.of_nat (length dec) =? t));
        [split; [discriminate|intros ? [=]]|].
      split; [discriminate|]. intros st' [= <-].
      cbn [outputBufferOffset decompressedData]. rewrite Hcopy.
      repeat split; lia.
Qed.

(** The target of chunk [i] keeps the offset in range when the offset
    is [i] chunk sizes and lies inside an output of less than 1 GiB. *)
Lemma target_in_range (h : BundleHeader) (i oo : Z) :
  in_int32 (ChunkSize h) -> in_int32 (ChunkCount h) ->
  0 < UncompressedSize h < 2 ^ 30 ->
  0 <= i < ChunkCount h ->
  oo = i * ChunkSize h -> 0 <= oo <= UncompressedSize h ->
  (1 <= i -> 0 <= ChunkSize h) ->
  0 <= uncompressedChunkTargetSize h i ->
  oo + uncompressedChunkTargetSize h i < 2 ^ 31.
Proof.
  unfold in_int32. intros Hcs Hcc Hu Hi Hoo Hin Hpos.
  unfold uncompressedChunkTargetSize, GetLastChunkUncompressedSize.
  rewrite (wrap32_id (ChunkCount h - 1)) by (unfold in_int32; lia).
  destruct (Z.eqb_spec i (ChunkCount h - 1)) as [Hlast|Hnot].
  - destruct (Z.eqb_spec (ChunkCount h) 0); [lia|].
    rewrite <- Hlast, (Z.mul_comm (ChunkSize h) i), <- Hoo.
    rewrite (wrap32_id oo) by (unfold in_int32; lia).
    rewrite wrap32_id by (unfold in_int32; lia). lia.
  - intros Ht.
    destruct (Z.eq_dec i 0) as [->|Hi0]; [lia|].
    assert (0 <= ChunkSize h) by (apply Hpos; lia).
    assert (ChunkSize h <= i * ChunkSize h) by nia.
    lia.
Qed.

Lemma chunkLoop_no_panic (h : BundleHeader) (sizes : list Z) (f : list byte) :
  in_int32 (ChunkSize h) -> in_int32 (ChunkCount h) ->
  0 < UncompressedSize h < 2 ^ 30 ->
  Z.of_nat (length sizes) = ChunkCount h ->
  forall (todo : nat) (i : Z) (st : chunkState),
    0 <= i -> i + Z.of_nat todo = ChunkCount h ->
    Z.of_nat (length (decompressedData st)) = UncompressedSize h ->
    (todo <> 0%nat ->
     outputBufferOffset st = i * ChunkSize h /\
     0 <= outputBufferOffset st <= UncompressedSize h /\
     (1 <= i -> 0 <= ChunkSize h)) ->
    chunkLoop h sizes f todo i st <> Panic.
Proof.
  intros Hcs Hcc Hu Hsizes todo.
  induction todo as [|todo IH]; intros i st Hi Hsum Hlen Hinv;
    [discriminate|].
  destruct Hinv as (Hoo & Hin & Hpos); [discriminate|].
  assert (Hlt : (Z.to_nat i < length sizes)%nat) by lia.
  destruct (lookup_lt_is_Some_2 sizes _ Hlt) as [s Hs].
  destruct (readChunk_no_wrap h sizes f i st s Hs) as [Hnp Hok];
    [lia|lia| |].
  { apply (target_in_range h i); auto; lia. }
  cbn [chunkLoop].
  destruct (readChunk h sizes f i st) as [[st'|e]|] eqn:Hstep;
    [|discriminate|contradiction].
  destruct (Hok st' eq_refl) as (Ht & Hoo' & Hle & Hlen').
  apply IH; [lia|lia|lia|].
  intros Hmore.
  assert (Hnot : i <> ChunkCount h - 1) by lia.
  unfold uncompressedChunkTargetSize in Ht, Hoo'.
  rewrite (wrap32_id (ChunkCount h - 1)) in Ht, Hoo'
    by (unfold in_int32 in *; lia).
  destruct (Z.eqb_spec i (ChunkCount h - 1)); [contradiction|].
  repeat split; try lia.
Qed.

(** For a bundle whose header fields are [int32] values and whose
    [uncompressed_size] is below 2^30, [ReadFull] returns. *)
Lemma ReadFull_returns (b : Bundle) :
  in_int32 (ChunkSize (Header b)) -> in_int32 (ChunkCount (Header b)) ->
  UncompressedSize (Header b) < 2 ^ 30 ->
  ReadFull b <> Panic.
Proof.
  intros Hcs Hcc Hu. unfold ReadFull.
  destruct (File b) as [f|]; [|discriminate].
  destruct (Z.eqb_spec (UncompressedSize (Header b)) 0); [discriminate|].
  destruct (Z.ltb_spec (UncompressedSize (Header b)) 0); [discriminate|].
  destruct (cachedContent b); [discriminate|].
  destruct (Z.eqb_spec (ChunkCount (Header b)) 0) as [Hc0|Hc0].
  { destruct (Z.ltb_spec 0 (UncompressedSize (Header b))); [discriminate|lia]. }
  cbn [andb].
  destruct (Z.ltb_spec 0 (ChunkCount (Header b))) as [Hpos|Hneg]; cbn [andb].
  - destruct (Z.eqb_spec (Z.of_nat (length (CompressedChunkSizes b)))
                (ChunkCount (Header b))) as [Hlen|]; [|discriminate].
    cbn [negb].
    pose proof (chunkLoop_no_panic (Header b) (CompressedChunkSizes b) f
                  Hcs Hcc ltac:(lia) Hlen
                  (Z.to_nat (ChunkCount (Header b))) 0
                  (mkChunkState
                     (wrap32 (BundleHeaderSize
                              + wrap32 (ChunkCount (Header b) * 4)))
                     0
                     (replicate (Z.to_nat (UncompressedSize (Header b))) x00)))
      as Hloop.
    destruct (chunkLoop _ _ _ _ _ _) as [[data|e]|]; try discriminate.
    exfalso. apply Hloop; try lia; try reflexivity.
    + cbn [decompressedData]. rewrite length_replicate. lia.
    + intros _. cbn [outputBufferOffset]. lia.
  - replace (Z.to_nat (ChunkCount (Header b))) with 0%nat by lia.
    discriminate.
Qed.

Lemma OpenBundleFile_Ok_inv (f : list byte) (rec rec' : option BundleRec.t)
    (lo : bool) (b : Bundle) :
  OpenBundleFile (Some f) rec lo = (Ok b, rec') ->
  b = mkBundle (Some f) (getHeader (take 60 f))
        (getInt32s (Z.to_nat (ChunkCount (getHeader (take 60 f)))) (drop 60 f))
        (syncRecord rec (getHeader (take 60 f))) lo None /\
  rec' = syncRecord rec (getHeader (take 60 f)) /\
  (60 <= length f)%nat /\
  0 <= ChunkCount (getHeader (take 60 f)) <= 1000000 /\
  60 + 4 * ChunkCount (getHeader (take 60 f)) <= Z.of_nat (length f).
Proof.
  unfold OpenBundleFile. change (Z.to_nat BundleHeaderSize) with 60%nat.
  destruct (Nat.ltb_spec (length f) 60); [discriminate|].
  cbv zeta.
  destruct (Z.ltb_spec (ChunkCount (getHeader (take 60 f))) 0);
    [discriminate|].
  destruct (Z.ltb_spec 1000000 (ChunkCount (getHeader (take 60 f))));
    [discriminate|].
  destruct (Z.ltb_spec 0 (ChunkCount (getHeader (take 60 f)))) as [Hpos|Hz];
    cbn [andb].
  - destruct (Nat.ltb_spec (length (drop 60 f))
                (4 * Z.to_nat (ChunkCount (getHeader (take 60 f)))))
      as [|Hfit]; [discriminate|].
    intros [= <- <-]. rewrite length_drop in Hfit. repeat split; lia.
  - intros [= <- <-]. repeat split; lia.
Qed.

Lemma getInt32_in_range (bs : list byte) (o : nat) : in_int32 (getInt32 bs o).
Proof. apply wrap32_range. Qed.

(** X5. Whatever bytes a file holds: if [OpenBundleFile] accepts it and
    the header's [uncompressed_size] is below 2^30, then [ReadFull]
    does not panic, and neither does [ReadAt] for any [int32] offset and
    size whose sum fits an [int32]; each returns content or an error. *)
Theorem opened_bundle_reads_return (f : list byte)
    (rec rec' : option BundleRec.t) (lo : bool) (b : Bundle) :
  OpenBundleFile (Some f) rec lo = (Ok b, rec') ->
  UncompressedSize (Header b) < 2 ^ 30 ->
  ReadFull b <> Panic /\
  forall offset size : Z,
    in_int32 offset -> in_int32 size -> offset + size < 2 ^ 31 ->
    ReadAt b offset size <> Panic.
Proof.
  intros Hopen Hu.
  apply OpenBundleFile_Ok_inv in Hopen as (Hb & _).
  assert (Hfull : ReadFull b <> Panic).
  { apply ReadFull_returns; [| |assumption];
      rewrite Hb; cbn [Header ChunkSize ChunkCount getHeader];
      apply getInt32_in_range. }
  split; [exact Hfull|].
  intros offset size Ho Hs Hsum. unfold in_int32 in *. unfold ReadAt.
  destruct (File b); [|discriminate].
  destruct (Z.eqb_spec size 0); [discriminate|].
  destruct (Z.ltb_spec size 0); [discriminate|].
  destruct (Z.ltb_spec offset 0); [discriminate|].
  rewrite wrap32_id by (unfold in_int32; lia).
  destruct (Z.ltb_spec (UncompressedSize (Header b)) (offset + size));
    [discriminate|].
  cbn [orb].
  destruct (ReadFull b) as [[[full|e] b1]|]; [|discriminate|contradiction].
  destruct (Z.ltb_spec (Z.of_nat (length full)) (offset + size));
    [discriminate|].
  rewrite goSlice_ok by lia. discriminate.
Qed.

End ReadFullSafety.

Lemma opened_bundle_reads_return_witness :
  ReadFull scenarioBundle <> Panic /\
  forall offset size : Z,
    in_int32 offset -> in_int32 size -> offset + size < 2 ^ 31 ->
    ReadAt scenarioBundle offset size <> Panic.
Proof.
  apply (opened_bundle_reads_return scenarioFile None None false).
  - vm_compute. reflexivity.
  - by_evaluation.
Defined.

(** ** OpenBundleFile: what it accepts and what it returns *)

Lemma length_getInt32s (n : nat) (bs : list byte) :
  length (getInt32s n bs) = n.
Proof. revert bs. induction n; intros bs; simpl; auto. Qed.

Lemma getInt32s_in_range (n : nat) (bs : list byte) :
  Forall in_int32 (getInt32s n bs).
Proof.
  revert bs. induction n as [|n IH]; intros bs; simpl; constructor.
  - apply getInt32_in_range.
  - apply IH.
Qed.

(** X6. Writing a header and a chunk-size table with [binary.Write] and
    opening the result gives back exactly that header and that table,
    with the file attached and nothing cached, for every header whose
    fields fit their types, every table of [chunk_count] <= 1,000,000
    [int32] entries, and any bytes after the table. *)
Theorem OpenBundleFile_roundtrip (h : BundleHeader) (sizes : list Z)
    (payload : list byte) (rec : option BundleRec.t) (lo : bool) :
  headerInRange h ->
  ChunkCount h = Z.of_nat (length sizes) ->
  ChunkCount h <= 1000000 ->
  Forall in_int32 sizes ->
  OpenBundleFile (Some (putHeader h ++ putInt32s sizes ++ payload)) rec lo
  = (Ok (mkBundle (Some (putHeader h ++ putInt32s sizes ++ payload)) h sizes
           (syncRecord rec h) lo None),
     syncRecord rec h).
Proof.
  intros Hrange Hcount Hmax Hsizes.
  unfold OpenBundleFile. change (Z.to_nat BundleHeaderSize) with 60%nat.
  destruct (Nat.ltb_spec
              (length (putHeader h ++ putInt32s sizes ++ payload)) 60)
    as [Hshort|_].
  { rewrite length_app, length_putHeader in Hshort. lia. }
  rewrite take_app_length' by reflexivity.
  rewrite drop_app_length' by reflexivity.
  assert (Hh : getHeader (putHeader h) = h).
  { rewrite <- (app_nil_r (putHeader _)). now apply getHeader_putHeader. }
  cbv zeta. rewrite !Hh, Hcount.
  destruct (Z.ltb_spec (Z.of_nat (length sizes)) 0); [lia|].
  destruct (Z.ltb_spec 1000000 (Z.of_nat (length sizes))); [lia|].
  rewrite Nat2Z.id.
  destruct (Nat.ltb_spec (length (putInt32s sizes ++ payload))
              (4 * length sizes)) as [Hshort|_].
  { rewrite length_app, length_putInt32s in Hshort. lia. }
  rewrite andb_false_r.
  now rewrite getInt32s_putInt32s.
Qed.

(** X7. The ways [OpenBundleFile] fails before the chunk-count checks
    and after them: a file that cannot be opened, or one with fewer
    than 60 bytes, fails and leaves the caller's record untouched; a
    file whose header announces between 1 and 1,000,000 chunks but that
    ends before the whole chunk-size table fails too, and by then the
    record's [UncompressedSize] has been overwritten from the header. *)
Theorem OpenBundleFile_short_input (f : list byte)
    (rec : option BundleRec.t) (lo : bool) :
  OpenBundleFile None rec lo = (Err ErrOpenFile, rec) /\
  ((length f < 60)%nat ->
   OpenBundleFile (Some f) rec lo = (Err ErrReadHeader, rec)) /\
  ((60 <= length f)%nat ->
   0 < ChunkCount (getHeader (take 60 f)) <= 1000000 ->
   Z.of_nat (length f) < 60 + 4 * ChunkCount (getHeader (take 60 f)) ->
   OpenBundleFile (Some f) rec lo
   = (Err ErrReadChunkSizes, syncRecord rec (getHeader (take 60 f)))).
Proof.
  split; [reflexivity|]. split.
  - intros Hshort. unfold OpenBundleFile.
    change (Z.to_nat BundleHeaderSize) with 60%nat.
    destruct (Nat.ltb_spec (length f) 60); [reflexivity|lia].
  - intros Hlong Hcount Htable. unfold OpenBundleFile.
    change (Z.to_nat BundleHeaderSize) with 60%nat.
    destruct (Nat.ltb_spec (length f) 60); [lia|].
    cbv zeta.
    destruct (Z.ltb_spec (ChunkCount (getHeader (take 60 f))) 0); [lia|].
    destruct (Z.ltb_spec 1000000 (ChunkCount (getHeader (take 60 f))));
      [lia|].
    destruct (Z.ltb_spec 0 (ChunkCount (getHeader (take 60 f)))); [|lia].
    destruct (Nat.ltb_spec (length (drop 60 f))
                (4 * Z.to_nat (ChunkCount (getHeader (take 60 f)))))
      as [|Hfit]; [reflexivity|].
    rewrite length_drop in Hfit. lia.
Qed.

(** X8. What a successful [OpenBundleFile] guarantees about the bundle:
    the file is attached and nothing is cached, the chunk count lies in
    0..1,000,000, the chunk-size table has exactly that many entries,
    all of them [int32] values read from the bytes after the header,
    and the caller's record carries the header's [uncompressed_size]. *)
Theorem OpenBundleFile_postcondition (f : list byte)
    (rec rec' : option BundleRec.t) (lo : bool) (b : Bundle) :
  OpenBundleFile (Some f) rec lo = (Ok b, rec') ->
  File b = Some f /\ cachedContent b = None /\ leaveOpen b = lo /\
  Header b = getHeader (take 60 f) /\
  0 <= ChunkCount (Header b) <= 1000000 /\
  Z.of_nat (length (CompressedChunkSizes b)) = ChunkCount (Header b) /\
  Forall in_int32 (CompressedChunkSizes b) /\
  60 + 4 * ChunkCount (Header b) <= Z.of_nat (length f) /\
  Record_ b = rec' /\
  (forall r, rec' = Some r ->
     BundleRec.UncompressedSize r = UncompressedSize (Header b)).
Proof.
  intros Hopen.
  apply OpenBundleFile_Ok_inv in Hopen as (-> & -> & Hlen & Hcount & Hfit).
  cbn [File cachedContent leaveOpen Header CompressedChunkSizes Record_].
  repeat split; try lia.
  - rewrite length_getInt32s. lia.
  - apply getInt32s_in_range.
  - intros r. destruct rec as [r0|]; cbn [syncRecord]; [|discriminate].
    intros [= <-]. reflexivity.
Qed.

Lemma scenarioHeader_in_range : headerInRange (noneHeader 100 scenarioChunks).
Proof. unfold headerInRange, in_int32. by_evaluation. Qed.

Lemma OpenBundleFile_roundtrip_witness :
  OpenBundleFile (Some scenarioFile)
    (Some (BundleRec.mk (go "Bundle0") 7 0 [])) true
  = (Ok (mkBundle (Some scenarioFile) (noneHeader 100 scenarioChunks)
           [100; 50] (Some (BundleRec.mk (go "Bundle0") 150 0 [])) true None),
     Some (BundleRec.mk (go "Bundle0") 150 0 [])).
Proof.
  apply (OpenBundleFile_roundtrip (noneHeader 100 scenarioChunks) [100; 50]
           (concat scenarioChunks)).
  - exact scenarioHeader_in_range.
  - reflexivity.
  - by_evaluation.
  - repeat constructor; by_evaluation.
Defined.

Lemma OpenBundleFile_short_input_witness :
  OpenBundleFile (Some (go "short")) None false = (Err ErrReadHeader, None) /\
  OpenBundleFile (Some (take 64 scenarioFile))
    (Some (BundleRec.mk (go "Bundle0") 7 0 [])) false
  = (Err ErrReadChunkSizes, Some (BundleRec.mk (go "Bundle0") 150 0 [])).
Proof.
  split.
  - apply (OpenBundleFile_short_input (go "short") None false).
    by_evaluation.
  - apply (OpenBundleFile_short_input (take 64 scenarioFile)
             (Some (BundleRec.mk (go "Bundle0") 7 0 [])) false);
      by_evaluation.
Defined.

Lemma OpenBundleFile_postcondition_witness :
  File scenarioBundle = Some scenarioFile /\
  cachedContent scenarioBundle = None /\ leaveOpen scenarioBundle = false /\
  Header scenarioBundle = getHeader (take 60 scenarioFile) /\
  0 <= ChunkCount (Header scenarioBundle) <= 1000000 /\
  Z.of_nat (length (CompressedChunkSizes scenarioBundle))
    = ChunkCount (Header scenarioBundle) /\
  Forall in_int32 (CompressedChunkSizes scenarioBundle) /\
  60 + 4 * ChunkCount (Header scenarioBundle)
    <= Z.of_nat (length scenarioFile) /\
  Record_ scenarioBundle = None /\
  (forall r, None = Some r ->
     BundleRec.UncompressedSize r = UncompressedSize (Header scenarioBundle)).
Proof.
  apply (OpenBundleFile_postcondition scenarioFile None None false).
  vm_compute. reflexivity.
Defined.

(** ** readNullTerminatedString *)

Lemma readNullTerminatedString_Ok_inv (r buf seg rest : list byte) :
  readNullTerminatedString r buf = Ok (seg, rest) ->
  exists s, seg = buf ++ s /\ r = s ++ x00 :: rest /\
            Forall (fun b => b <> x00) s /\
            (s <> [] -> (length seg <= 2048)%nat).
Proof.
  revert buf. induction r as [|b r IH]; intros buf; simpl.
  - destruct (0 <? length buf)%nat; discriminate.
  - destruct (bool_decide_reflect (b = x00)) as [->|Hb].
    + intros [= <- <-]. exists []. rewrite app_nil_r.
      repeat split; [constructor|congruence].
    + destruct (Nat.ltb_spec 2048 (length (buf ++ [b]))) as [|Hlen];
        [discriminate|].
      intros Hr. apply IH in Hr as (s & -> & -> & Hs & Hlen').
      exists (b :: s). repeat split.
      * now rewrite <- app_assoc.
      * now constructor.
      * intros _. destruct s as [|b' s]; [|apply Hlen'; discriminate].
        now rewrite app_nil_r.
Qed.

Lemma readNullTerminatedString_segment (seg rest buf : list byte) :
  Forall (fun b => b <> x00) seg ->
  (length (buf ++ seg) <= 2048)%nat ->
  readNullTerminatedString (seg ++ x00 :: rest) buf = Ok (buf ++ seg, rest).
Proof.
  intros Hseg. revert buf. induction Hseg as [|b seg Hb _ IH]; intros buf Hlen.
  - simpl. now rewrite app_nil_r.
  - simpl. rewrite bool_decide_eq_false_2 by assumption.
    rewrite length_app in Hlen. simpl in Hlen.
    destruct (Nat.ltb_spec 2048 (length (buf ++ [b]))) as [Hbig|_].
    { rewrite length_app in Hbig. simpl in Hbig. lia. }
    rewrite IH.
    + now rewrite <- app_assoc.
    + rewrite !length_app. simpl. lia.
Qed.

(** X9. [readNullTerminatedString] returns a segment exactly when the
    reader starts with that segment, free of NUL bytes and at most 2048
    bytes long, followed by a NUL byte; the reader is then left right
    after that NUL byte. *)
Theorem readNullTerminatedString_spec (r seg rest : list byte) :
  readNullTerminatedString r [] = Ok (seg, rest) <->
  r = seg ++ x00 :: rest /\ Forall (fun b => b <> x00) seg /\
  (length seg <= 2048)%nat.
Proof.
  split.
  - intros Hr.
    apply readNullTerminatedString_Ok_inv in Hr as (s & -> & -> & Hs & Hlen).
    simpl in *. repeat split; [assumption|].
    destruct s; [simpl; lia|apply Hlen; discriminate].
  - intros (-> & Hseg & Hlen).
    now apply (readNullTerminatedString_segment seg rest []).
Qed.

(** X10. The three ways [readNullTerminatedString] fails: on an empty
    reader with the end-of-input error; on a non-empty reader of at most
    2048 bytes without a NUL byte with the not-terminated error; and as
    soon as 2049 bytes without a NUL byte have been read with the
    too-long error, whatever follows them. *)
Theorem readNullTerminatedString_errors (r rest : list byte) :
  readNullTerminatedString [] [] = Err ErrEOF /\
  (Forall (fun b => b <> x00) r -> (0 < length r <= 2048)%nat ->
   readNullTerminatedString r [] = Err ErrStringNotTerminated) /\
  (Forall (fun b => b <> x00) r -> length r = 2049%nat ->
   readNullTerminatedString (r ++ rest) [] = Err ErrSegmentTooLong).
Proof.
  split; [reflexivity|].
  assert (Hgen : forall (s buf : list byte),
            Forall (fun b => b <> x00) s ->
            (length (buf ++ s) <= 2048)%nat -> (0 < length (buf ++ s))%nat ->
            readNullTerminatedString s buf = Err ErrStringNotTerminated).
  { intros s buf Hs. revert buf.
    induction Hs as [|b s Hb _ IH]; intros buf Hlen Hpos.
    - rewrite app_nil_r in Hpos. simpl.
      destruct (Nat.ltb_spec 0 (length buf)); [reflexivity|lia].
    - simpl. rewrite bool_decide_eq_false_2 by assumption.
      rewrite length_app in Hlen, Hpos. simpl in Hlen, Hpos.
      destruct (Nat.ltb_spec 2048 (length (buf ++ [b]))) as [Hbig|_].
      { rewrite length_app in Hbig. simpl in Hbig. lia. }
      apply IH; rewrite !length_app; simpl; lia. }
  assert (Hlong : forall (s buf : list byte),
            Forall (fun b => b <> x00) s ->
            (length buf <= 2048)%nat -> (length (buf ++ s) = 2049)%nat ->
            readNullTerminatedString (s ++ rest) buf = Err ErrSegmentTooLong).
  { intros s buf Hs. revert buf.
    induction Hs as [|b s Hb _ IH]; intros buf Hbuf Hlen.
    - rewrite app_nil_r in Hlen. lia.
    - simpl. rewrite bool_decide_eq_false_2 by assumption.
      rewrite length_app in Hlen. simpl in Hlen.
      destruct (Nat.ltb_spec 2048 (length (buf ++ [b]))) as [|Hsmall];
        [reflexivity|].
      rewrite length_app in Hsmall. simpl in Hsmall.
      apply IH; rewrite ?length_app; simpl; lia. }
  split.
  - intros Hr Hlen. apply Hgen; simpl; [assumption|lia..].
  - intros Hr Hlen. apply Hlong; simpl; [assumption|lia|lia].
Qed.

Lemma readNullTerminatedString_errors_witness :
  readNullTerminatedString (go "file.t") [] = Err ErrStringNotTerminated.
Proof.
  apply (readNullTerminatedString_errors (go "file.t") []).
  - repeat constructor; discriminate.
  - simpl. lia.
Defined.

(** ** ParsePaths: what it changes and what it leaves *)

Lemma recordKey_insert (recs : list FileRec.t) (p : nat) (r : FileRec.t)
    (path : list byte) :
  recs !! p = Some r ->
  recordKey <$> <[p := FileRec.setPath r path]> recs = recordKey <$> recs.
Proof.
  intros Hr. rewrite list_fmap_insert.
  apply list_insert_id. rewrite list_lookup_fmap, Hr. reflexivity.
Qed.

Section ParsePathsFrame.

Context `{External}.

Lemma resolveCandidate_keys (idx : Index) (p : list byte) (st : pathState) :
  match resolveCandidate idx p st with
  | Done (Continue st') | Done (Return st' _) =>
      recordKey <$> records st' = recordKey <$> records st /\
      failed st <= failed st'
  | Panic => True
  end.
Proof.
  unfold resolveCandidate.
  destruct (NameHash idx p) as [h|e]; [|split; [reflexivity|lia]].
  destruct (FilesByPathHash idx !! h) as [q|];
    [|cbn; split; [reflexivity|lia]].
  destruct (records st !! q) as [r|] eqn:Hr; [|exact I].
  cbn. split; [now apply recordKey_insert|lia].
Qed.

Lemma blockLoop_keys (idx : Index) (fuel : nat) :
  forall (r : list byte) (st : pathState),
    match blockLoop fuel idx r st with
    | Done (Continue st') | Done (Return st' _) =>
        recordKey <$> records st' = recordKey <$> records st /\
        failed st <= failed st'
    | Panic => True
    end.
Proof.
  induction fuel as [|fuel IH]; intros r st; simpl;
    [split; [reflexivity|lia]|].
  assert (Hthen : forall (r' : list byte) (st1 : pathState),
    recordKey <$> records st1 = recordKey <$> records st ->
    failed st <= failed st1 ->
    match blockLoop fuel idx r' st1 with
    | Done (Continue st') | Done (Return st' _) =>
        recordKey <$> records st' = recordKey <$> records st /\
        failed st <= failed st'
    | Panic => True
    end).
  { intros r' st1 Hk Hf. specialize (IH r' st1).
    destruct (blockLoop fuel idx r' st1) as [[st'|st' e]|]; [| |exact I];
      (destruct IH as [IH1 IH2]; split; [congruence|lia]). }
  assert (Hcand : forall (r' q : list byte) (st1 : pathState),
    recordKey <$> records st1 = recordKey <$> records st ->
    failed st <= failed st1 ->
    match
      match resolveCandidate idx q st1 with
      | Panic => Panic
      | Done (Return st2 e) => Done (Return st2 e)
      | Done (Continue st2) => blockLoop fuel idx r' st2
      end
    with
    | Done (Continue st') | Done (Return st' _) =>
        recordKey <$> records st' = recordKey <$> records st /\
        failed st <= failed st'
    | Panic => True
    end).
  { intros r' q st1 Hk Hf.
    pose proof (resolveCandidate_keys idx q st1) as Hc.
    destruct (resolveCandidate idx q st1) as [[st2|st2 e]|]; [| |exact I].
    - destruct Hc as [Hc1 Hc2]. apply Hthen; [congruence|lia].
    - destruct Hc as [Hc1 Hc2]. split; [congruence|lia]. }
  destruct (length r =? 0)%nat; [split; [reflexivity|lia]|].
  destruct (length r <? 4)%nat; [split; [reflexivity|lia]|].
  destruct (getInt32 r 0 =? 0); [apply Hthen; [reflexivity|cbn; lia]|].
  destruct (readNullTerminatedString (drop 4 r) []) as [[seg rest]|e];
    [|split; [reflexivity|lia]].
  destruct (wrap32 (getInt32 r 0 - 1)
            <? wrap32 (Z.of_nat (length (tempSegments st)))).
  - destruct (if wrap32 (getInt32 r 0 - 1) <? 0 then None
              else tempSegments st !! Z.to_nat (wrap32 (getInt32 r 0 - 1)))
      as [old|]; [|exact I].
    cbn [setSegments isBase].
    destruct (isBase st); cbn [negb].
    + apply Hthen; [reflexivity|cbn; lia].
    + apply Hcand; [reflexivity|cbn; lia].
  - destruct (isBase st).
    + apply Hthen; [reflexivity|cbn; lia].
    + apply Hcand; [reflexivity|lia].
Qed.

Lemma dirLoop_keys (idx : Index) (dirData : list byte) (dirs : list DirRec.t) :
  forall (count : Z) (recs : list FileRec.t),
    match dirLoop idx dirData dirs count recs with
    | Done (Continue st') | Done (Return st' _) =>
        recordKey <$> records st' = recordKey <$> recs /\ count <= failed st'
    | Panic => True
    end.
Proof.
  induction dirs as [|d dirs IH]; intros count recs; simpl;
    [split; [reflexivity|lia]|].
  destruct ((DirRec.Offset d <? 0)
            || (Z.of_nat (length dirData)
                <? wrap32 (DirRec.Offset d + DirRec.Size d))); [apply IH|].
  destruct (goSlice dirData (DirRec.Offset d)
              (wrap32 (DirRec.Offset d + DirRec.Size d))) as [block|];
    [|exact I].
  pose proof (blockLoop_keys idx (length block) block
                (mkPathState [] false count recs)) as Hb.
  destruct (blockLoop (length block) idx block
              (mkPathState [] false count recs)) as [[st|st e]|];
    [| |exact I]; cbn [records failed] in Hb; destruct Hb as [Hb1 Hb2].
  - specialize (IH (failed st) (records st)).
    destruct (dirLoop idx dirData dirs (failed st) (records st))
      as [[st'|st' e]|]; [| |exact I];
      (destruct IH as [IH1 IH2]; split; [congruence|lia]).
  - split; [assumption|lia].
Qed.

(** X11. Whatever [ParsePaths] returns, with or without an error, it has
    written nothing but [Path] fields and the parsed flag: the bundle
    table, the hash map, the directory records and the dictionary bytes
    are the same, no file record was added or removed, every record
    keeps its hash, bundle, offset and size, and the failed count is
    not negative. *)
Theorem ParsePaths_frame (idx idx' : Index) (n : Z) (e : option error) :
  ParsePaths idx = Done (n, e, idx') ->
  Bundles idx' = Bundles idx /\
  FilesByPathHash idx' = FilesByPathHash idx /\
  Directories idx' = Directories idx /\
  DirectoryBundleData idx' = DirectoryBundleData idx /\
  recordKey <$> FileRecords idx' = recordKey <$> FileRecords idx /\
  0 <= n.
Proof.
  unfold ParsePaths.
  destruct (pathsParsed idx).
  { intros [= <- _ <-]. repeat split; lia. }
  destruct (DirectoryBundleData idx) as [dirData|] eqn:Hd.
  2:{ intros [= <- _ <-]. cbn. rewrite Hd. repeat split; lia. }
  destruct (length (Directories idx) =? 0)%nat.
  { intros [= <- _ <-]. cbn. rewrite Hd. repeat split; lia. }
  pose proof (dirLoop_keys idx dirData (Directories idx) 0 (FileRecords idx))
    as Hloop.
  destruct (dirLoop idx dirData (Directories idx) 0 (FileRecords idx))
    as [[st|st e']|]; [| |discriminate];
    destruct Hloop as [Hk Hf]; intros [= <- _ <-]; cbn; rewrite ?Hd;
    repeat split; assumption.
Qed.

(** X12. On an index that has no directory data or no directory
    records, the first [ParsePaths] returns the missing-data error with
    a count of 0 and nevertheless marks the index as parsed; a second
    call then returns no error, and [GetFileByPath] no longer tries to
    parse. *)
Theorem ParsePaths_missing_data (idx : Index) :
  pathsParsed idx = false ->
  DirectoryBundleData idx = None \/ Directories idx = [] ->
  ParsePaths idx = Done (0, Some ErrDirectoryDataMissing, setPathsParsed idx)
  /\ ParsePaths (setPathsParsed idx) = Done (0, None, setPathsParsed idx)
  /\ forall (order : list (Z * ptr)) (path : list byte),
       GetFileByPath order idx path
         = Done (Err (ErrImplicitParsePaths ErrDirectoryDataMissing),
                 setPathsParsed idx) /\
       GetFileByPath order (setPathsParsed idx) path
         = lookupByPath order (setPathsParsed idx) path.
Proof.
  intros Hp Hmiss.
  assert (Hfirst : ParsePaths idx
            = Done (0, Some ErrDirectoryDataMissing, setPathsParsed idx)).
  { unfold ParsePaths. rewrite Hp.
    destruct (DirectoryBundleData idx) as [dirData|]; [|reflexivity].
    destruct Hmiss as [|Hdirs]; [discriminate|]. now rewrite Hdirs. }
  split; [exact Hfirst|]. split; [reflexivity|].
  intros order path. split; [|reflexivity].
  unfold GetFileByPath. now rewrite Hp, Hfirst.
Qed.

End ParsePathsFrame.

Lemma ParsePaths_frame_witness :
  recordKey <$> [FileRec.mk sampleHash 0 0 50 (go "dir/file.txt")]
  = recordKey <$> FileRecords sampleIndex.
Proof.
  apply (ParsePaths_frame sampleIndex
           (setPathsParsed
              (setFileRecords sampleIndex
                 [FileRec.mk sampleHash 0 0 50 (go "dir/file.txt")]))
           1 None).
  vm_compute. reflexivity.
Defined.

Lemma ParsePaths_missing_data_witness :
  ParsePaths idxFnv = Done (0, Some ErrDirectoryDataMissing, setPathsParsed idxFnv)
  /\ ParsePaths (setPathsParsed idxFnv) = Done (0, None, setPathsParsed idxFnv).
Proof.
  destruct (ParsePaths_missing_data idxFnv) as (H1 & H2 & _);
    [reflexivity|now left|].
  split; [exact H1|exact H2].
Defined.

(** ** ParsePaths followed by GetFileByPath *)

Section PathsResolve.

Context `{External}.

Lemma resolveCandidate_resolves (idx : Index) (q : list byte)
    (st : pathState) :
  pathsResolve idx (records st) ->
  flowResolves idx (resolveCandidate idx q st).
Proof.
  intros Hinv. unfold resolveCandidate.
  destruct (NameHash idx q) as [h|e] eqn:Hh; [|exact Hinv].
  destruct (FilesByPathHash idx !! h) as [p|] eqn:Hp; [|exact Hinv].
  destruct (records st !! p) as [r|] eqn:Hr; [|exact I].
  cbn. intros p' rec' Hlook Hne.
  destruct (decide (p' = p)) as [->|Hneq].
  - rewrite list_lookup_insert_eq in Hlook
      by (now apply lookup_lt_Some in Hr).
    injection Hlook as <-. cbn in *. eauto.
  - rewrite list_lookup_insert_ne in Hlook by congruence.
    now apply Hinv.
Qed.

Lemma blockLoop_resolves (idx : Index) (fuel : nat) :
  forall (r : list byte) (st : pathState),
    pathsResolve idx (records st) ->
    flowResolves idx (blockLoop fuel idx r st).
Proof.
  induction fuel as [|fuel IH]; intros r st Hinv; simpl; [exact Hinv|].
  assert (Hcand : forall (r' q : list byte) (st1 : pathState),
    pathsResolve idx (records st1) ->
    flowResolves idx
      match resolveCandidate idx q st1 with
      | Panic => Panic
      | Done (Return st2 e) => Done (Return st2 e)
      | Done (Continue st2) => blockLoop fuel idx r' st2
      end).
  { intros r' q st1 H1.
    pose proof (resolveCandidate_resolves idx q st1 H1) as Hc.
    destruct (resolveCandidate idx q st1) as [[st2|st2 e]|]; [|exact Hc|exact I].
    now apply IH. }
  destruct (length r =? 0)%nat; [exact Hinv|].
  destruct (length r <? 4)%nat; [exact Hinv|].
  destruct (getInt32 r 0 =? 0); [now apply IH|].
  destruct (readNullTerminatedString (drop 4 r) []) as [[seg rest]|e];
    [|exact Hinv].
  destruct (wrap32 (getInt32 r 0 - 1)
            <? wrap32 (Z.of_nat (length (tempSegments st)))).
  - destruct (if wrap32 (getInt32 r 0 - 1) <? 0 then None
              else tempSegments st !! Z.to_nat (wrap32 (getInt32 r 0 - 1)))
      as [old|]; [|exact I].
    cbn [setSegments isBase].
    destruct (isBase st); cbn [negb]; [now apply IH|now apply Hcand].
  - destruct (isBase st); [now apply IH|now apply Hcand].
Qed.

Lemma dirLoop_resolves (idx : Index) (dirData : list byte)
    (dirs : list DirRec.t) :
  forall (count : Z) (recs : list FileRec.t),
    pathsResolve idx recs ->
    flowResolves idx (dirLoop idx dirData dirs count recs).
Proof.
  induction dirs as [|d dirs IH]; intros count recs Hinv; simpl;
    [exact Hinv|].
  destruct ((DirRec.Offset d <? 0)
            || (Z.of_nat (length dirData)
                <? wrap32 (DirRec.Offset d + DirRec.Size d)));
    [now apply IH|].
  destruct (goSlice dirData (DirRec.Offset d)
              (wrap32 (DirRec.Offset d + DirRec.Size d))) as [block|];
    [|exact I].
  pose proof (blockLoop_resolves idx (length block) block
                (mkPathState [] false count recs) Hinv) as Hb.
  destruct (blockLoop (length block) idx block
              (mkPathState [] false count recs)) as [[st|st e]|];
    [|exact Hb|exact I].
  now apply IH.
Qed.

Lemma NameHash_same_directories (idx idx' : Index) (path : list byte) :
  Directories idx' = Directories idx ->
  NameHash idx' path = NameHash idx path.
Proof. unfold NameHash. now intros ->. Qed.

(** X13. Starting from an index whose non-empty paths resolve (in
    particular one whose records have no path yet), after a [ParsePaths]
    call without an error every record that has a non-empty [Path] is
    found again through it: [GetFileByPath] with that path returns
    that record, for every iteration order of the map, and leaves the
    index unchanged. *)
Theorem ParsePaths_then_GetFileByPath (idx idx' : Index) (n : Z) :
  pathsResolve idx (FileRecords idx) ->
  ParsePaths idx = Done (n, None, idx') ->
  forall (order : list (Z * ptr)) (p : ptr) (rec : FileRec.t),
    FileRecords idx' !! p = Some rec -> FileRec.Path rec <> [] ->
    GetFileByPath order idx' (FileRec.Path rec) = Done (Ok p, idx').
Proof.
  intros Hinv Hparse.
  assert (Hpost : pathsParsed idx' = true /\
                  pathsResolve idx' (FileRecords idx')).
  { revert Hparse. unfold ParsePaths.
    destruct (pathsParsed idx) eqn:Hp.
    { intros [= _ <-]. auto. }
    destruct (DirectoryBundleData idx) as [dirData|]; [|discriminate].
    destruct (length (Directories idx) =? 0)%nat; [discriminate|].
    pose proof (dirLoop_resolves idx dirData (Directories idx) 0
                  (FileRecords idx) Hinv) as Hloop.
    destruct (dirLoop idx dirData (Directories idx) 0 (FileRecords idx))
      as [[st|st e]|]; try discriminate.
    intros [= _ <-]. split; [reflexivity|].
    intros p rec Hrec Hne. cbn in Hrec.
    destruct (Hloop p rec Hrec Hne) as (h & Hh & Hm).
    exists h. split; [|exact Hm].
    rewrite <- Hh. now apply NameHash_same_directories. }
  destruct Hpost as [Hparsed Hres].
  intros order p rec Hrec Hne.
  destruct (Hres p rec Hrec Hne) as (h & Hh & Hm).
  unfold GetFileByPath, lookupByPath. rewrite Hparsed. cbn [negb].
  rewrite Hh, Hm, Hrec.
  rewrite (bool_decide_eq_false_2 (FileRec.Path rec = [])) by assumption.
  reflexivity.
Qed.

End PathsResolve.

Lemma sampleIndex_resolves : pathsResolve sampleIndex (FileRecords sampleIndex).
Proof.
  intros [|p] rec Hrec Hne; cbn in Hrec.
  - injection Hrec as <-. now contradiction Hne.
  - now destruct p.
Qed.

Lemma ParsePaths_then_GetFileByPath_witness :
  GetFileByPath [] 
    (setPathsParsed
       (setFileRecords sampleIndex
          [FileRec.mk sampleHash 0 0 50 (go "dir/file.txt")]))
    (go "dir/file.txt")
  = Done (Ok 0%nat,
          setPathsParsed
            (setFileRecords sampleIndex
               [FileRec.mk sampleHash 0 0 50 (go "dir/file.txt")])).
Proof.
  apply (ParsePaths_then_GetFileByPath sampleIndex _ 1 sampleIndex_resolves
           ltac:(vm_compute; reflexivity) [] 0%nat
           (FileRec.mk sampleHash 0 0 50 (go "dir/file.txt"))).
  - reflexivity.
  - discriminate.
Defined.

(** ** GetFileByPath on a well-formed index *)

Section GetFileByPathSafety.

Context `{External}.

Lemma wfIndex_insert (idx : Index) (p : ptr) (r : FileRec.t) :
  wfIndex idx ->
  wfIndex (setFileRecords idx (<[p := r]> (FileRecords idx))).
Proof.
  intros Hwf k q Hq. cbn in *.
  destruct (Hwf k q Hq) as [rec Hrec].
  apply lookup_lt_is_Some. rewrite length_insert.
  now apply lookup_lt_Some in Hrec.
Qed.

(** X14. On a parsed index without nil pointers [GetFileByPath] always
    returns, for every query and every iteration order of the map: it
    never panics, the index it leaves is still free of nil pointers, has
    the same tables and the same records up to [Path] fields, and a
    record it returns is one the map points to. *)
Theorem GetFileByPath_returns (order : list (Z * ptr)) (idx : Index)
    (path : list byte) :
  pathsParsed idx = true ->
  wfIndex idx ->
  order ≡ₚ map_to_list (FilesByPathHash idx) ->
  exists (r : result ptr) (idx' : Index),
    GetFileByPath order idx path = Done (r, idx') /\
    wfIndex idx' /\ pathsParsed idx' = true /\
    FilesByPathHash idx' = FilesByPathHash idx /\
    recordKey <$> FileRecords idx' = recordKey <$> FileRecords idx /\
    forall p, r = Ok p ->
      is_Some (FileRecords idx' !! p) /\
      exists k, FilesByPathHash idx !! k = Some p.
Proof.
  intros Hparsed Hwf Hperm.
  unfold GetFileByPath, lookupByPath. rewrite Hparsed. cbn [negb].
  destruct (NameHash idx path) as [h|e].
  2:{ exists (Err (ErrHashForPath e)), idx. split; [reflexivity|].
      repeat (split; [auto; fail|]). intros p' [=]. }
  destruct (FilesByPathHash idx !! h) as [p|] eqn:Hp.
  - destruct (Hwf h p Hp) as [rec Hrec]. rewrite Hrec.
    destruct (bool_decide (FileRec.Path rec = [])
              && negb (bool_decide (path = []))).
    + eexists _, _. split; [reflexivity|].
      split; [now apply wfIndex_insert|].
      split; [exact Hparsed|]. split; [reflexivity|].
      split; [now apply recordKey_insert|].
      intros p' [= <-]. cbn. split; [|eauto].
      apply lookup_lt_is_Some. rewrite length_insert.
      now apply lookup_lt_Some in Hrec.
    + exists (Ok p), idx. split; [reflexivity|].
      repeat (split; [auto; fail|]). intros p' [= <-]. eauto.
  - assert (Hin : forall k q,
              (k, q) ∈ order <-> FilesByPathHash idx !! k = Some q).
    { intros k q. rewrite Hperm. apply elem_of_map_to_list. }
    destruct (scanByPath_spec (FileRecords idx) order path)
      as [(k & q & rec & Hs & Hkq & Hrec & Hpath)|[Hs Hall]].
    + intros k q Hkq. apply Hin in Hkq. exact (Hwf k q Hkq).
    + rewrite Hs. exists (Ok q), idx. split; [reflexivity|].
      repeat (split; [auto; fail|]). intros p' [= <-].
      apply Hin in Hkq. eauto.
    + rewrite Hs. exists (Err (ErrFileNotFound h)), idx.
      split; [reflexivity|].
      repeat (split; [auto; fail|]). intros p' [=].
Qed.

End GetFileByPathSafety.

Lemma GetFileByPath_returns_witness :
  exists (r : result ptr) (idx' : Index),
    GetFileByPath (map_to_list (FilesByPathHash parsedIndex)) parsedIndex
      (go "Other.txt") = Done (r, idx') /\ wfIndex idx'.
Proof.
  destruct (GetFileByPath_returns
              (map_to_list (FilesByPathHash parsedIndex)) parsedIndex
              (go "Other.txt") eq_refl parsedIndex_wf)
    as (r & idx' & Hget & Hwf & _); [reflexivity|].
  exists r, idx'. split; assumption.
Defined.

(** ** NameHash ignores the case of ASCII letters *)

Lemma asciiLower_idempotent (b : byte) :
  asciiLower (asciiLower b) = asciiLower b.
Proof. destruct b; reflexivity. Qed.

Lemma asciiLower_slash (b : byte) :
  bool_decide (asciiLower b = x2f) = bool_decide (b = x2f).
Proof. destruct b; reflexivity. Qed.

Lemma asciiLower_isASCII (b : byte) : isASCII (asciiLower b) = isASCII b.
Proof. destruct b; reflexivity. Qed.

Lemma endsWithSlash_lower (p : list byte) :
  endsWithSlash (asciiLower <$> p) = endsWithSlash p.
Proof.
  destruct p as [|b p] using rev_ind; [reflexivity|].
  rewrite fmap_app. cbn [fmap list_fmap].
  rewrite !endsWithSlash_snoc. apply asciiLower_slash.
Qed.

Lemma trimSlash_lower (p : list byte) :
  trimSlash (asciiLower <$> p) = asciiLower <$> trimSlash p.
Proof.
  unfold trimSlash. rewrite endsWithSlash_lower, length_fmap.
  destruct (endsWithSlash p); [|reflexivity].
  now rewrite fmap_take.
Qed.

Lemma map_asciiLower_twice (q : list byte) :
  map asciiLower (asciiLower <$> q) = map asciiLower q.
Proof.
  induction q as [|b q IH]; [reflexivity|].
  cbn. now rewrite asciiLower_idempotent, <- IH.
Qed.

Lemma fnv1a64Hash_lower (p : list byte) :
  fnv1a64Hash (asciiLower <$> p) = fnv1a64Hash p.
Proof.
  unfold fnv1a64Hash.
  now rewrite trimSlash_lower, !fnv_loop_lower, map_asciiLower_twice.
Qed.

Section NameHashCase.

Context `{External}.

Lemma strings_ToLower_lower (p : list byte) :
  forallb isASCII p = true ->
  strings_ToLower (asciiLower <$> p) = strings_ToLower p.
Proof.
  intros Hascii. unfold strings_ToLower.
  assert (Hl : forallb isASCII (asciiLower <$> p) = true).
  { rewrite forallb_forall in *. intros b Hb.
    apply in_map_iff in Hb as (b0 & <- & Hb0).
    rewrite asciiLower_isASCII. now apply Hascii. }
  rewrite Hl, Hascii. apply map_asciiLower_twice.
Qed.

(** X15. [NameHash] does not see the case of ASCII letters: a path and
    the path with every byte 'A'..'Z' replaced by its lowercase letter
    give the same result. Under the Murmur discriminator this is shown
    for paths made of ASCII bytes only (others go through the Unicode
    lowering); under any other discriminator for every path. *)
Theorem NameHash_ascii_case (idx : Index) (p : list byte) :
  forallb isASCII p = true \/ ~ usesMurmur idx ->
  NameHash idx (asciiLower <$> p) = NameHash idx p.
Proof.
  intros Hcase. unfold NameHash.
  destruct (Directories idx) as [|d0 ds] eqn:Hd; [reflexivity|].
  rewrite trimSlash_lower.
  destruct (Z.eqb_spec (DirRec.PathHash d0) murmurMagic) as [Hm|Hm].
  - destruct Hcase as [Hascii|Hnot].
    + rewrite strings_ToLower_lower; [reflexivity|].
      unfold trimSlash. destruct (endsWithSlash p); [|assumption].
      rewrite forallb_forall in *. intros b Hb. apply Hascii.
      apply list_elem_of_In. apply list_elem_of_In in Hb.
      apply elem_of_take in Hb as (i & Hi & _).
      eapply list_elem_of_lookup_2. eassumption.
    + exfalso. apply Hnot. unfold usesMurmur. now rewrite Hd.
  - destruct (DirRec.PathHash d0 =? fnvMagic); [|reflexivity].
    now rewrite fnv1a64Hash_lower.
Qed.

End NameHashCase.

Lemma NameHash_ascii_case_witness :
  NameHash idxMurmur (go "art/models/model.geo")
  = NameHash idxMurmur (go "Art/Models/Model.geo") /\
  NameHash idxFnv (go "data/uppercase.dat")
  = NameHash idxFnv (go "Data/UPPERCASE.DAT").
Proof.
  split.
  - apply (NameHash_ascii_case idxMurmur (go "Art/Models/Model.geo")).
    left. reflexivity.
  - apply (NameHash_ascii_case idxFnv (go "Data/UPPERCASE.DAT")).
    left. reflexivity.
Defined.

(** ** OpenIndex: the index it builds *)

Lemma readInt32_Some (r r' : list byte) (v : Z) :
  readInt32 r = Some (v, r') -> r' = drop 4 r /\ v = getInt32 r 0.
Proof.
  unfold readInt32. destruct (length r <? 4)%nat; [discriminate|].
  now intros [= <- <-].
Qed.

Lemma readBundleRecords_shape (todo : nat) :
  forall (i : Z) (r r' : list byte) (bundles bundles' : list BundleRec.t)
         (custom custom' : list nat),
    readBundleRecords todo i r bundles custom = Parsed (r', bundles', custom') ->
    i = Z.of_nat (length bundles) ->
    (forall j b, bundles !! j = Some b ->
       BundleRec.BundleIndex b = Z.of_nat j /\ BundleRec.Files b = []) ->
    length bundles' = (length bundles + todo)%nat /\
    (forall j b, bundles' !! j = Some b ->
       BundleRec.BundleIndex b = Z.of_nat j /\ BundleRec.Files b = []).
Proof.
  induction todo as [|todo IH];
    intros i r r' bundles bundles' custom custom' Hread Hi Hinv.
  - injection Hread as <- <- <-. split; [lia|assumption].
  - cbn [readBundleRecords] in Hread.
    destruct (readInt32 r) as [[pathLength r1]|]; [|discriminate].
    destruct ((pathLength <? 0) || (1024 <? pathLength)); [discriminate|].
    destruct (length r1 <? Z.to_nat pathLength)%nat; [discriminate|].
    destruct (readInt32 (drop (Z.to_nat pathLength) r1))
      as [[usize r2]|]; [|discriminate].
    apply IH in Hread as [Hlen Hall].
    + split; [|exact Hall]. rewrite Hlen, length_app. simpl. lia.
    + rewrite length_app. simpl. lia.
    + intros j b Hb.
      destruct (decide (j < length bundles)%nat) as [Hlt|Hge].
      * rewrite lookup_app_l in Hb by assumption. now apply Hinv.
      * rewrite lookup_app_r in Hb by lia.
        destruct (j - length bundles)%nat as [|n] eqn:Hj; [|now destruct n].
        injection Hb as <-. cbn. split; [lia|reflexivity].
Qed.

Lemma filesInv_step (bundles : list BundleRec.t) (store : list FileRec.t)
    (m : gmap Z ptr) (pathHash offsetVal sizeVal : Z) (bi : nat) :
  (bi < length bundles)%nat ->
  filesInv bundles store m ->
  filesInv (alter (addFile (length store)) bi bundles)
           (store ++ [FileRec.mk pathHash bi offsetVal sizeVal []])
           (<[pathHash := length store]> m).
Proof.
  intros Hbi (Hmap & Hrec & Hbun). unfold filesInv, indexConsistent in *.
  cbn [FilesByPathHash FileRecords Bundles] in *.
  destruct (lookup_lt_is_Some_2 bundles bi Hbi) as [b0 Hb0].
  split; [|split].
  - intros k p Hk. rewrite lookup_insert in Hk.
    destruct (decide (pathHash = k)) as [<-|Hne].
    + injection Hk as <-.
      exists (FileRec.mk pathHash bi offsetVal sizeVal []).
      split; [|reflexivity].
      rewrite lookup_app_r by lia. now rewrite Nat.sub_diag.
    + destruct (Hmap k p Hk) as (rec & Hr & Hh).
      exists rec. split; [|assumption].
      rewrite lookup_app_l; [assumption|]. now apply lookup_lt_Some in Hr.
  - intros p rec Hp.
    destruct (decide (p < length store)%nat) as [Hlt|Hge].
    + rewrite lookup_app_l in Hp by assumption.
      destruct (Hrec p rec Hp) as (Hpath & Hsome & b & Hb & Hin).
      split; [assumption|]. split.
      * rewrite lookup_insert. destruct (decide _); [eauto|assumption].
      * destruct (decide (FileRec.BundleRecord rec = bi)) as [Heq|Hne].
        -- exists (addFile (length store) b). split.
           ++ rewrite Heq in *. rewrite list_lookup_alter_eq, Hb.
              reflexivity.
           ++ cbn. apply elem_of_app. now left.
        -- exists b. split; [|assumption].
           rewrite list_lookup_alter_ne by congruence. assumption.
    + rewrite lookup_app_r in Hp by lia.
      destruct (p - length store)%nat as [|n] eqn:Hn; [|now destruct n].
      injection Hp as <-. cbn. split; [reflexivity|]. split.
      * rewrite lookup_insert_eq. eauto.
      * exists (addFile (length store) b0). split.
        -- rewrite list_lookup_alter_eq, Hb0. reflexivity.
        -- cbn. apply elem_of_app. right.
           replace p with (length store) by lia. apply list_elem_of_here.
  - intros i b Hb.
    destruct (decide (i = bi)) as [->|Hne].
    + rewrite list_lookup_alter_eq, Hb0 in Hb. injection Hb as <-.
      destruct (Hbun bi b0 Hb0) as [Hidx Hfiles].
      split; [exact Hidx|]. cbn. intros p Hp.
      apply elem_of_app in Hp as [Hp|Hp].
      * destruct (Hfiles p Hp) as (rec & Hr & Hbr).
        exists rec. split; [|assumption].
        rewrite lookup_app_l; [assumption|]. now apply lookup_lt_Some in Hr.
      * apply list_elem_of_singleton in Hp as ->.
        exists (FileRec.mk pathHash bi offsetVal sizeVal []).
        split; [|reflexivity].
        rewrite lookup_app_r by lia. now rewrite Nat.sub_diag.
    + rewrite list_lookup_alter_ne in Hb by congruence.
      destruct (Hbun i b Hb) as [Hidx Hfiles].
      split; [exact Hidx|]. intros p Hp.
      destruct (Hfiles p Hp) as (rec & Hr & Hbr).
      exists rec. split; [|assumption].
      rewrite lookup_app_l; [assumption|]. now apply lookup_lt_Some in Hr.
Qed.

Lemma readFileRecords_inv (todo : nat) :
  forall (i bundleCount : Z) (r r' : list byte)
         (bundles bundles' : list BundleRec.t)
         (store store' : list FileRec.t) (m m' : gmap Z ptr),
    readFileRecords todo i bundleCount r bundles store m
      = Parsed (r', bundles', store', m') ->
    bundleCount = Z.of_nat (length bundles) ->
    filesInv bundles store m ->
    filesInv bundles' store' m' /\
    length bundles' = length bundles /\
    length store' = (length store + todo)%nat.
Proof.
  induction todo as [|todo IH];
    intros i bundleCount r r' bundles bundles' store store' m m'
           Hread Hcount Hinv.
  - injection Hread as <- <- <- <-. split; [assumption|split; lia].
  - cbn [readFileRecords] in Hread.
    destruct (readUint64 r) as [[pathHash r1]|]; [|discriminate].
    destruct (readInt32 r1) as [[bidx r2]|]; [|discriminate].
    destruct (Z.ltb_spec bidx 0); [discriminate|].
    destruct (Z.leb_spec bundleCount bidx); [discriminate|].
    cbn [orb] in Hread.
    destruct (readInt32 r2) as [[offsetVal r3]|]; [|discriminate].
    destruct (readInt32 r3) as [[sizeVal r4]|]; [|discriminate].
    apply IH in Hread as (Hinv' & Hlen & Hstore).
    + split; [exact Hinv'|].
      rewrite Hlen, Hstore, length_alter, length_app. simpl. lia.
    + now rewrite length_alter.
    + apply filesInv_step; [lia|assumption].
Qed.

Section OpenIndexShape.

Context `{External}.

(** X16. Every index that [OpenIndex] returns is consistent: each map
    entry points to an existing record with that hash (so no pointer is
    nil), each record has an empty path, a map entry for its hash, and
    is listed in the [Files] of the bundle it names, each bundle record
    carries its own position and lists only its own records; the index
    is not yet parsed and its dictionary bytes are present (possibly
    empty). *)
Theorem OpenIndex_consistent (opened : option (list byte)) (idx : Index)
    (custom : list nat) :
  OpenIndex opened = Done (Parsed (idx, custom)) ->
  indexConsistent idx /\ wfIndex idx /\ pathsParsed idx = false /\
  is_Some (DirectoryBundleData idx) /\
  pathsResolve idx (FileRecords idx).
Proof.
  unfold OpenIndex.
  destruct (OpenBundleFile opened None false) as [[b|e] rec];
    [|discriminate].
  destruct (ReadFull b) as [[[indexData|e] b']|]; try discriminate.
  intros [= Hparse]. revert Hparse. unfold parseIndex.
  destruct (readInt32 indexData) as [[bundleCount r0]|]; [|discriminate].
  destruct (Z.ltb_spec bundleCount 0); [discriminate|].
  destruct (readBundleRecords (Z.to_nat bundleCount) 0 r0 [] [])
    as [[[r1 bundles] custom1]|] eqn:Hb; [|discriminate].
  apply readBundleRecords_shape in Hb as [Hblen Hball];
    [|reflexivity|intros j b0 Hj; now rewrite lookup_nil in Hj].
  destruct (readInt32 r1) as [[fileCount r2]|]; [|discriminate].
  destruct (Z.ltb_spec fileCount 0); [discriminate|].
  destruct (readFileRecords (Z.to_nat fileCount) 0 bundleCount r2 bundles [] ∅)
    as [[[[r3 bundles'] store] m]|] eqn:Hf; [|discriminate].
  apply readFileRecords_inv in Hf as (Hinv & _ & _).
  2:{ rewrite Hblen. simpl. lia. }
  2:{ unfold filesInv, indexConsistent. cbn. split; [|split].
      - intros k p Hk. now rewrite lookup_empty in Hk.
      - intros p rec0 Hp. now rewrite lookup_nil in Hp.
      - intros i b0 Hi. destruct (Hball i b0 Hi) as [Hidx Hfiles].
        split; [assumption|]. rewrite Hfiles. intros p Hp. inversion Hp. }
  destruct (readInt32 r3) as [[directoryCount r4]|]; [|discriminate].
  destruct (Z.ltb_spec directoryCount 0); [discriminate|].
  destruct (readDirectoryRecords (Z.to_nat directoryCount) 0 r4 [])
    as [[r5 dirs]|]; [|discriminate].
  intros [= <- <-].
  assert (Hcons : indexConsistent
                    (mkIndex bundles' store m dirs (Some r5) false))
    by exact Hinv.
  split; [exact Hcons|]. destruct Hcons as (Hmap & Hrec & _).
  cbn [FilesByPathHash FileRecords] in *.
  repeat split.
  - intros k p Hk. cbn. destruct (Hmap k p Hk) as (rec0 & Hr & _). eauto.
  - cbn. eauto.
  - intros p rec0 Hp Hne. cbn in Hp.
    destruct (Hrec p rec0 Hp) as (Hpath & _). contradiction.
Qed.

End OpenIndexShape.

Lemma OpenIndex_consistent_witness :
  exists (idx : Index) (custom : list nat),
    OpenIndex (Some mockIndexFile) = Done (Parsed (idx, custom)) /\
    indexConsistent idx /\ wfIndex idx /\
    length (Bundles idx) = 2%nat /\ size (FilesByPathHash idx) = 6%nat /\
    length (Directories idx) = 1%nat.
Proof.
  assert (Hopen : exists idx custom,
            OpenIndex (Some mockIndexFile) = Done (Parsed (idx, custom)) /\
            length (Bundles idx) = 2%nat /\
            size (FilesByPathHash idx) = 6%nat /\
            length (Directories idx) = 1%nat).
  { eexists _, _. split; [vm_compute; reflexivity|].
    repeat split; vm_compute; reflexivity. }
  destruct Hopen as (idx & custom & Hopen & Hb & Hf & Hd).
  destruct (OpenIndex_consistent (Some mockIndexFile) idx custom Hopen)
    as (Hcons & Hwf & _).
  exists idx, custom.
  split; [exact Hopen|]. split; [exact Hcons|]. split; [exact Hwf|].
  split; [exact Hb|]. split; [exact Hf|exact Hd].
Defined.

(** ** OpenIndex reads back what was written *)

Lemma readInt32_putInt32 (z : Z) (rest : list byte) :
  in_int32 z -> readInt32 (putInt32 z ++ rest) = Some (z, rest).
Proof.
  intros Hz. unfold readInt32.
  destruct (Nat.ltb_spec (length (putInt32 z ++ rest)) 4) as [Hs|_].
  { rewrite length_app in Hs. simpl in Hs. lia. }
  rewrite getInt32_putInt32 by assumption.
  now rewrite drop_app_length' by reflexivity.
Qed.

Lemma leUint_putUint64 (z : Z) (rest : list byte) :
  in_u64 z -> leUint (take 8 (putUint64 z ++ rest)) = z.
Proof.
  intros Hz. unfold putUint64.
  rewrite take_app_length' by reflexivity.
  rewrite leUint_leBytes. apply Z.mod_small. exact Hz.
Qed.

Lemma readUint64_putUint64 (z : Z) (rest : list byte) :
  in_u64 z -> readUint64 (putUint64 z ++ rest) = Some (z, rest).
Proof.
  intros Hz. unfold readUint64.
  destruct (Nat.ltb_spec (length (putUint64 z ++ rest)) 8) as [Hs|_].
  { rewrite length_app in Hs. simpl in Hs. lia. }
  rewrite leUint_putUint64 by assumption.
  now rewrite drop_app_length' by reflexivity.
Qed.

Lemma readBundleRecords_written (bs : list (list byte * Z)) :
  forall (i : Z) (rest : list byte) (bundles : list BundleRec.t)
         (custom : list nat),
    Forall (fun b => Z.of_nat (length b.1) <= 1024 /\ in_int32 b.2) bs ->
    exists bundles' custom',
      readBundleRecords (length bs) i (flat_map putBundleRecord bs ++ rest)
        bundles custom = Parsed (rest, bundles', custom') /\
      bundleEntry <$> bundles' = (bundleEntry <$> bundles) ++ bs.
Proof.
  induction bs as [|[path usize] bs IH]; intros i rest bundles custom Hbs.
  - exists bundles, custom. split; [reflexivity|]. now rewrite app_nil_r.
  - apply Forall_cons in Hbs as [[Hlen Hsize] Hbs]. cbn [fst snd] in *.
    cbn [length flat_map readBundleRecords]. unfold putBundleRecord at 1.
    cbn [fst snd]. rewrite <- !app_assoc.
    rewrite readInt32_putInt32 by (unfold in_int32; lia).
    destruct (Z.ltb_spec (Z.of_nat (length path)) 0); [lia|].
    destruct (Z.ltb_spec 1024 (Z.of_nat (length path))); [lia|].
    cbn [orb]. rewrite Nat2Z.id.
    destruct (Nat.ltb_spec
                (length (path ++ putInt32 usize
                         ++ flat_map putBundleRecord bs ++ rest))
                (length path)) as [Hs|_].
    { rewrite length_app in Hs. lia. }
    rewrite take_app_length, drop_app_length.
    rewrite readInt32_putInt32 by assumption.
    destruct (IH (i + 1) rest
                (bundles ++ [BundleRec.mk path usize i []])
                (if hasPrefix path (go "LibGGPK3/")
                 then custom ++ [length bundles] else custom) Hbs)
      as (bundles' & custom' & Hread & Hentries).
    exists bundles', custom'. split; [exact Hread|].
    rewrite Hentries, fmap_app, <- app_assoc. reflexivity.
Qed.

Lemma readFileRecords_written (fs : list (Z * Z * Z * Z)) :
  forall (i bundleCount : Z) (rest : list byte) (bundles : list BundleRec.t)
         (store : list FileRec.t) (m : gmap Z ptr),
    bundleCount < 2 ^ 31 ->
    Forall (fun f => in_u64 f.1.1.1 /\ 0 <= f.1.1.2 < bundleCount /\
                     in_int32 f.1.2 /\ in_int32 f.2) fs ->
    exists bundles' store' m',
      readFileRecords (length fs) i bundleCount
        (flat_map putFileRecord fs ++ rest) bundles store m
        = Parsed (rest, bundles', store', m') /\
      bundleEntry <$> bundles' = bundleEntry <$> bundles /\
      fileEntry <$> store' = (fileEntry <$> store) ++ fs /\
      forall k, is_Some (m' !! k) <->
                is_Some (m !! k) \/ k ∈ (fun f => f.1.1.1) <$> fs.
Proof.
  induction fs as [|[[[hash bidx] off] sz] fs IH];
    intros i bundleCount rest bundles store m Hmax Hfs.
  - exists bundles, store, m. split; [reflexivity|].
    rewrite app_nil_r. repeat split; try tauto.
    intros [Hk|Hk]; [assumption|inversion Hk].
  - apply Forall_cons in Hfs as [(Hh & Hb & Ho & Hs) Hfs]. cbn [fst snd] in *.
    cbn [length flat_map readFileRecords]. unfold putFileRecord at 1.
    cbn [fst snd]. rewrite <- !app_assoc.
    rewrite readUint64_putUint64 by assumption.
    rewrite readInt32_putInt32 by (unfold in_int32; lia).
    destruct (Z.ltb_spec bidx 0); [lia|].
    destruct (Z.leb_spec bundleCount bidx); [lia|].
    cbn [orb]. rewrite !readInt32_putInt32 by assumption.
    destruct (IH (i + 1) bundleCount rest
                (alter (addFile (length store)) (Z.to_nat bidx) bundles)
                (store ++ [FileRec.mk hash (Z.to_nat bidx) off sz []])
                (<[hash := length store]> m) Hmax Hfs)
      as (bundles' & store' & m' & Hread & Hbe & Hfe & Hdom).
    exists bundles', store', m'. split; [exact Hread|]. split; [|split].
    + rewrite Hbe.
      rewrite (list_fmap_alter bundleEntry (addFile (length store)) id)
        by (apply Forall_true; intros b; reflexivity).
      apply list_alter_id. reflexivity.
    + rewrite Hfe, fmap_app, <- app_assoc. cbn. unfold fileEntry at 2.
      cbn. rewrite Z2Nat.id by lia. reflexivity.
    + intros k. rewrite Hdom, lookup_insert. cbn [fmap list_fmap fst].
      rewrite elem_of_cons.
      destruct (decide (hash = k)) as [->|Hne]; split.
      * intros _. right. now left.
      * intros _. left. eauto.
      * intros [Hk|Hk]; [now left|right; now right].
      * intros [Hk|[Hk|Hk]]; [now left|congruence|now right].
Qed.

Lemma readDirectoryRecords_written (ds : list DirRec.t) :
  forall (i : Z) (rest : list byte) (dirs : list DirRec.t),
    Forall (fun d => in_u64 (DirRec.PathHash d) /\ in_int32 (DirRec.Offset d)
                     /\ in_int32 (DirRec.Size d)
                     /\ in_int32 (DirRec.RecursiveSize d)) ds ->
    readDirectoryRecords (length ds) i (flat_map putDirRecord ds ++ rest) dirs
    = Parsed (rest, dirs ++ ds).
Proof.
  induction ds as [|d ds IH]; intros i rest dirs Hds.
  - cbn. now rewrite app_nil_r.
  - apply Forall_cons in Hds as [(Hh & Ho & Hs & Hr) Hds].
    cbn [length readDirectoryRecords].
    change (flat_map putDirRecord (d :: ds))
      with (putDirRecord d ++ flat_map putDirRecord ds).
    rewrite <- app_assoc. set (tail := flat_map putDirRecord ds ++ rest).
    unfold putDirRecord. rewrite <- !app_assoc.
    destruct (Nat.ltb_spec
                (length (putUint64 (DirRec.PathHash d)
                         ++ putInt32 (DirRec.Offset d)
                         ++ putInt32 (DirRec.Size d)
                         ++ putInt32 (DirRec.RecursiveSize d) ++ tail)) 20)
      as [Hshort|_].
    { rewrite !length_app in Hshort. simpl in Hshort. lia. }
    rewrite leUint_putUint64 by assumption.
    rewrite (getInt32_skip (putUint64 _) _ 0), getInt32_putInt32 by assumption.
    rewrite (getInt32_skip (putUint64 _) _ 4),
      (getInt32_skip (putInt32 _) _ 0), getInt32_putInt32 by assumption.
    rewrite (getInt32_skip (putUint64 _) _ 8),
      (getInt32_skip (putInt32 _) _ 4), (getInt32_skip (putInt32 _) _ 0),
      getInt32_putInt32 by assumption.
    replace (drop 20 _) with tail.
    2:{ rewrite (drop_app_add' (putUint64 _) _ 8 12) by reflexivity.
        rewrite (drop_app_add' (putInt32 _) _ 4 8) by reflexivity.
        rewrite (drop_app_add' (putInt32 _) _ 4 4) by reflexivity.
        now rewrite drop_app_length' by reflexivity. }
    unfold tail. rewrite IH by assumption. rewrite <- app_assoc.
    destruct d. reflexivity.
Qed.

Lemma parseIndex_written (bs : list (list byte * Z))
    (fs : list (Z * Z * Z * Z)) (ds : list DirRec.t) (data : list byte) :
  tablesInRange bs fs ds ->
  exists (idx : Index) (custom : list nat),
    parseIndex (putIndexContent bs fs ds data) = Parsed (idx, custom) /\
    bundleEntry <$> Bundles idx = bs /\
    fileEntry <$> FileRecords idx = fs /\
    Directories idx = ds /\
    DirectoryBundleData idx = Some data /\
    forall k, is_Some (FilesByPathHash idx !! k)
              <-> k ∈ (fun f => f.1.1.1) <$> fs.
Proof.
  intros (Hnb & Hnf & Hnd & Hbs & Hfs & Hds).
  unfold parseIndex, putIndexContent.
  rewrite readInt32_putInt32 by (unfold in_int32; lia).
  destruct (Z.ltb_spec (Z.of_nat (length bs)) 0); [lia|].
  rewrite Nat2Z.id.
  destruct (readBundleRecords_written bs 0
              (putInt32 (Z.of_nat (length fs)) ++ flat_map putFileRecord fs
               ++ putInt32 (Z.of_nat (length ds)) ++ flat_map putDirRecord ds
               ++ data) [] [] Hbs)
    as (bundles & custom & -> & Hbe).
  rewrite readInt32_putInt32 by (unfold in_int32; lia).
  destruct (Z.ltb_spec (Z.of_nat (length fs)) 0); [lia|].
  rewrite Nat2Z.id.
  destruct (readFileRecords_written fs 0 (Z.of_nat (length bs))
              (putInt32 (Z.of_nat (length ds)) ++ flat_map putDirRecord ds
               ++ data) bundles [] ∅ Hnb Hfs)
    as (bundles' & store & m & -> & Hbe' & Hfe & Hdom).
  rewrite readInt32_putInt32 by (unfold in_int32; lia).
  destruct (Z.ltb_spec (Z.of_nat (length ds)) 0); [lia|].
  rewrite Nat2Z.id, readDirectoryRecords_written by assumption.
  eexists _, _. split; [reflexivity|].
  cbn [Bundles FileRecords Directories DirectoryBundleData FilesByPathHash].
  repeat split.
  - now rewrite Hbe', Hbe.
  - exact Hfe.
  - intros Hk. apply Hdom in Hk as [Hk|Hk]; [|assumption].
    rewrite lookup_empty in Hk. now destruct Hk.
  - intros Hk. apply Hdom. now right.
Qed.

Section OpenIndexRoundTrip.

Context `{External}.

(** X17. Writing the three tables and the dictionary bytes of an index
    as the package's tests do, storing them as the single chunk of a
    bundle with compressor NONE, and opening that file with [OpenIndex]
    gives back the bundle table, the file records in order, the
    directory records and the dictionary bytes; the map has an entry for
    exactly the hashes that occur in the file table. *)
Theorem OpenIndex_roundtrip (cs : Z) (bs : list (list byte * Z))
    (fs : list (Z * Z * Z * Z)) (ds : list DirRec.t) (data : list byte) :
  tablesInRange bs fs ds ->
  in_int32 cs ->
  Z.of_nat (length (putIndexContent bs fs ds data)) < 2 ^ 31 ->
  exists (idx : Index) (custom : list nat),
    OpenIndex (Some (noneBundleFile cs [putIndexContent bs fs ds data]))
      = Done (Parsed (idx, custom)) /\
    bundleEntry <$> Bundles idx = bs /\
    fileEntry <$> FileRecords idx = fs /\
    Directories idx = ds /\
    DirectoryBundleData idx = Some data /\
    forall k, is_Some (FilesByPathHash idx !! k)
              <-> k ∈ (fun f => f.1.1.1) <$> fs.
Proof.
  intros Htables Hcs Hlen.
  set (content := putIndexContent bs fs ds data) in *.
  assert (Hl : laidOut cs [content]).
  { unfold laidOut, totalLength. cbn [concat length].
    rewrite app_nil_r.
    split; [exact Hcs|]. split; [lia|]. split; [lia|].
    intros i c Hc Hlt. simpl in Hlt. lia. }
  destruct (parseIndex_written bs fs ds data Htables)
    as (idx & custom & Hparse & Hrest).
  exists idx, custom. split; [|exact Hrest].
  unfold OpenIndex.
  rewrite OpenBundleFile_noneBundleFile by assumption.
  cbn [syncRecord]. unfold noneBundleFile.
  rewrite (app_assoc (putHeader _)).
  rewrite <- (app_nil_r (concat [content])) at 1.
  rewrite (ReadFull_none_laidOut cs [content] _ [] None false Hl).
  - cbn [concat]. rewrite app_nil_r. subst content. now rewrite Hparse.
  - rewrite length_app, length_putHeader, length_putInt32s.
    unfold chunkLengths. rewrite length_map. simpl. lia.
Qed.

End OpenIndexRoundTrip.

Lemma mockTables_in_range :
  tablesInRange
    [(go "Bundle0", 1000); (go "Bundle1", 2000)]
    [(0x1000000000000000, 0, 0, 50); (0x1000000000000001, 0, 100, 50);
     (0x1000000000000002, 0, 200, 50); (0x1000000000000003, 1, 0, 50);
     (0x1000000000000004, 1, 100, 50); (0x1000000000000005, 1, 200, 50)]
    [DirRec.mk 0x2000000000000000 0 10 20].
Proof.
  unfold tablesInRange, in_int32, in_u64.
  repeat split; repeat constructor; cbn; lia.
Qed.

Lemma OpenIndex_roundtrip_witness :
  exists (idx : Index) (custom : list nat),
    OpenIndex (Some (noneBundleFile 262144 [mockIndexContent]))
      = Done (Parsed (idx, custom)) /\
    bundleEntry <$> Bundles idx = [(go "Bundle0", 1000); (go "Bundle1", 2000)]
    /\ DirectoryBundleData idx = Some (replicate 10 x00).
Proof.
  destruct (OpenIndex_roundtrip 262144 _ _ _ (replicate 10 x00)
              mockTables_in_range)
    as (idx & custom & Hopen & Hb & _ & _ & Hd & _).
  - by_evaluation.
  - by_evaluation.
  - exists idx, custom. split; [exact Hopen|]. split; [exact Hb|exact Hd].
Defined.

(** ** Index.ReadFileData through the drive factory *)

Lemma ReadFull_noneBundleFile `{External} (cs : Z)
    (chunks : list (list byte)) (rec : option BundleRec.t) (lo : bool) :
  laidOut cs chunks ->
  let b := mkBundle (Some (noneBundleFile cs chunks)) (noneHeader cs chunks)
             (chunkLengths chunks) rec lo None in
  ReadFull b
  = Done (Ok (concat chunks),
          if totalLength chunks =? 0 then b
          else setCachedContent b (concat chunks)).
Proof.
  intros Hl.
  replace (noneBundleFile cs chunks)
    with ((putHeader (noneHeader cs chunks) ++ putInt32s (chunkLengths chunks))
          ++ concat chunks ++ [])
    by (unfold noneBundleFile; now rewrite app_nil_r, app_assoc).
  apply (ReadFull_none_laidOut cs chunks _ [] rec lo Hl).
  rewrite length_app, length_putHeader, length_putInt32s.
  unfold chunkLengths. rewrite length_map. lia.
Qed.

Section ReadFileDataDrive.

Context `{External}.

Variable disk : list byte -> option (list byte).
Variable join : list byte -> list byte -> list byte.
Variable basePath : list byte.

(** The drive factory opens the bundle that the file record names. *)
Lemma GetBundleForFileRecord_drive (idx : Index) (rec : FileRec.t)
    (record : BundleRec.t) (cs : Z) (chunks : list (list byte)) :
  Bundles idx !! FileRec.BundleRecord rec = Some record ->
  disk (join basePath (BundleRec.Path record ++ go ".bundle.bin"))
    = Some (noneBundleFile cs chunks) ->
  laidOut cs chunks ->
  let record' :=
    BundleRec.mk (BundleRec.Path record) (totalLength chunks)
      (BundleRec.BundleIndex record) (BundleRec.Files record) in
  GetBundleForFileRecord
    (Some (DriveBundleFactory_GetBundle disk join basePath)) idx (Some rec)
  = (Data (mkBundle (Some (noneBundleFile cs chunks)) (noneHeader cs chunks)
             (chunkLengths chunks) (Some record') false None),
     setBundles idx (<[FileRec.BundleRecord rec := record']> (Bundles idx))).
Proof.
  intros Hrecord Hdisk Hl record'.
  unfold GetBundleForFileRecord, DriveBundleFactory_GetBundle.
  rewrite Hrecord, Hdisk.
  rewrite OpenBundleFile_noneBundleFile by assumption.
  reflexivity.
Qed.

(** A window inside a freshly opened bundle with compressor NONE. *)
Lemma ReadAt_none_window (cs : Z) (chunks : list (list byte))
    (rec : option BundleRec.t) (lo : bool) (offset size : Z) :
  laidOut cs chunks ->
  0 <= offset -> 0 <= size -> offset + size <= totalLength chunks ->
  exists b',
    ReadAt (mkBundle (Some (noneBundleFile cs chunks)) (noneHeader cs chunks)
              (chunkLengths chunks) rec lo None) offset size
    = Done (Ok (take (Z.to_nat size) (drop (Z.to_nat offset) (concat chunks))),
            b').
Proof.
  intros Hl Hoff Hsize Hfit.
  pose proof Hl as (Hcs & Hn & Htot & _).
  set (b := mkBundle _ _ _ _ _ _).
  destruct (Z.eq_dec size 0) as [->|Hnz].
  - exists b. unfold ReadAt. subst b. cbn [File]. reflexivity.
  - eexists. rewrite ReadAt_in_bounds; subst b;
      cbn [File Header noneHeader UncompressedSize cachedContent];
      try lia; try discriminate; try exact I.
    rewrite (ReadFull_noneBundleFile cs chunks _ _ Hl). reflexivity.
Qed.

(** X18. With the drive factory, reading the data of a file record
    whose bundle is stored on disk with compressor NONE, and whose
    window lies inside the bundle's content, returns exactly the
    [Size] bytes at [Offset] of the concatenated chunks; in the index
    only the [UncompressedSize] of the bundle record is changed, to the
    size the bundle's header states. *)
Theorem ReadFileData_drive_none (idx : Index) (rec : FileRec.t)
    (record : BundleRec.t) (cs : Z) (chunks : list (list byte)) :
  Bundles idx !! FileRec.BundleRecord rec = Some record ->
  disk (join basePath (BundleRec.Path record ++ go ".bundle.bin"))
    = Some (noneBundleFile cs chunks) ->
  laidOut cs chunks ->
  0 <= FileRec.Offset rec -> 0 <= FileRec.Size rec ->
  FileRec.Offset rec + FileRec.Size rec <= totalLength chunks ->
  ReadFileData (Some (DriveBundleFactory_GetBundle disk join basePath))
    idx (Some rec)
  = Done (Data (take (Z.to_nat (FileRec.Size rec))
                  (drop (Z.to_nat (FileRec.Offset rec)) (concat chunks))),
          setBundles idx
            (<[FileRec.BundleRecord rec :=
                 BundleRec.mk (BundleRec.Path record) (totalLength chunks)
                   (BundleRec.BundleIndex record) (BundleRec.Files record)]>
               (Bundles idx))).
Proof.
  intros Hrecord Hdisk Hl Hoff Hsize Hfit.
  unfold ReadFileData.
  rewrite (GetBundleForFileRecord_drive idx rec record cs chunks
             Hrecord Hdisk Hl).
  destruct (ReadAt_none_window cs chunks
              (Some (BundleRec.mk (BundleRec.Path record) (totalLength chunks)
                       (BundleRec.BundleIndex record)
                       (BundleRec.Files record)))
              false _ _ Hl Hoff Hsize Hfit) as [b' ->].
  reflexivity.
Qed.

(** X19. The offset and the size of a file record are not checked
    against each other anywhere: for a record whose [Offset + Size]
    exceeds the [int32] range, reading its data from a healthy bundle
    with compressor NONE ends in a run-time panic, not in an error. *)
Theorem ReadFileData_wrapped_window_panics (idx : Index) (rec : FileRec.t)
    (record : BundleRec.t) (cs : Z) (chunks : list (list byte)) :
  Bundles idx !! FileRec.BundleRecord rec = Some record ->
  disk (join basePath (BundleRec.Path record ++ go ".bundle.bin"))
    = Some (noneBundleFile cs chunks) ->
  laidOut cs chunks ->
  0 <= FileRec.Offset rec < 2 ^ 31 -> 0 < FileRec.Size rec < 2 ^ 31 ->
  2 ^ 31 <= FileRec.Offset rec + FileRec.Size rec ->
  ReadFileData (Some (DriveBundleFactory_GetBundle disk join basePath))
    idx (Some rec)
  = Panic.
Proof.
  intros Hrecord Hdisk Hl Hoff Hsize Hsum.
  unfold ReadFileData, GetBundleForFileRecord, DriveBundleFactory_GetBundle.
  rewrite Hrecord, Hdisk.
  rewrite OpenBundleFile_noneBundleFile by assumption.
  cbn [syncRecord].
  erewrite ReadAt_wrapped_sum_panics; [reflexivity|lia|lia|lia|].
  apply (ReadFull_noneBundleFile cs chunks _ false Hl).
Qed.

End ReadFileDataDrive.

Lemma ReadFileData_drive_none_witness :
  ReadFileData
    (Some (DriveBundleFactory_GetBundle dataDisk dataJoin (go "/data")))
    dataIndex (Some dataRecord)
  = Done (Data (replicate 10 x41 ++ replicate 10 x42),
          setBundles dataIndex [BundleRec.mk (go "Bundle0") 150 0 [0%nat]]).
Proof.
  apply (ReadFileData_drive_none dataDisk dataJoin (go "/data") dataIndex
           dataRecord (BundleRec.mk (go "Bundle0") 1000 0 [0%nat])
           100 scenarioChunks).
  - reflexivity.
  - reflexivity.
  - exact scenario_laidOut.
  - simpl. lia.
  - simpl. lia.
  - vm_compute. discriminate.
Defined.

Lemma ReadFileData_wrapped_window_panics_witness :
  ReadFileData
    (Some (DriveBundleFactory_GetBundle dataDisk dataJoin (go "/data")))
    dataIndex (Some (FileRec.mk 0x1000000000000000 0 2147483647 1 []))
  = Panic.
Proof.
  apply (ReadFileData_wrapped_window_panics dataDisk dataJoin (go "/data")
           dataIndex (FileRec.mk 0x1000000000000000 0 2147483647 1 [])
           (BundleRec.mk (go "Bundle0") 1000 0 [0%nat]) 100 scenarioChunks).
  - reflexivity.
  - reflexivity.
  - exact scenario_laidOut.
  - simpl. lia.
  - simpl. lia.
  - simpl. lia.
Defined.

(** ** The chunk targets of a header *)

Lemma targets_before_last (h : BundleHeader) (n : nat) :
  Z.of_nat n <= ChunkCount h - 1 -> in_int32 (ChunkCount h) ->
  foldr Z.add 0 (uncompressedChunkTargetSize h <$> seqZ 0 (Z.of_nat n))
  = Z.of_nat n * ChunkSize h.
Proof.
  intros Hn Hc. induction n as [|n IH]; [reflexivity|].
  rewrite Nat2Z.inj_succ, <- Z.add_1_r, seqZ_app by lia.
  rewrite fmap_app, foldr_app. cbn [seqZ].
  replace (seqZ (0 + Z.of_nat n) 1) with [Z.of_nat n] by reflexivity.
  cbn [fmap list_fmap foldr].
  unfold uncompressedChunkTargetSize at 1.
  rewrite wrap32_id by (unfold in_int32 in *; lia).
  destruct (Z.eqb_spec (Z.of_nat n) (ChunkCount h - 1)); [lia|].
  assert (Hshift : forall (l : list Z) (a : Z),
             foldr Z.add a l = foldr Z.add 0 l + a).
  { induction l as [|x l IHl]; intros a; cbn [foldr]; [lia|].
    rewrite IHl. lia. }
  rewrite Hshift, IH by lia. lia.
Qed.

(** X20. The sizes the chunk loop of [ReadFull] expects add up to the
    uncompressed size of the header: every chunk but the last has the
    chunk size, and [GetLastChunkUncompressedSize] is what remains,
    provided the [int32] product and difference it computes do not
    wrap. *)
Theorem chunk_targets_partition (h : BundleHeader) :
  0 < ChunkCount h -> in_int32 (ChunkCount h) ->
  in_int32 (ChunkSize h * (ChunkCount h - 1)) ->
  in_int32 (UncompressedSize h - ChunkSize h * (ChunkCount h - 1)) ->
  foldr Z.add 0 (uncompressedChunkTargetSize h <$> seqZ 0 (ChunkCount h))
  = UncompressedSize h.
Proof.
  intros Hpos Hc Hprod Hdiff.
  replace (ChunkCount h) with (Z.of_nat (Z.to_nat (ChunkCount h - 1)) + 1)
    at 1 by lia.
  rewrite seqZ_app by lia.
  rewrite fmap_app, foldr_app.
  replace (seqZ (0 + Z.of_nat (Z.to_nat (ChunkCount h - 1))) 1)
    with [ChunkCount h - 1]
    by (rewrite Z2Nat.id by lia; unfold seqZ; cbn; f_equal; lia).
  cbn [fmap list_fmap foldr].
  unfold uncompressedChunkTargetSize at 1.
  rewrite (wrap32_id (ChunkCount h - 1)) by (unfold in_int32 in *; lia).
  rewrite Z.eqb_refl. unfold GetLastChunkUncompressedSize.
  destruct (Z.eqb_spec (ChunkCount h) 0); [lia|].
  rewrite (wrap32_id (ChunkCount h - 1)) by (unfold in_int32 in *; lia).
  rewrite (wrap32_id (ChunkSize h * _)) by assumption.
  rewrite wrap32_id by assumption.
  assert (Hshift : forall (l : list Z) (a : Z),
             foldr Z.add a l = foldr Z.add 0 l + a).
  { induction l as [|x l IHl]; intros a; cbn [foldr]; [lia|].
    rewrite IHl. lia. }
  rewrite Hshift, targets_before_last by (try assumption; lia).
  rewrite Z2Nat.id by lia. lia.
Qed.

Lemma chunk_targets_partition_witness :
  foldr Z.add 0
    (uncompressedChunkTargetSize (noneHeader 100 scenarioChunks)
       <$> seqZ 0 (ChunkCount (noneHeader 100 scenarioChunks)))
  = 150.
Proof.
  apply (chunk_targets_partition (noneHeader 100 scenarioChunks));
    by_evaluation.
Defined.

(** ** The file tree and Index.BuildTree *)

Lemma strings_Split_nonempty (s : list byte) : strings_Split s <> [].
Proof.
  destruct s as [|c s]; [discriminate|]. cbn [strings_Split].
  case_bool_decide; [discriminate|].
  destruct (strings_Split s); discriminate.
Qed.

Lemma strings_Join_snoc (pre : list (list byte)) (c : list byte) :
  strings_Join (pre ++ [c])
  = match pre with
    | [] => c
    | _ :: _ => strings_Join pre ++ go "/" ++ c
    end.
Proof.
  induction pre as [|e pre IH]; [reflexivity|].
  cbn [app strings_Join]. rewrite IH.
  destruct pre as [|e' pre]; [reflexivity|].
  cbn [app]. now rewrite <- !app_assoc.
Qed.

Lemma strings_Join_Split (s : list byte) :
  strings_Join (strings_Split s) = s.
Proof.
  induction s as [|c s IH]; [reflexivity|].
  cbn [strings_Split]. case_bool_decide as Hc.
  - subst c. cbn [strings_Join].
    destruct (strings_Split s) as [|w ws] eqn:Hs.
    + now apply strings_Split_nonempty in Hs.
    + now rewrite IH.
  - destruct (strings_Split s) as [|w ws] eqn:Hs.
    + now apply strings_Split_nonempty in Hs.
    + cbn [strings_Join] in *. destruct ws; now rewrite <- IH.
Qed.

Lemma IsDirectory_onChildren (f : list TreeNode -> list TreeNode)
    (n : TreeNode) :
  IsDirectory (onChildren f n) = IsDirectory n.
Proof. now destruct n. Qed.

Lemma GetName_onChildren (f : list TreeNode -> list TreeNode)
    (n : TreeNode) :
  GetName (onChildren f n) = GetName n.
Proof. now destruct n. Qed.

Lemma FindChildDirectory_Some (children : list TreeNode) (name : list byte)
    (k : nat) :
  FindChildDirectory children name = Some k ->
  exists path grandchildren,
    children !! k = Some (DirectoryNode name path grandchildren).
Proof.
  revert k. induction children as [|child rest IH]; intros k; [discriminate|].
  cbn [FindChildDirectory].
  destruct (IsDirectory child && bool_decide (GetName child = name)) eqn:Hc.
  - intros [= <-]. apply andb_true_iff in Hc as [Hd Hn].
    apply bool_decide_eq_true in Hn.
    destruct child as [|n p c]; [discriminate|]. simpl in Hn. subst n.
    now exists p, c.
  - destruct (FindChildDirectory rest name) as [j|]; [|discriminate].
    intros [= <-]. now apply IH.
Qed.

Lemma FindChildDirectory_alter (f : list TreeNode -> list TreeNode)
    (children : list TreeNode) (name : list byte) (k : nat) :
  FindChildDirectory (alter (onChildren f) k children) name
  = FindChildDirectory children name.
Proof.
  revert k. induction children as [|child rest IH]; intros k; [reflexivity|].
  destruct k as [|k]; cbn [alter list_alter FindChildDirectory].
  - now rewrite IsDirectory_onChildren, GetName_onChildren.
  - fold (alter (onChildren f) k rest). now rewrite IH.
Qed.

Lemma FindChildDirectory_app (children more : list TreeNode)
    (name : list byte) :
  FindChildDirectory (children ++ more) name
  = match FindChildDirectory children name with
    | Some k => Some k
    | None => (fun j => (length children + j)%nat)
                <$> FindChildDirectory more name
    end.
Proof.
  induction children as [|child rest IH]; cbn [app FindChildDirectory length].
  - destruct (FindChildDirectory more name); reflexivity.
  - destruct (IsDirectory child && bool_decide (GetName child = name));
      [reflexivity|].
    rewrite IH. destruct (FindChildDirectory rest name); [reflexivity|].
    destruct (FindChildDirectory more name); reflexivity.
Qed.

Lemma FindChildDirectory_lt (children : list TreeNode) (name : list byte)
    (k : nat) :
  FindChildDirectory children name = Some k -> (k < length children)%nat.
Proof.
  intros Hk. apply FindChildDirectory_Some in Hk as (p & c & Hk).
  now apply lookup_lt_Some in Hk.
Qed.

Lemma walk_cons_inv (name : list byte) (rest : list (list byte))
    (dir d : TreeNode) :
  walk (name :: rest) dir = Some d ->
  exists k path children,
    FindChildDirectory (ChildrenVal dir) name = Some k /\
    ChildrenVal dir !! k = Some (DirectoryNode name path children) /\
    walk rest (DirectoryNode name path children) = Some d.
Proof.
  cbn [walk].
  destruct (FindChildDirectory (ChildrenVal dir) name) as [k|] eqn:Hk;
    [|discriminate].
  destruct (FindChildDirectory_Some _ _ _ Hk) as (p & c & Hc).
  rewrite Hc. intros Hw. now exists k, p, c.
Qed.

Lemma walk_cons_intro (name : list byte) (rest : list (list byte))
    (dir child : TreeNode) (k : nat) :
  FindChildDirectory (ChildrenVal dir) name = Some k ->
  ChildrenVal dir !! k = Some child ->
  walk (name :: rest) dir = walk rest child.
Proof. intros Hk Hc. cbn [walk]. now rewrite Hk, Hc. Qed.

(** The directory reached along a non-empty list of names is a directory
    that bears the last of them. *)
Lemma walk_name (names : list (list byte)) :
  forall (dir d : TreeNode),
    names <> [] -> walk names dir = Some d ->
    IsDirectory d = true /\ GetName d = List.last names [].
Proof.
  induction names as [|name rest IH]; intros dir d Hne Hw; [congruence|].
  apply walk_cons_inv in Hw as (k & p & c & _ & _ & Hw).
  destruct rest as [|name' rest].
  - injection Hw as <-. now split.
  - apply IH in Hw; [|discriminate]. exact Hw.
Qed.

(** *** One file placed in the tree *)

Section PlaceFile.

Variable fileNode : TreeNode.

Lemma placeFile_found (name : list byte) (rest : list (list byte)) (i : nat)
    (cur : list byte) (children : list TreeNode) (k : nat) :
  FindChildDirectory children name = Some k ->
  placeFile (name :: rest) i cur fileNode children
  = alter (onChildren
             (placeFile rest (S i)
                ((if (0 <? i)%nat then cur ++ go "/" else cur) ++ name)
                fileNode)) k children.
Proof. intros Hk. cbn [placeFile]. now rewrite Hk. Qed.

Lemma placeFile_fresh (name : list byte) (rest : list (list byte)) (i : nat)
    (cur : list byte) (children : list TreeNode) :
  FindChildDirectory children name = None ->
  placeFile (name :: rest) i cur fileNode children
  = children ++
    [DirectoryNode name
       ((if (0 <? i)%nat then cur ++ go "/" else cur) ++ name)
       (placeFile rest (S i)
          ((if (0 <? i)%nat then cur ++ go "/" else cur) ++ name)
          fileNode [])].
Proof. intros Hk. cbn [placeFile]. now rewrite Hk. Qed.

(** The new file node is a child of the directory that its directory
    names lead to. *)
Lemma placeFile_reaches_new (names : list (list byte)) :
  forall (i : nat) (cur n p : list byte) (children : list TreeNode),
  exists d,
    walk names (DirectoryNode n p (placeFile names i cur fileNode children))
      = Some d /\
    fileNode ∈ ChildrenVal d.
Proof.
  induction names as [|name rest IH]; intros i cur n p children.
  - eexists. split; [reflexivity|]. cbn. unfold AddChild.
    apply elem_of_app. right. apply list_elem_of_singleton. reflexivity.
  - set (cur' := (if (0 <? i)%nat then cur ++ go "/" else cur) ++ name).
    destruct (FindChildDirectory children name) as [k|] eqn:Hk.
    + rewrite (placeFile_found _ _ _ _ _ _ Hk). fold cur'.
      destruct (FindChildDirectory_Some _ _ _ Hk) as (pk & ck & Hck).
      destruct (IH (S i) cur' name pk ck) as (d & Hw & Hin).
      exists d. split; [|exact Hin].
      rewrite <- Hw. apply (walk_cons_intro _ _ _ _ k).
      * cbn [ChildrenVal]. now rewrite FindChildDirectory_alter.
      * cbn [ChildrenVal]. rewrite list_lookup_alter_eq, Hck. reflexivity.
    + rewrite (placeFile_fresh _ _ _ _ _ Hk). fold cur'.
      destruct (IH (S i) cur' name cur' []) as (d & Hw & Hin).
      exists d. split; [|exact Hin].
      rewrite <- Hw. apply (walk_cons_intro _ _ _ _ (length children + 0)).
      * cbn [ChildrenVal]. rewrite FindChildDirectory_app, Hk.
        cbn [FindChildDirectory IsDirectory GetName andb].
        rewrite bool_decide_eq_true_2 by reflexivity. reflexivity.
      * cbn [ChildrenVal]. rewrite Nat.add_0_r.
        apply list_lookup_middle. reflexivity.
Qed.

Lemma placeFile_keeps_children (names : list (list byte)) (i : nat)
    (cur : list byte) (children : list TreeNode) (x : TreeNode) :
  IsDirectory x = false -> x ∈ children ->
  x ∈ placeFile names i cur fileNode children.
Proof.
  intros Hx Hin. destruct names as [|name rest].
  - cbn. unfold AddChild. apply elem_of_app. now left.
  - destruct (FindChildDirectory children name) as [k|] eqn:Hk.
    + rewrite (placeFile_found _ _ _ _ _ _ Hk).
      destruct (FindChildDirectory_Some _ _ _ Hk) as (pk & ck & Hck).
      apply list_elem_of_lookup in Hin as [j Hj].
      apply (list_elem_of_lookup_2 _ j).
      rewrite list_lookup_alter_ne; [assumption|].
      intros ->. rewrite Hck in Hj. injection Hj as <-. discriminate.
    + rewrite (placeFile_fresh _ _ _ _ _ Hk). apply elem_of_app. now left.
Qed.

(** A file node that could be reached before can be reached after. *)
Lemma placeFile_reaches_old (x : TreeNode) (cs : list (list byte)) :
  IsDirectory x = false ->
  forall (names : list (list byte)) (i : nat) (cur n p : list byte)
         (children : list TreeNode) (d : TreeNode),
    walk cs (DirectoryNode n p children) = Some d ->
    x ∈ ChildrenVal d ->
    exists d',
      walk cs (DirectoryNode n p (placeFile names i cur fileNode children))
        = Some d' /\
      x ∈ ChildrenVal d'.
Proof.
  intros Hx. induction cs as [|c cs IH];
    intros names i cur n p children d Hw Hin.
  - injection Hw as <-. eexists. split; [reflexivity|].
    cbn [ChildrenVal] in *. now apply placeFile_keeps_children.
  - apply walk_cons_inv in Hw as (k & pk & ck & Hk & Hck & Hw).
    cbn [ChildrenVal] in Hk, Hck.
    destruct names as [|name rest].
    + exists d. split; [|exact Hin]. rewrite <- Hw.
      apply (walk_cons_intro _ _ _ _ k); cbn [ChildrenVal placeFile];
        unfold AddChild.
      * now rewrite FindChildDirectory_app, Hk.
      * rewrite lookup_app_l; [assumption|]. now apply lookup_lt_Some in Hck.
    + destruct (FindChildDirectory children name) as [j|] eqn:Hj.
      * rewrite (placeFile_found _ _ _ _ _ _ Hj).
        destruct (Nat.eq_dec j k) as [->|Hne].
        -- destruct (IH rest (S i)
                       ((if (0 <? i)%nat then cur ++ go "/" else cur) ++ name)
                       c pk ck d Hw Hin) as (d' & Hw' & Hin').
           exists d'. split; [|exact Hin']. rewrite <- Hw'.
           apply (walk_cons_intro _ _ _ _ k); cbn [ChildrenVal].
           ++ now rewrite FindChildDirectory_alter.
           ++ rewrite list_lookup_alter_eq, Hck. reflexivity.
        -- exists d. split; [|exact Hin]. rewrite <- Hw.
           apply (walk_cons_intro _ _ _ _ k); cbn [ChildrenVal].
           ++ now rewrite FindChildDirectory_alter.
           ++ rewrite list_lookup_alter_ne by assumption. exact Hck.
      * rewrite (placeFile_fresh _ _ _ _ _ Hj).
        exists d. split; [|exact Hin]. rewrite <- Hw.
        apply (walk_cons_intro _ _ _ _ k); cbn [ChildrenVal].
        -- now rewrite FindChildDirectory_app, Hk.
        -- rewrite lookup_app_l; [assumption|].
           now apply lookup_lt_Some in Hck.
Qed.

End PlaceFile.

Lemma labelled_leaf (pre : list (list byte)) (n p : list byte) :
  labelled pre (DirectoryNode n p []).
Proof. intros [|c cs] d Hne Hw; [congruence|discriminate]. Qed.

Lemma labelled_child (pre : list (list byte)) (dir : TreeNode)
    (name path : list byte) (children : list TreeNode) (k : nat) :
  labelled pre dir ->
  FindChildDirectory (ChildrenVal dir) name = Some k ->
  ChildrenVal dir !! k = Some (DirectoryNode name path children) ->
  path = strings_Join (pre ++ [name]) /\
  labelled (pre ++ [name]) (DirectoryNode name path children).
Proof.
  intros Hlab Hk Hc. split.
  - apply (Hlab [name] (DirectoryNode name path children)); [discriminate|].
    now rewrite (walk_cons_intro _ _ _ _ _ Hk Hc).
  - intros cs d Hne Hw. rewrite <- app_assoc. cbn [app].
    apply Hlab; [discriminate|].
    now rewrite (walk_cons_intro _ _ _ _ _ Hk Hc).
Qed.

Lemma placeFile_labelled (fileNode : TreeNode) (names : list (list byte)) :
  IsDirectory fileNode = false ->
  forall (pre : list (list byte)) (cur n p : list byte)
         (children : list TreeNode),
    cur = strings_Join pre ->
    labelled pre (DirectoryNode n p children) ->
    labelled pre
      (DirectoryNode n p
         (placeFile names (length pre) cur fileNode children)).
Proof.
  intros Hfile. induction names as [|name rest IH];
    intros pre cur n p children Hcur Hlab cs d Hne Hw.
  - destruct cs as [|c cs]; [congruence|].
    apply (Hlab (c :: cs)); [discriminate|]. rewrite <- Hw.
    apply walk_cons_inv in Hw as (k & pk & ck & Hk & Hck & _).
    cbn [ChildrenVal placeFile] in Hk, Hck. unfold AddChild in Hk, Hck.
    rewrite FindChildDirectory_app in Hk.
    destruct (FindChildDirectory children c) as [k'|] eqn:Hk'.
    + injection Hk as <-.
      pose proof (FindChildDirectory_lt _ _ _ Hk') as Hlt.
      rewrite lookup_app_l in Hck by assumption.
      rewrite (walk_cons_intro c cs (DirectoryNode n p children) _ k' Hk' Hck).
      symmetry. apply (walk_cons_intro _ _ _ _ k'); cbn [ChildrenVal placeFile];
        unfold AddChild.
      * now rewrite FindChildDirectory_app, Hk'.
      * now rewrite lookup_app_l.
    + cbn [FindChildDirectory] in Hk. rewrite Hfile in Hk. discriminate.
  - set (cur' := (if (0 <? length pre)%nat then cur ++ go "/" else cur)
                 ++ name) in *.
    assert (Hcur' : cur' = strings_Join (pre ++ [name])).
    { subst cur' cur. rewrite strings_Join_snoc.
      destruct pre as [|e pre]; [reflexivity|].
      cbn [length Nat.ltb Nat.leb]. now rewrite <- app_assoc. }
    assert (Hlen : S (length pre) = length (pre ++ [name])).
    { rewrite length_app. simpl. lia. }
    destruct cs as [|c cs]; [congruence|].
    apply walk_cons_inv in Hw as (k & pk & ck & Hk & Hck & Hw).
    cbn [ChildrenVal] in Hk, Hck.
    destruct (FindChildDirectory children name) as [j|] eqn:Hj.
    + rewrite (placeFile_found _ _ _ _ _ _ _ Hj) in Hk, Hck. fold cur' in Hk, Hck.
      rewrite FindChildDirectory_alter in Hk.
      destruct (Nat.eq_dec j k) as [->|Hjk].
      * destruct (FindChildDirectory_Some _ _ _ Hj) as (pj & cj & Hcj).
        destruct (FindChildDirectory_Some _ _ _ Hk) as (pk' & ck' & Hck').
        assert (c = name) by congruence. subst c.
        rewrite list_lookup_alter_eq, Hcj in Hck. cbn in Hck.
        injection Hck as <- <-.
        destruct (labelled_child pre (DirectoryNode n p children) name pj cj k
                    Hlab Hj Hcj) as [Hpj Hlabj].
        destruct cs as [|c' cs].
        -- injection Hw as <-. exact Hpj.
        -- rewrite Hlen in Hw.
           pose proof (IH (pre ++ [name]) cur' name pj cj Hcur' Hlabj
                         (c' :: cs) d ltac:(discriminate) Hw) as Hd.
           now rewrite <- app_assoc in Hd.
      * rewrite list_lookup_alter_ne in Hck by assumption.
        apply (Hlab (c :: cs)); [discriminate|].
        now rewrite (walk_cons_intro c cs (DirectoryNode n p children) _ k Hk Hck).
    + rewrite (placeFile_fresh _ _ _ _ _ _ Hj) in Hk, Hck. fold cur' in Hk, Hck.
      rewrite FindChildDirectory_app in Hk.
      destruct (FindChildDirectory children c) as [k'|] eqn:Hk'.
      * injection Hk as <-.
        pose proof (FindChildDirectory_lt _ _ _ Hk') as Hlt.
        rewrite lookup_app_l in Hck by assumption.
        apply (Hlab (c :: cs)); [discriminate|].
        now rewrite (walk_cons_intro c cs (DirectoryNode n p children) _ k' Hk' Hck).
      * cbn [FindChildDirectory IsDirectory GetName andb] in Hk.
        case_bool_decide as Hc; [|discriminate]. subst c.
        injection Hk as <-. rewrite Nat.add_0_r in Hck.
        rewrite list_lookup_middle in Hck by reflexivity.
        injection Hck as <- <-.
        destruct cs as [|c' cs].
        -- injection Hw as <-. exact Hcur'.
        -- rewrite Hlen in Hw.
           pose proof (IH (pre ++ [name]) cur' name cur' [] Hcur'
                         (labelled_leaf _ _ _)
                         (c' :: cs) d ltac:(discriminate) Hw) as Hd.
           now rewrite <- app_assoc in Hd.
Qed.

(** The records of the tree: the new one is added once, none is lost. *)
Lemma recordsOf_alter (f : TreeNode -> TreeNode) (extra : list ptr)
    (children : list TreeNode) :
  forall (k : nat) (x : TreeNode),
    children !! k = Some x ->
    recordsOf (f x) ≡ₚ recordsOf x ++ extra ->
    flat_map recordsOf (alter f k children)
    ≡ₚ flat_map recordsOf children ++ extra.
Proof.
  induction children as [|child rest IH]; intros k x Hk Hx; [discriminate|].
  destruct k as [|k]; cbn [alter list_alter flat_map].
  - injection Hk as ->. rewrite Hx. now rewrite <- app_assoc,
      (Permutation_app_comm extra), app_assoc.
  - fold (alter f k rest). rewrite (IH k x Hk Hx). now rewrite app_assoc.
Qed.

Lemma placeFile_records (fileNode : TreeNode) (names : list (list byte)) :
  forall (i : nat) (cur : list byte) (children : list TreeNode),
    flat_map recordsOf (placeFile names i cur fileNode children)
    ≡ₚ flat_map recordsOf children ++ recordsOf fileNode.
Proof.
  induction names as [|name rest IH]; intros i cur children.
  - cbn [placeFile]. unfold AddChild. rewrite flat_map_app. cbn [flat_map].
    now rewrite app_nil_r.
  - destruct (FindChildDirectory children name) as [k|] eqn:Hk.
    + rewrite (placeFile_found _ _ _ _ _ _ _ Hk).
      destruct (FindChildDirectory_Some _ _ _ Hk) as (pk & ck & Hck).
      apply (recordsOf_alter _ _ _ k _ Hck). cbn [onChildren recordsOf].
      apply IH.
    + rewrite (placeFile_fresh _ _ _ _ _ _ Hk). rewrite flat_map_app.
      cbn [flat_map recordsOf]. rewrite app_nil_r.
      apply Permutation_app_head. rewrite IH. reflexivity.
Qed.

(** *** The two loops of BuildTree *)

Lemma collectFileRecords_Built (recs : list FileRec.t) (ign : bool)
    (order : list (Z * ptr)) :
  forall (acc all : list ptr),
    collectFileRecords recs ign order acc = Done (Built all) ->
    all = acc ++ filter (fun p => hasPath recs p = true) order.*2 /\
    Forall (fun p => is_Some (recs !! p)) order.*2 /\
    (ign = false -> Forall (fun p => hasPath recs p = true) order.*2).
Proof.
  induction order as [|[k fr] order IH]; intros acc all Hc.
  - injection Hc as <-. rewrite app_nil_r. repeat constructor.
  - cbn [collectFileRecords] in Hc. cbn [fmap list_fmap snd].
    destruct (recs !! fr) as [rec|] eqn:Hrec; [|discriminate].
    rewrite filter_cons.
    assert (Hhp : hasPath recs fr = negb (bool_decide (FileRec.Path rec = [])))
      by (unfold hasPath; now rewrite Hrec).
    destruct (bool_decide (FileRec.Path rec = [])) eqn:Hp; cbn [negb andb] in Hc.
    + destruct ign; cbn [negb] in Hc; [|discriminate].
      apply IH in Hc as (-> & Hsome & _).
      rewrite decide_False by (rewrite Hhp; discriminate).
      split; [reflexivity|]. split; [|discriminate].
      constructor; [now rewrite Hrec|assumption].
    + apply IH in Hc as (-> & Hsome & Hall).
      rewrite decide_True by (now rewrite Hhp).
      split; [now rewrite <- app_assoc|].
      split; [constructor; [now rewrite Hrec|assumption]|].
      intros Hign. constructor; [|now apply Hall].
      now rewrite Hhp.
Qed.

Lemma collectFileRecords_returns (recs : list FileRec.t) (ign : bool)
    (order : list (Z * ptr)) :
  Forall (fun p => is_Some (recs !! p)) order.*2 ->
  forall (acc : list ptr),
    (exists all, collectFileRecords recs ign order acc = Done (Built all)) \/
    (exists rec fr,
       collectFileRecords recs ign order acc
         = Done (NotBuilt (ErrTreeFileWithoutPath (FileRec.PathHash rec))) /\
       ign = false /\ fr ∈ order.*2 /\ recs !! fr = Some rec /\
       FileRec.Path rec = []).
Proof.
  induction order as [|[k fr] order IH]; intros Hwf acc.
  - left. now exists acc.
  - cbn [fmap list_fmap snd] in Hwf. apply Forall_cons in Hwf as [[rec Hrec] Hwf].
    cbn [collectFileRecords fmap list_fmap snd]. rewrite Hrec.
    destruct (bool_decide (FileRec.Path rec = [])) eqn:Hp; cbn [negb andb].
    + destruct ign; cbn [negb].
      * destruct (IH Hwf acc) as [Hok|(rec' & fr' & Hc & Hign & _)];
          [now left|discriminate].
      * right. exists rec, fr. apply bool_decide_eq_true in Hp.
        repeat split; try assumption. apply list_elem_of_here.
    + destruct (IH Hwf (acc ++ [fr])) as [Hok|(rec' & fr' & Hc & Hi & Hin & H')];
        [now left|].
      right. exists rec', fr'. split; [exact Hc|]. split; [exact Hi|].
      split; [now apply list_elem_of_further|exact H'].
Qed.

Lemma addFileNodes_returns (recs : list FileRec.t) (all : list ptr) :
  Forall (fun p => is_Some (recs !! p)) all ->
  forall (children : list TreeNode),
    exists children', addFileNodes recs all children = Done children'.
Proof.
  induction all as [|p all IH]; intros Hwf children.
  - now exists children.
  - apply Forall_cons in Hwf as [[rec Hrec] Hwf].
    cbn [addFileNodes]. rewrite Hrec.
    destruct (bool_decide (FileRec.Path rec = [])); now apply IH.
Qed.

Lemma addFileNodes_spec (recs : list FileRec.t) (all : list ptr) :
  forall (children children' : list TreeNode),
    addFileNodes recs all children = Done children' ->
    flat_map recordsOf children'
    ≡ₚ flat_map recordsOf children
       ++ filter (fun p => hasPath recs p = true) all /\
    (labelled [] (DirectoryNode [] [] children) ->
     labelled [] (DirectoryNode [] [] children')) /\
    (forall (x : TreeNode) (cs : list (list byte)) (d : TreeNode),
       IsDirectory x = false ->
       walk cs (DirectoryNode [] [] children) = Some d ->
       x ∈ ChildrenVal d ->
       exists d', walk cs (DirectoryNode [] [] children') = Some d' /\
                  x ∈ ChildrenVal d') /\
    (forall (p : ptr) (rec : FileRec.t),
       p ∈ all -> recs !! p = Some rec -> FileRec.Path rec <> [] ->
       exists d,
         walk (removelast (strings_Split (FileRec.Path rec)))
              (DirectoryNode [] [] children') = Some d /\
         FileNode (List.last (strings_Split (FileRec.Path rec)) []) p
           ∈ ChildrenVal d).
Proof.
  induction all as [|q all IH]; intros children children' Hadd.
  - injection Hadd as <-. rewrite filter_nil, app_nil_r.
    split; [reflexivity|]. split; [auto|]. split.
    + intros x cs d _ Hw Hin. now exists d.
    + intros p rec Hin. now apply elem_of_nil in Hin.
  - cbn [addFileNodes] in Hadd.
    destruct (recs !! q) as [recq|] eqn:Hq; [|discriminate].
    rewrite filter_cons.
    assert (Hhp : hasPath recs q = negb (bool_decide (FileRec.Path recq = [])))
      by (unfold hasPath; now rewrite Hq).
    case_bool_decide as Hpath; cbn [negb] in Hhp.
    + rewrite decide_False by (rewrite Hhp; discriminate).
      destruct (IH _ _ Hadd) as (Hrecs & Hlab & Hold & Hnew).
      split; [exact Hrecs|]. split; [exact Hlab|]. split; [exact Hold|].
      intros p rec Hin Hrec Hne.
      apply elem_of_cons in Hin as [->|Hin]; [congruence|].
      now apply (Hnew p rec).
    + rewrite decide_True by exact Hhp.
      set (comps := strings_Split (FileRec.Path recq)) in *.
      set (node := FileNode (List.last comps []) q) in *.
      destruct (IH _ _ Hadd) as (Hrecs & Hlab & Hold & Hnew).
      split; [|split; [|split]].
      * rewrite Hrecs, placeFile_records. cbn [recordsOf node].
        now rewrite <- app_assoc.
      * intros Hl. apply Hlab.
        now apply (placeFile_labelled node (removelast comps) eq_refl []).
      * intros x cs d Hx Hw Hin.
        destruct (placeFile_reaches_old node x cs Hx (removelast comps) 0 []
                    [] [] children d Hw Hin) as (d1 & Hw1 & Hin1).
        now apply (Hold x cs d1).
      * intros p rec Hin Hrec Hne.
        apply elem_of_cons in Hin as [->|Hin]; [|now apply (Hnew p rec)].
        assert (rec = recq) by congruence. subst rec.
        destruct (placeFile_reaches_new node (removelast comps) 0 [] [] []
                    children) as (d1 & Hw1 & Hin1).
        now apply (Hold node _ d1).
Qed.

(** *** Index.BuildTree *)

Lemma BuildTree_Built_inv (order : list (Z * ptr)) (idx : Index)
    (ign : bool) (root : TreeNode) :
  BuildTree order idx ign = Done (Built root) ->
  exists (all : list ptr) (children : list TreeNode),
    collectFileRecords (FileRecords idx) ign order [] = Done (Built all) /\
    addFileNodes (FileRecords idx) all [] = Done children /\
    root = DirectoryNode [] [] children.
Proof.
  unfold BuildTree.
  destruct (negb (pathsParsed idx) && negb ign); [discriminate|].
  destruct (collectFileRecords _ _ _ _) as [[all|e]|]; try discriminate.
  destruct (addFileNodes _ _ _) as [children|] eqn:Hadd; [|discriminate].
  intros [= <-]. now exists all, children.
Qed.

Lemma order_lookup (m : gmap Z ptr) (order : list (Z * ptr)) (p : ptr) :
  order ≡ₚ map_to_list m ->
  p ∈ order.*2 <-> exists k, m !! k = Some p.
Proof.
  intros Hperm. rewrite Hperm, list_elem_of_fmap. split.
  - intros ([k q] & -> & Hin). exists k. now apply elem_of_map_to_list.
  - intros [k Hk]. exists (k, p). split; [reflexivity|].
    now apply elem_of_map_to_list.
Qed.

(** X21. [BuildTree] on an index without nil pointers always returns,
    whatever the iteration order of the map. It returns a tree exactly
    when [ignoreNullPath] is set, or the paths are parsed and every
    record in the map has a path; otherwise it returns an error. *)
Theorem BuildTree_outcome (order : list (Z * ptr)) (idx : Index)
    (ignoreNullPath : bool) :
  wfIndex idx ->
  order ≡ₚ map_to_list (FilesByPathHash idx) ->
  (exists r, BuildTree order idx ignoreNullPath = Done r) /\
  ((exists root, BuildTree order idx ignoreNullPath = Done (Built root))
   <-> ignoreNullPath = true \/
       (pathsParsed idx = true /\
        map_Forall (fun _ p => hasPath (FileRecords idx) p = true)
                   (FilesByPathHash idx))).
Proof.
  intros Hwf Hperm.
  assert (Hsome : Forall (fun p => is_Some (FileRecords idx !! p)) order.*2).
  { apply Forall_forall. intros p Hp.
    apply (order_lookup _ _ _ Hperm) in Hp as [k Hk]. exact (Hwf k p Hk). }
  unfold BuildTree.
  destruct (negb (pathsParsed idx) && negb ignoreNullPath) eqn:Hguard.
  { apply andb_true_iff in Hguard as [Hp Hi].
    apply negb_true_iff in Hp, Hi.
    split; [eauto|]. split.
    - intros [root [=]].
    - intros [Ht|[Ht _]]; congruence. }
  destruct (collectFileRecords_returns (FileRecords idx) ignoreNullPath order
              Hsome [])
    as [[all Hall]|(rec & fr & Hc & Hi & Hin & Hrec & Hpath)].
  - rewrite Hall.
    destruct (collectFileRecords_Built _ _ _ _ _ Hall) as (Heq & _ & Hpaths).
    destruct (addFileNodes_returns (FileRecords idx) all) with
      (children := @nil TreeNode) as [children Hadd].
    { rewrite Heq. cbn [app]. apply Forall_forall. intros p Hp.
      apply list_elem_of_filter in Hp as [_ Hp].
      exact (proj1 (Forall_forall _ _) Hsome p Hp). }
    rewrite Hadd. split; [eauto|]. split; [|eauto].
    intros _. destruct ignoreNullPath; [now left|]. right.
    split; [destruct (pathsParsed idx); [reflexivity|discriminate]|].
    intros k p Hk.
    apply (proj1 (Forall_forall _ _) (Hpaths eq_refl)).
    apply (order_lookup _ _ _ Hperm). now exists k.
  - rewrite Hc. split; [eauto|]. split.
    + intros [root [=]].
    + intros [Ht|[_ Hforall]]; [congruence|]. exfalso.
      apply (order_lookup _ _ _ Hperm) in Hin as [k Hk].
      specialize (Hforall k fr Hk). cbn in Hforall.
      unfold hasPath in Hforall. rewrite Hrec, Hpath in Hforall.
      discriminate.
Qed.

Lemma parsedIndex_paths :
  map_Forall (fun _ p => hasPath (FileRecords parsedIndex) p = true)
             (FilesByPathHash parsedIndex).
Proof.
  unfold parsedIndex. cbn [FilesByPathHash FileRecords].
  apply map_Forall_insert_2; [reflexivity|].
  apply map_Forall_singleton. reflexivity.
Qed.

Lemma parsedIndex_builds :
  exists root,
    BuildTree (map_to_list (FilesByPathHash parsedIndex)) parsedIndex false
      = Done (Built root) /\
    walk [go "dir"] root = Some (DirectoryNode (go "dir") (go "dir")
                                   [FileNode (go "file.txt") 0%nat]).
Proof. eexists. split; vm_compute; reflexivity. Qed.

Lemma BuildTree_outcome_witness :
  exists root,
    BuildTree (map_to_list (FilesByPathHash parsedIndex)) parsedIndex false
    = Done (Built root).
Proof.
  apply (BuildTree_outcome (map_to_list (FilesByPathHash parsedIndex))
           parsedIndex false parsedIndex_wf (reflexivity _)).
  right. split; [reflexivity|exact parsedIndex_paths].
Defined.

(** X22. In the tree that [BuildTree] returns, every record of the map
    that has a path is found under it: the directory names of the path
    lead, by [FindChildDirectory] from the root, to a directory whose
    own path is those names joined by slashes, and that directory has a
    file node with the last component as its name and the record as its
    [RecordVal]. [GetPath] of the file node is the record's path; and
    the path that [GetPath] puts together from the parent's path and the
    name, when the record is nil or has lost its path, is that same
    path, provided the file lies in the root or in a directory whose
    path is not empty. *)
Theorem BuildTree_places_files (order : list (Z * ptr)) (idx : Index)
    (ignoreNullPath : bool) (root : TreeNode) (k : Z) (p : ptr)
    (rec : FileRec.t) :
  order ≡ₚ map_to_list (FilesByPathHash idx) ->
  BuildTree order idx ignoreNullPath = Done (Built root) ->
  FilesByPathHash idx !! k = Some p ->
  FileRecords idx !! p = Some rec ->
  FileRec.Path rec <> [] ->
  let components := strings_Split (FileRec.Path rec) in
  let fileNode := FileNode (List.last components []) p in
  exists d,
    walk (removelast components) root = Some d /\
    IsDirectory d = true /\
    PathVal d = strings_Join (removelast components) /\
    fileNode ∈ ChildrenVal d /\
    GetPath (FileRecords idx) (Some d) fileNode = FileRec.Path rec /\
    forall recs' : list FileRec.t,
      (forall r, recs' !! p = Some r -> FileRec.Path r = []) ->
      removelast components = [] \/ PathVal d <> [] ->
      GetPath recs' (Some d) fileNode = FileRec.Path rec.
Proof.
  intros Hperm Hbuild Hk Hrec Hpath components fileNode.
  apply BuildTree_Built_inv in Hbuild as (all & children & Hall & Hadd & ->).
  apply collectFileRecords_Built in Hall as (Hall & _ & _).
  cbn [app] in Hall.
  destruct (addFileNodes_spec _ _ _ _ Hadd) as (_ & Hlab & _ & Hnew).
  assert (Hin : p ∈ all).
  { rewrite Hall. apply list_elem_of_filter. split.
    - unfold hasPath. rewrite Hrec.
      now rewrite bool_decide_eq_false_2.
    - apply (order_lookup _ _ _ Hperm). now exists k. }
  destruct (Hnew p rec Hin Hrec Hpath) as (d & Hw & Hd).
  fold components in Hw.
  assert (Hdir : IsDirectory d = true /\
                 PathVal d = strings_Join (removelast components)).
  { destruct (removelast components) as [|c cs] eqn:Hcs.
    - injection Hw as <-. now split.
    - destruct (walk_name (c :: cs) _ d ltac:(discriminate) Hw) as [Hdir _].
      split; [exact Hdir|].
      apply (Hlab (labelled_leaf [] [] []) (c :: cs) d);
        [discriminate|exact Hw]. }
  destruct Hdir as [Hdir Hlabel].
  assert (Hjoin : strings_Join
                    (removelast components ++ [List.last components []])
                  = FileRec.Path rec).
  { rewrite <- app_removelast_last by apply strings_Split_nonempty.
    apply strings_Join_Split. }
  exists d. split; [exact Hw|]. split; [exact Hdir|].
  split; [exact Hlabel|]. split; [exact Hd|]. split.
  - unfold fileNode, GetPath. rewrite Hrec.
    now rewrite bool_decide_eq_false_2.
  - intros recs' Hnopath Hplace.
    assert (Hfallback :
      (if bool_decide (PathVal d = []) then List.last components []
       else PathVal d ++ go "/" ++ List.last components [])
      = FileRec.Path rec).
    { rewrite strings_Join_snoc in Hjoin.
      destruct (removelast components) as [|c cs] eqn:Hcs.
      - rewrite Hlabel. cbn [strings_Join].
        now rewrite bool_decide_eq_true_2.
      - destruct Hplace as [|Hne]; [discriminate|].
        rewrite bool_decide_eq_false_2 by assumption.
        now rewrite Hlabel. }
    unfold fileNode, GetPath.
    destruct (recs' !! p) as [r|] eqn:Hr; [|exact Hfallback].
    rewrite (Hnopath r eq_refl).
    now rewrite bool_decide_eq_true_2.
Qed.

Lemma BuildTree_places_files_witness :
  exists root d,
    BuildTree (map_to_list (FilesByPathHash parsedIndex)) parsedIndex false
      = Done (Built root) /\
    walk [go "dir"] root = Some d /\
    PathVal d = go "dir" /\
    FileNode (go "file.txt") 0%nat ∈ ChildrenVal d /\
    GetPath (FileRecords parsedIndex) (Some d) (FileNode (go "file.txt") 0%nat)
      = go "dir/file.txt" /\
    GetPath [] (Some d) (FileNode (go "file.txt") 0%nat)
      = go "dir/file.txt".
Proof.
  destruct parsedIndex_builds as (root & Hroot & _).
  destruct (BuildTree_places_files
              (map_to_list (FilesByPathHash parsedIndex)) parsedIndex false
              root sampleHash 0%nat
              (FileRec.mk sampleHash 0 0 50 (go "dir/file.txt"))
              (reflexivity _) Hroot)
    as (d & Hw & _ & Hp & Hin & Hget & Hfall).
  - reflexivity.
  - reflexivity.
  - discriminate.
  - exists root, d. split; [exact Hroot|]. split; [exact Hw|].
    split; [exact Hp|]. split; [exact Hin|]. split; [exact Hget|].
    apply Hfall.
    + intros r Hr. discriminate.
    + right. rewrite Hp. discriminate.
Defined.

(** X23. The file nodes of the tree that [BuildTree] returns are, up to
    their order, the entries of the map whose record has a path: one
    file node for each such entry, none for an entry whose record has no
    path, and no file node besides. *)
Theorem BuildTree_records_once (order : list (Z * ptr)) (idx : Index)
    (ignoreNullPath : bool) (root : TreeNode) :
  order ≡ₚ map_to_list (FilesByPathHash idx) ->
  BuildTree order idx ignoreNullPath = Done (Built root) ->
  recordsOf root
  ≡ₚ filter (fun p => hasPath (FileRecords idx) p = true)
       (map_to_list (FilesByPathHash idx)).*2.
Proof.
  intros Hperm Hbuild.
  apply BuildTree_Built_inv in Hbuild as (all & children & Hall & Hadd & ->).
  apply collectFileRecords_Built in Hall as (Hall & _ & _).
  cbn [app] in Hall.
  destruct (addFileNodes_spec _ _ _ _ Hadd) as (Hrecs & _).
  cbn [recordsOf flat_map app] in *. rewrite Hrecs, Hall.
  rewrite list_filter_filter.
  rewrite <- Hperm. apply Permutation_refl'.
  apply list_filter_iff. tauto.
Qed.

Lemma BuildTree_records_once_witness :
  exists root,
    BuildTree (map_to_list (FilesByPathHash parsedIndex)) parsedIndex false
      = Done (Built root) /\
    length (recordsOf root) = 2%nat.
Proof.
  destruct parsedIndex_builds as (root & Hroot & _).
  exists root. split; [exact Hroot|].
  rewrite (BuildTree_records_once _ parsedIndex false root
             (reflexivity _) Hroot).
  reflexivity.
Defined.

(** X24. Every node that [FindChildDirectory] leads to from the root of
    a tree built by [BuildTree] is a directory whose name is the last
    name of the way to it and whose path is the names of that way joined
    by slashes; for the root both are empty. *)
Theorem BuildTree_directory_paths (order : list (Z * ptr)) (idx : Index)
    (ignoreNullPath : bool) (root : TreeNode) (names : list (list byte))
    (d : TreeNode) :
  BuildTree order idx ignoreNullPath = Done (Built root) ->
  walk names root = Some d ->
  IsDirectory d = true /\
  GetName d = List.last names [] /\
  GetPath (FileRecords idx) None d = strings_Join names.
Proof.
  intros Hbuild Hw.
  apply BuildTree_Built_inv in Hbuild as (all & children & _ & Hadd & ->).
  destruct (addFileNodes_spec _ _ _ _ Hadd) as (_ & Hlab & _).
  destruct names as [|c cs].
  - injection Hw as <-. now repeat split.
  - destruct (walk_name (c :: cs) _ d ltac:(discriminate) Hw) as [Hdir Hname].
    split; [exact Hdir|]. split; [exact Hname|].
    pose proof (Hlab (labelled_leaf [] [] []) (c :: cs) d
                  ltac:(discriminate) Hw) as Hp.
    destruct d; [discriminate|exact Hp].
Qed.

Lemma BuildTree_directory_paths_witness :
  exists root d,
    BuildTree (map_to_list (FilesByPathHash parsedIndex)) parsedIndex false
      = Done (Built root) /\
    walk [go "dir"] root = Some d /\
    GetName d = go "dir" /\
    GetPath (FileRecords parsedIndex) None d = go "dir".
Proof.
  destruct parsedIndex_builds as (root & Hroot & Hw).
  exists root, (DirectoryNode (go "dir") (go "dir")
                  [FileNode (go "file.txt") 0%nat]).
  split; [exact Hroot|]. split; [exact Hw|].
  destruct (BuildTree_directory_paths _ parsedIndex false root [go "dir"] _
              Hroot Hw) as (_ & Hn & Hp).
  split; assumption.
Defined.

(** *** Directory names are unique among siblings *)

Lemma dirNames_app (l1 l2 : list TreeNode) :
  dirNames (l1 ++ l2) = dirNames l1 ++ dirNames l2.
Proof. unfold dirNames. now rewrite filter_app, fmap_app. Qed.

Lemma dirNames_alter (f : list TreeNode -> list TreeNode)
    (children : list TreeNode) (k : nat) :
  dirNames (alter (onChildren f) k children) = dirNames children.
Proof.
  revert k. induction children as [|child rest IH]; intros k; [reflexivity|].
  unfold dirNames in *.
  destruct k as [|k]; cbn [alter list_alter]; rewrite !filter_cons.
  - rewrite IsDirectory_onChildren.
    destruct (decide (IsDirectory child = true)); [|reflexivity].
    cbn [fmap list_fmap]. now rewrite GetName_onChildren.
  - fold (alter (onChildren f) k rest).
    destruct (decide (IsDirectory child = true)); cbn [fmap list_fmap];
      now rewrite IH.
Qed.

Lemma FindChildDirectory_None (children : list TreeNode) (name : list byte) :
  FindChildDirectory children name = None -> name ∉ dirNames children.
Proof.
  induction children as [|child rest IH]; intros Hnone.
  - apply not_elem_of_nil.
  - cbn [FindChildDirectory] in Hnone. unfold dirNames in *.
    rewrite filter_cons.
    destruct (IsDirectory child) eqn:Hd; cbn [andb] in Hnone.
    + case_bool_decide as Hn; [discriminate|].
      destruct (FindChildDirectory rest name); [discriminate|].
      rewrite decide_True by reflexivity. cbn [fmap list_fmap].
      apply not_elem_of_cons. split; [congruence|now apply IH].
    + destruct (FindChildDirectory rest name); [discriminate|].
      rewrite decide_False by discriminate. now apply IH.
Qed.

Lemma placeFile_unique (name : list byte) (record : ptr)
    (names : list (list byte)) :
  forall (i : nat) (cur : list byte) (children : list TreeNode),
    NoDup (dirNames children) -> Forall uniqueDirs children ->
    NoDup (dirNames (placeFile names i cur (FileNode name record) children))
    /\ Forall uniqueDirs
         (placeFile names i cur (FileNode name record) children).
Proof.
  induction names as [|c rest IH]; intros i cur children Hnd Hall.
  - cbn [placeFile]. unfold AddChild. rewrite dirNames_app.
    split.
    + now rewrite app_nil_r.
    + apply Forall_app. split; [assumption|]. repeat constructor.
  - destruct (FindChildDirectory children c) as [k|] eqn:Hk.
    + rewrite (placeFile_found _ _ _ _ _ _ _ Hk).
      rewrite dirNames_alter. split; [assumption|].
      destruct (FindChildDirectory_Some _ _ _ Hk) as (pk & ck & Hck).
      apply Forall_alter; [assumption|].
      intros x Hx. replace x with (DirectoryNode c pk ck) by congruence.
      pose proof (proj1 (Forall_lookup _ _) Hall k _ Hck) as Hu.
      inversion Hu as [|? ? ? Hnd' Hall']; subst.
      cbn [onChildren]. constructor; now apply IH.
    + rewrite (placeFile_fresh _ _ _ _ _ _ Hk).
      rewrite dirNames_app. split.
      * apply NoDup_app. split; [assumption|]. split.
        -- intros x Hx Hx'. apply list_elem_of_singleton in Hx'. subst x.
           now apply (FindChildDirectory_None _ _ Hk).
        -- apply NoDup_singleton.
      * apply Forall_app. split; [assumption|].
        constructor; [|constructor].
        constructor; apply IH; constructor.
Qed.

Lemma addFileNodes_unique (recs : list FileRec.t) (all : list ptr) :
  forall (children children' : list TreeNode),
    addFileNodes recs all children = Done children' ->
    NoDup (dirNames children) -> Forall uniqueDirs children ->
    NoDup (dirNames children') /\ Forall uniqueDirs children'.
Proof.
  induction all as [|q all IH]; intros children children' Hadd Hnd Hall.
  - injection Hadd as <-. now split.
  - cbn [addFileNodes] in Hadd.
    destruct (recs !! q) as [recq|]; [|discriminate].
    destruct (bool_decide (FileRec.Path recq = [])).
    + now apply (IH children).
    + apply (IH _ _ Hadd); now apply placeFile_unique.
Qed.

(** X25. [BuildTree] never gives a directory two child directories of the
    same name: in the tree it returns, the names of the directories
    among the children of any one directory are pairwise different. *)
Theorem BuildTree_unique_directories (order : list (Z * ptr)) (idx : Index)
    (ignoreNullPath : bool) (root : TreeNode) :
  BuildTree order idx ignoreNullPath = Done (Built root) ->
  uniqueDirs root.
Proof.
  intros Hbuild.
  apply BuildTree_Built_inv in Hbuild as (all & children & _ & Hadd & ->).
  destruct (addFileNodes_unique _ _ _ _ Hadd) as [Hnd Hall].
  - apply NoDup_nil_2.
  - constructor.
  - now constructor.
Qed.

Lemma BuildTree_unique_directories_witness :
  exists root,
    BuildTree (map_to_list (FilesByPathHash parsedIndex)) parsedIndex false
      = Done (Built root) /\
    uniqueDirs root.
Proof.
  destruct parsedIndex_builds as (root & Hroot & _).
  exists root. split; [exact Hroot|].
  exact (BuildTree_unique_directories _ parsedIndex false root Hroot).
Defined.

(** ** OpenBundledGGPK *)

Section BundledGGPKDrive.

Context `{External}.

Variable GGPKFile : Type.
Variable OpenFromReader : list byte -> Z -> option GGPKFile.
Variable disk : list byte -> option (list byte).
Variable join : list byte -> list byte -> list byte.
Variable basePath : list byte.

(** X26. On a parsed index in which exactly one record of the map has
    the path asked for, and with that record's bundle stored on disk
    with compressor NONE, [OpenBundledGGPK] hands to
    [ggpk.OpenFromReader] exactly the [Size] bytes at [Offset] of the
    bundle's content, with [Size] as the length, and returns what that
    returns; this holds for every iteration order of the map. *)
Theorem OpenBundledGGPK_reads_record (order : list (Z * ptr)) (idx : Index)
    (path : list byte) (k : Z) (p : ptr) (rec : FileRec.t)
    (record : BundleRec.t) (cs : Z) (chunks : list (list byte)) :
  pathsParsed idx = true ->
  wfIndex idx ->
  order ≡ₚ map_to_list (FilesByPathHash idx) ->
  FilesByPathHash idx !! k = Some p ->
  FileRecords idx !! p = Some rec ->
  FileRec.Path rec = path -> path <> [] ->
  (forall k' p' rec', FilesByPathHash idx !! k' = Some p' ->
     FileRecords idx !! p' = Some rec' -> FileRec.Path rec' = path ->
     p' = p) ->
  Bundles idx !! FileRec.BundleRecord rec = Some record ->
  disk (join basePath (BundleRec.Path record ++ go ".bundle.bin"))
    = Some (noneBundleFile cs chunks) ->
  laidOut cs chunks ->
  0 <= FileRec.Offset rec -> 0 < FileRec.Size rec ->
  FileRec.Offset rec + FileRec.Size rec <= totalLength chunks ->
  let window := take (Z.to_nat (FileRec.Size rec))
                  (drop (Z.to_nat (FileRec.Offset rec)) (concat chunks)) in
  exists idx',
    OpenBundledGGPK GGPKFile OpenFromReader
      (Some (DriveBundleFactory_GetBundle disk join basePath))
      order (Some idx) path
    = Done (match OpenFromReader window (FileRec.Size rec) with
            | Some g => Unpacked g
            | None => NotUnpacked ErrParseGGPK
            end, Some idx').
Proof.
  intros Hparsed Hwf Hperm Hk Hrec Hpath Hne Huniq Hrecord Hdisk Hl
         Hoff Hsize Hfit window.
  unfold OpenBundledGGPK.
  rewrite bool_decide_eq_false_2 by assumption.
  rewrite Hparsed. cbn [negb].
  assert (Hin : forall k' p', (k', p') ∈ order ->
                              FilesByPathHash idx !! k' = Some p').
  { intros k' p' Hkp. rewrite Hperm in Hkp.
    now apply elem_of_map_to_list in Hkp. }
  destruct (scanByPath_spec (FileRecords idx) order path)
    as [(k' & p' & rec' & Hscan & Hkp & Hrec' & Hpath')|[_ Hnone]].
  { intros k' p' Hkp. exact (Hwf k' p' (Hin k' p' Hkp)). }
  2:{ exfalso. apply (Hnone k p rec); [|assumption..].
      rewrite Hperm. now apply elem_of_map_to_list. }
  assert (p' = p) by (apply (Huniq k' p' rec'); auto). subst p'.
  rewrite Hscan, Hrec.
  unfold ReadFileData.
  rewrite (GetBundleForFileRecord_drive disk join basePath idx rec record cs
             chunks Hrecord Hdisk Hl).
  destruct (ReadAt_none_window cs chunks
              (Some (BundleRec.mk (BundleRec.Path record) (totalLength chunks)
                       (BundleRec.BundleIndex record)
                       (BundleRec.Files record)))
              false (FileRec.Offset rec) (FileRec.Size rec) Hl Hoff
              ltac:(lia) Hfit) as [b' ->].
  fold window.
  assert (Hlen : Z.of_nat (length window) = FileRec.Size rec).
  { subst window. rewrite length_take, length_drop.
    unfold totalLength in Hfit. lia. }
  destruct (Nat.eqb_spec (length window) 0); [lia|].
  rewrite Hlen. eexists.
  destruct (OpenFromReader window (FileRec.Size rec)); reflexivity.
Qed.

End BundledGGPKDrive.

Lemma OpenBundledGGPK_reads_record_witness :
  exists idx',
    OpenBundledGGPK (list byte) (fun bytes _ => Some bytes)
      (Some (DriveBundleFactory_GetBundle dataDisk dataJoin (go "/data")))
      (map_to_list (FilesByPathHash parsedIndex)) (Some parsedIndex)
      (go "Other.txt")
    = Done (Unpacked (replicate 10 x41), Some idx').
Proof.
  apply (OpenBundledGGPK_reads_record (list byte) (fun bytes _ => Some bytes)
           dataDisk dataJoin (go "/data")
           (map_to_list (FilesByPathHash parsedIndex)) parsedIndex
           (go "Other.txt") 42 1%nat
           (FileRec.mk 42 0 50 10 (go "Other.txt"))
           (BundleRec.mk (go "Bundle0") 1000 0 [0%nat; 1%nat])
           100 scenarioChunks eq_refl parsedIndex_wf (reflexivity _)).
  - reflexivity.
  - reflexivity.
  - reflexivity.
  - discriminate.
  - intros k' p' rec' Hk' Hrec' Hpath'.
    destruct p' as [|[|p']]; [|reflexivity|discriminate].
    injection Hrec' as <-. discriminate.
  - reflexivity.
  - reflexivity.
  - exact scenario_laidOut.
  - simpl. lia.
  - simpl. lia.
  - vm_compute. discriminate.
Defined.
